(** * agenticWallet: a shallow embedding of the wallet core

    The TypeScript sources embedded here are
    - [src/security/ProgramAllowlist.ts]
    - [src/wallet/KeyManager.ts], [src/wallet/WalletService.ts]
    - [src/agents/SimpleAgentRunner.ts], [src/agents/TradingAgent.ts],
      [src/agents/LiquidityAgent.ts]
    - [src/orchestrator/Orchestrator.ts], [src/orchestrator/EventBus.ts]

    Conventions.
    - The numbers of the spending ledger ([solSpent], [spendingLimit], the
      amounts of [trackSpending]), which the code adds and writes to the
      agent store, are IEEE 754 doubles: the primitive [float] of the
      Standard Library, with [NaN], the infinities and both zeros.  The
      numbers that the embedded code only compares or hands on (prices,
      thresholds, balances, probabilities) are kept as rationals ([Q]).
    - There is one file system: the key files and the agent store are files
      of it, named by the path that the operating system resolves.  A file
      holds the value that [JSON.stringify] was given; reading it back is
      [JSON.parse] of that text.  [fs.mkdir] and [fs.writeFile] are taken to
      succeed.
    - An [async] method is a function on an explicit world; what it reads
      from the clock, the random generator or the network is an argument.
    - A call either returns or throws: [completion].  The [Error] messages of
      the sources are the constructors of [Error]. *)

From Stdlib Require Import QArith Floats.
From Stdlib.Strings Require Byte.
From stdpp Require Import gmap strings list fin_maps pretty.

Set Default Proof Using "Type".
Set Warnings "-inexact-float".
Open Scope string_scope.
Open Scope list_scope.
Open Scope nat_scope.

(** ** Completions and errors *)

Inductive Error : Type :=
  (* ProgramAllowlist.ts: `Program not allowlisted: ${programId}` *)
  | ProgramNotAllowlisted (programId : string)
  (* WalletService.ts: `Transaction simulation failed: ${JSON.stringify(err)}` *)
  | TransactionSimulationFailed (err : string)
  (* KoraClient.ts: "Kora RPC URL not configured." *)
  | KoraNotConfigured
  (* KeyManager.ts: "KEYSTORE_PASSPHRASE is required." *)
  | PassphraseRequired
  (* Orchestrator.ts: `Agent not found: ${id}` *)
  | AgentNotFound (id : string)
  (* Orchestrator.ts: `Wallet "${walletName}" is already registered as agent ${id}` *)
  | AlreadyRegistered (walletName : string) (id : string)
  (* Orchestrator.ts: `Spending limit exceeded: ${spent} > ${limit} SOL` *)
  | SpendingLimitExceeded (spent limit : float)
  (* Orchestrator.ts: `Operation would exceed spending limit: ${spent} > ${limit} SOL` *)
  | WouldExceedSpendingLimit (spent limit : float)
  (* node:fs readFile on a missing path *)
  | ENOENT (path : string)
  (* TypeError: `${callee} is not a function`, a method that the value
     does not have *)
  | NotAFunction (callee : string)
  (* TypeError [ERR_INVALID_ARG_TYPE]: Buffer.from(undefined, "base64") *)
  | InvalidArgType
  (* whatever a subscriber of the event bus throws *)
  | SubscriberError (message : string)
  (* node:crypto decipher.final() when the tag does not verify *)
  | AuthenticationFailed
  (* @solana/web3.js Keypair.fromSecretKey *)
  | BadSecretKeySize
  | InvalidSecretKey
  (* @solana/web3.js new PublicKey(value) *)
  | InvalidPublicKeyInput
  (* whatever a network call rejects with *)
  | NetworkError (message : string).

Inductive completion (A : Type) : Type :=
  | Returns (a : A)
  | Throws (e : Error).
Arguments Returns {A} a.
Arguments Throws {A} e.

Definition is_Returns {A} (c : completion A) : bool :=
  match c with Returns _ => true | Throws _ => false end.

(** ** @solana/web3.js values seen by the wallet core *)

(** A [PublicKey] is identified with its base58 rendering, which is what every
    comparison in the sources goes through ([toBase58]). *)
Record TransactionInstruction := {
  programId : string;
  data : list Byte.byte;
}.

Record Transaction := {
  instructions : list TransactionInstruction;
  feePayer : option string;
  recentBlockhash : option string;
  signatures : list string;
}.

(** ** src/security/ProgramAllowlist.ts *)

Module ProgramAllowlist.

Record t := { allowedPrograms : gset string }.

(** [constructor(programIds?)]: [PROGRAM_ALLOWLIST] of config.ts is the
    fallback. *)
Definition new (PROGRAM_ALLOWLIST : list string)
    (programIds : option (list string)) : t :=
  let ids := default PROGRAM_ALLOWLIST programIds in
  {| allowedPrograms := list_to_set ids |}.

Definition isAllowed (self : t) (programId : string) : bool :=
  if Nat.eqb (size (allowedPrograms self)) 0 then
    (* Empty allowlist = allow all *)
    true
  else bool_decide (programId ∈ allowedPrograms self).

(** The [for ... of tx.instructions] loop. *)
Fixpoint validateInstructions (self : t)
    (ixs : list TransactionInstruction) : completion unit :=
  match ixs with
  | [] => Returns tt
  | instruction :: rest =>
      if negb (isAllowed self (programId instruction)) then
        Throws (ProgramNotAllowlisted (programId instruction))
      else validateInstructions self rest
  end.

Definition validateTransaction (self : t) (tx : Transaction)
    : completion unit :=
  if Nat.eqb (size (allowedPrograms self)) 0 then Returns tt
  else validateInstructions self (instructions tx).

Definition getAllowed (self : t) : list string :=
  elements (allowedPrograms self).

(** An instruction is approved when its program is in the allow-set. *)
Definition approved (self : t) (ix : TransactionInstruction) : Prop :=
  programId ix ∈ allowedPrograms self.

(** [bad] is the first instruction of [ixs] that is not approved. *)
Definition first_disallowed (self : t)
    (ixs : list TransactionInstruction) (bad : TransactionInstruction)
    : Prop :=
  ∃ before after,
    ixs = before ++ bad :: after ∧
    Forall (approved self) before ∧
    ¬ approved self bad.

End ProgramAllowlist.

(** ** Node and web3.js primitives

    [node:crypto], [Buffer] and the Ed25519 code of @solana/web3.js are
    outside the repository.  They are an interface here; what the sources
    rely on is stated separately in [NodeLaws]. *)

Abbreviation bytes := (list Byte.byte).

#[global] Instance byte_eq_dec : EqDecision Byte.byte := Byte.byte_eq_dec.

Class NodePrimitives := {
  (* scryptSync(passphrase, salt, keylen) *)
  scryptSync : string → bytes → nat → bytes;
  (* createCipheriv("aes-256-gcm", key, iv): update(plain) ++ final(), getAuthTag() *)
  aes256gcm_cipher : bytes → bytes → bytes → bytes * bytes;
  (* createDecipheriv("aes-256-gcm", key, iv), setAuthTag(tag):
     update(cipherText) ++ final(); [None] when final() throws *)
  aes256gcm_decipher : bytes → bytes → bytes → bytes → option bytes;
  (* buf.toString("base64") and Buffer.from(s, "base64") *)
  toBase64 : bytes → string;
  fromBase64 : string → bytes;
  (* the Ed25519 public key of a 32-byte private scalar *)
  getPublicKey : bytes → bytes;
  (* PublicKey.toBase58() *)
  toBase58 : bytes → string;
  (* new PublicKey(value) on a base58 string: it throws when the string does
     not decode to 32 bytes *)
  newPublicKey : string → completion string;
  (* path.join(dir, file) of node:path: the segments are joined and the
     result is normalised (["."], [".."] and repeated separators are
     resolved) *)
  path_join : string → string → string;
  (* the file that the operating system opens for a path: relative paths
     are taken from the working directory *)
  resolve : string → string;
}.

Class NodeLaws (P : NodePrimitives) : Prop := {
  decipher_cipher : ∀ key iv plain,
    aes256gcm_decipher key iv (aes256gcm_cipher key iv plain).2
      (aes256gcm_cipher key iv plain).1 = Some plain;
  fromBase64_toBase64 : ∀ b, fromBase64 (toBase64 b) = b;
}.

(** ** Keypair of @solana/web3.js *)

Record Keypair := {
  publicKey : bytes;
  secretKey : bytes;
}.

Module Keypair_.
Section WithPrimitives.
Context {P : NodePrimitives}.

(** [Keypair.generate()]; [seed] is the 32 random bytes it draws. *)
Definition generate (seed : bytes) : Keypair :=
  {| publicKey := getPublicKey seed; secretKey := seed ++ getPublicKey seed |}.

(** [Keypair.fromSecretKey(secretKey)] with its default validation. *)
Definition fromSecretKey (sk : bytes) : completion Keypair :=
  if negb (Nat.eqb (length sk) 64) then Throws BadSecretKeySize
  else
    let pk := drop 32 sk in
    if bool_decide (pk = getPublicKey (take 32 sk)) then
      Returns {| publicKey := pk; secretKey := sk |}
    else Throws InvalidSecretKey.

(** The class invariant of a web3.js [Keypair]: 64 secret bytes, the last 32
    being the public key of the first 32. *)
Definition wellformed (kp : Keypair) : Prop :=
  length (secretKey kp) = 64 ∧
  publicKey kp = drop 32 (secretKey kp) ∧
  publicKey kp = getPublicKey (take 32 (secretKey kp)).

End WithPrimitives.
End Keypair_.

(** ** JavaScript numbers

    A [number] is an IEEE 754 double.  [x > y] is [gt x y]; with a [NaN] on
    either side every comparison is [false]. *)

Module Number.

Definition gt (x y : float) : bool := (y <? x)%float.
Definition le (x y : float) : bool := (x <=? y)%float.
Definition ge (x y : float) : bool := (y <=? x)%float.

(** [JSON.parse(JSON.stringify(x))] on a number: [NaN] and the infinities
    are written as [null]; [-0] is written as [0]. *)
Definition JSON_number (x : float) : option float :=
  if is_finite x then Some (if is_zero x then zero else x) else None.

(** What rounding to nearest, ties to even, makes of a positive mantissa
    at the exponent [ec], in terms of the quotient [q1] that is kept:
    the double that [x + y] is when the exact sum has that quotient. *)
Definition rounded (s : bool) (q1 ec : Z) : spec_float :=
  if (q1 =? 0)%Z then S754_zero s
  else if (q1 <? 2 ^ 53)%Z then
    if (ec <=? 971)%Z then S754_finite s (Z.to_pos q1) ec
    else S754_infinity s
  else
    if (ec + 1 <=? 971)%Z then S754_finite s (Z.to_pos (2 ^ 52)) (ec + 1)
    else S754_infinity s.

End Number.

(** ** src/wallet/types.ts *)

Record StoredKeypair := {
  sk_name : string;
  sk_publicKey : string;
  cipherText : string;
  iv : string;
  salt : string;
  tag : string;
  sk_createdAt : string;
}.

(** ** src/tokens/TokenService.ts, src/agents/Agent.ts *)

(** [amount] is the decimal string [uiAmountString]; it is kept as the
    number that [parseFloat] reads from it. *)
Record SplBalance := {
  mint : string;
  amount : Q;
  decimals : N;
}.

Module Agent.

(** An optional field that is [undefined] or [null] is [None]. *)
Record AgentRecord := {
  id : string;
  walletName : string;
  walletAddress : string;
  strategy : string;
  createdAt : string;
  splBalances : option (list SplBalance);
  solSpent : option float;
  spendingLimit : option float;
  lastUpdated : option string;
}.

(** [JSON.parse(JSON.stringify(record))]: the numbers that JSON cannot
    write come back as [null]. *)
Definition JSON_record (r : AgentRecord) : AgentRecord :=
  {| id := id r; walletName := walletName r; walletAddress := walletAddress r;
     strategy := strategy r; createdAt := createdAt r;
     splBalances := splBalances r;
     solSpent := solSpent r ≫= Number.JSON_number;
     spendingLimit := spendingLimit r ≫= Number.JSON_number;
     lastUpdated := lastUpdated r |}.

End Agent.

(** ** The file system

    The two kinds of file that the wallet core writes: a key file
    ([saveKeypair]) and the agent store ([writeAgents]).  A file holds the
    value that [JSON.stringify] was given. *)
Inductive File :=
  | KeypairFile (stored : StoredKeypair)
  | AgentsFile (records : list Agent.AgentRecord).

(** The files, by the path that the operating system resolves. *)
Abbreviation FileSystem := (gmap string File).

Section Paths.
Context {P : NodePrimitives}.

(** [path.join(dir, `${name}.json`)] *)
Definition keypath (dir name : string) : string :=
  path_join dir (name +:+ ".json").

(** The file of that path. *)
Definition keyfile (dir name : string) : string :=
  resolve (keypath dir name).

End Paths.

(** ** src/wallet/KeyManager.ts *)

Module KeyManager.
Section WithPrimitives.
Context {P : NodePrimitives}.

Definition KEY_LENGTH : nat := 32.
Definition IV_LENGTH : nat := 12.
Definition SALT_LENGTH : nat := 16.

Record t := { passphrase : string }.

Definition new (passphrase : string) : completion t :=
  if String.eqb passphrase "" then Throws PassphraseRequired
  else Returns {| passphrase := passphrase |}.

Definition deriveKey (self : t) (salt : bytes) : bytes :=
  scryptSync (passphrase self) salt KEY_LENGTH.

(** What one call draws from [randomBytes] and reads from the clock. *)
Record Fresh := {
  fresh_iv : bytes;
  fresh_salt : bytes;
  fresh_now : string;
}.

Definition encryptKeypair (self : t) (name : string) (keypair : Keypair)
    (f : Fresh) : StoredKeypair :=
  let iv := fresh_iv f in
  let salt := fresh_salt f in
  let key := deriveKey self salt in
  let '(cipherText, tag) := aes256gcm_cipher key iv (secretKey keypair) in
  {| sk_name := name;
     sk_publicKey := toBase58 (publicKey keypair);
     cipherText := toBase64 cipherText;
     iv := toBase64 iv;
     salt := toBase64 salt;
     tag := toBase64 tag;
     sk_createdAt := fresh_now f |}.

Definition decryptKeypair (self : t) (stored : StoredKeypair)
    : completion Keypair :=
  let iv := fromBase64 (iv stored) in
  let salt := fromBase64 (salt stored) in
  let tag := fromBase64 (tag stored) in
  let key := deriveKey self salt in
  match aes256gcm_decipher key iv tag (fromBase64 (cipherText stored)) with
  | None => Throws AuthenticationFailed
  | Some secretKey => Keypair_.fromSecretKey secretKey
  end.

(** [fs.mkdir] then [fs.writeFile(filePath, ...)]: the file at the path is
    created or replaced. *)
Definition saveKeypair (self : t) (dir name : string) (keypair : Keypair)
    (f : Fresh) (fs : FileSystem) : StoredKeypair * FileSystem :=
  let stored := encryptKeypair self name keypair f in
  let filePath := keypath dir name in
  (stored, <[resolve filePath := KeypairFile stored]> fs).

(** [JSON.parse(raw) as StoredKeypair] is not checked: on the array of an
    agent store [stored.iv] is [undefined], and [Buffer.from] throws. *)
Definition loadKeypair (self : t) (dir name : string) (fs : FileSystem)
    : completion Keypair :=
  let filePath := keypath dir name in
  match fs !! resolve filePath with
  | None => Throws (ENOENT filePath)
  | Some (KeypairFile stored) => decryptKeypair self stored
  | Some (AgentsFile _) => Throws InvalidArgType
  end.

End WithPrimitives.

(** The part of [s] in front of a final [suffix], when [s] ends with it. *)
Fixpoint before_suffix (suffix s : string) : option string :=
  if String.eqb s suffix then Some ""
  else match s with
       | EmptyString => None
       | String c s' => String c <$> before_suffix suffix s'
       end.

(** [entry.endsWith(".json")] *)
Definition endsWith (s suffix : string) : bool :=
  match before_suffix suffix s with Some _ => true | None => false end.

(** [entry.replace(/\.json$/, "")] *)
Definition stripJson (entry : string) : string :=
  default entry (before_suffix ".json" entry).

(** [listKeypairs(dir)]; [readdir] is what [fs.readdir(dir)] settles with.
    A rejected [readdir] is caught and gives the empty list. *)
Definition listKeypairs (readdir : completion (list string)) : list string :=
  match readdir with
  | Returns entries =>
      stripJson <$> List.filter (λ entry, endsWith entry ".json") entries
  | Throws _ => []
  end.

End KeyManager.

(** ** The RPC node, as the wallet core calls it

    What the cluster answers is not decided by the repository: the answers are
    a parameter.  [serialize] is [tx.serialize(config)] of web3.js. *)

Record SimulatedTransactionResponse := {
  (* [value.err]: [None] is [null]; an error is kept as its JSON text
     (a [TransactionError] is an object or a non-empty string, so it is
     truthy exactly when it is not [null]) *)
  err : option string;
  logs : option (list string);
  unitsConsumed : option N;
}.

Inductive Endpoint := RpcNode | KoraNode.

Record Cluster := {
  simulateTransaction_rpc : Transaction → completion SimulatedTransactionResponse;
  serialize : bool → Transaction → completion bytes;
  sendRawTransaction : Endpoint → bytes → completion string;
  confirmTransaction : Endpoint → string → completion unit;
}.

(** The calls made by one run of the submission pipeline, in order. *)
Inductive Step :=
  | ValidateAllowlist
  | Simulate
  | SendRaw (via : Endpoint)
  | Confirm (via : Endpoint).

Definition Traced (A : Type) : Type := list Step * completion A.

Definition throw {A} (e : Error) : Traced A := ([], Throws e).
(** a call that is not recorded (it stays inside the process) *)
Definition silent {A} (c : completion A) : Traced A := ([], c).
Definition call {A} (s : Step) (c : completion A) : Traced A := ([s], c).

#[global] Instance Traced_ret : MRet Traced := λ A a, ([], Returns a).
#[global] Instance Traced_bind : MBind Traced := λ A B k m,
  match m with
  | (t, Returns a) => let '(t', r) := k a in (t ++ t', r)
  | (t, Throws e) => (t, Throws e)
  end.

(** Submission steps: the calls that hand the transaction to the network. *)
Definition is_submission (s : Step) : bool :=
  match s with SendRaw _ | Confirm _ => true | _ => false end.

(** ** src/kora/KoraClient.ts *)

Module KoraClient.
Section WithCluster.
Context (net : Cluster).

(** [koraConnection] is [null] when no Kora URL is configured. *)
Record t := { koraConnection : option string }.

Definition isEnabled (self : t) : bool :=
  bool_decide (koraConnection self ≠ None).

Definition sendTransaction (self : t) (tx : Transaction) : Traced string :=
  match koraConnection self with
  | None => throw KoraNotConfigured
  | Some _ =>
      (* Kora paymaster will sponsor the fee *)
      rawTx ← silent (serialize net false tx) ;
      signature ← call (SendRaw KoraNode) (sendRawTransaction net KoraNode rawTx) ;
      call (Confirm KoraNode) (confirmTransaction net KoraNode signature) ;;
      mret signature
  end.

End WithCluster.
End KoraClient.

(** ** src/wallet/WalletService.ts *)

Module WalletService.
Section WithPrimitives.
Context {P : NodePrimitives} (net : Cluster).

Record t := {
  keyManager : KeyManager.t;
  dir : string;
  koraClient : KoraClient.t;
  allowlist : ProgramAllowlist.t;
}.

(** [seed] is what [Keypair.generate()] draws. *)
Definition createWallet (self : t) (name : string) (seed : bytes)
    (f : KeyManager.Fresh) (fs : FileSystem) : Keypair * FileSystem :=
  let keypair := Keypair_.generate seed in
  let '(_, fs') :=
    KeyManager.saveKeypair (keyManager self) (dir self) name keypair f fs in
  (keypair, fs').

Definition loadWallet (self : t) (name : string) (fs : FileSystem)
    : completion Keypair :=
  KeyManager.loadKeypair (keyManager self) (dir self) name fs.

Definition simulateTransaction (self : t) (tx : Transaction)
    : Traced SimulatedTransactionResponse :=
  value ← call Simulate (simulateTransaction_rpc net tx) ;
  mret {| err := err value;
         logs := logs value;
         unitsConsumed := Some (default 0%N (unitsConsumed value)) |}.

Record SendOptions := { skipSimulation : option bool }.

(** [options?.skipSimulation], as a condition *)
Definition skips (options : option SendOptions) : bool :=
  match options with
  | Some o => default false (skipSimulation o)
  | None => false
  end.

Definition sendTransaction (self : t) (tx : Transaction)
    (options : option SendOptions) : Traced string :=
  (* Validate against program allowlist *)
  call ValidateAllowlist
    (ProgramAllowlist.validateTransaction (allowlist self) tx) ;;
  (* Simulate transaction first (unless explicitly skipped) *)
  (if negb (skips options) then
     simulation ← simulateTransaction self tx ;
     match err simulation with
     | Some e => throw (TransactionSimulationFailed e)
     | None => mret tt
     end
   else mret tt) ;;
  (* Use Kora if enabled, otherwise use standard RPC *)
  if KoraClient.isEnabled (koraClient self) then
    KoraClient.sendTransaction net (koraClient self) tx
  else
    raw ← silent (serialize net true tx) ;
    signature ← call (SendRaw RpcNode) (sendRawTransaction net RpcNode raw) ;
    call (Confirm RpcNode) (confirmTransaction net RpcNode signature) ;;
    mret signature.

(** The endpoint that receives the transaction. *)
Definition submit_via (self : t) : Endpoint :=
  if KoraClient.isEnabled (koraClient self) then KoraNode else RpcNode.

(** The calls of a run that nothing stops. *)
Definition full_trace (self : t) (options : option SendOptions) : list Step :=
  ValidateAllowlist ::
  (if skips options then [] else [Simulate]) ++
  [SendRaw (submit_via self); Confirm (submit_via self)].

End WithPrimitives.

Section Signing.
Context {P : NodePrimitives}.
(** [tx.sign(wallet)] of web3.js; it throws on a signer the transaction
    does not know. *)
Context (sign : Keypair → Transaction → completion Transaction).

Definition set_feePayer (v : string) (tx : Transaction) : Transaction :=
  {| instructions := instructions tx; feePayer := Some v;
     recentBlockhash := recentBlockhash tx; signatures := signatures tx |}.

Definition set_recentBlockhash (v : string) (tx : Transaction) : Transaction :=
  {| instructions := instructions tx; feePayer := feePayer tx;
     recentBlockhash := Some v; signatures := signatures tx |}.

(** [!tx.recentBlockhash]: the blockhash is undefined or the empty string *)
Definition lacks_blockhash (tx : Transaction) : bool :=
  match recentBlockhash tx with
  | None => true
  | Some h => String.eqb h ""
  end.

(** [signTransaction(tx, wallet)]; [getLatestBlockhash] is what
    [connection.getLatestBlockhash("confirmed")] settles with, if asked. *)
Definition signTransaction (getLatestBlockhash : completion string)
    (tx : Transaction) (wallet : Keypair) : completion Transaction :=
  let tx :=
    match feePayer tx with
    | None => set_feePayer (toBase58 (publicKey wallet)) tx
    | Some _ => tx
    end in
  if lacks_blockhash tx then
    match getLatestBlockhash with
    | Throws e => Throws e
    | Returns blockhash => sign wallet (set_recentBlockhash blockhash tx)
    end
  else sign wallet tx.

End Signing.
End WalletService.

(** [x > y] on numbers *)
Definition Qgtb (x y : Q) : bool := negb (Qle_bool x y).
(** [x < y] on numbers *)
Definition Qltb (x y : Q) : bool := negb (Qle_bool y x).

(** ** Execution loops as resumable computations

    An [async] loop runs until its next [await]; there the event loop may run
    other calls (a [stopAgent], another [run...]) before the awaited promise
    settles and the loop resumes.  A loop is therefore a function from the
    value its promise settled with to its next suspension, or to its end. *)

Inductive Settlement :=
  (* tokenService.transferSol / mintSpl / transferSpl *)
  | Signature (c : completion string)
  (* tokenService.getSplBalances *)
  | Balances (c : completion (list SplBalance))
  (* sleep(intervalMs); utils/sleep.js is not among the sources: by its
     use it is the pacing suspension of the specification, a promise that
     settles with no value *)
  | Slept.

Inductive Status (T : Type) :=
  | Suspended (t : T)
  | Finished (c : completion (list string)).
Arguments Suspended {T} t.
Arguments Finished {T} c.

(** ** src/agents/SimpleAgentRunner.ts *)

Module SimpleAgentRunner.

Record AgentLoopOptions := {
  to : string;
  sol : Q;
  iterations : nat;
  intervalMs : nat;
  holdProbability : Q;
}.

Inductive Await := AwaitTransferSol | AwaitSleep.

(** The locals of [runSolTransferLoop] at an [await]; [rolls i] is what
    [Math.random()] returns in iteration [i]. *)
Record Frame := {
  options : AgentLoopOptions;
  rolls : nat → Q;
  i : nat;
  signatures : list string;
  at_ : Await;
}.

Section Loop.
Context (opts : AgentLoopOptions) (rnd : nat → Q).

Definition suspend (i : nat) (signatures : list string) (a : Await)
    : Status Frame :=
  Suspended {| options := opts; rolls := rnd; i := i;
               signatures := signatures; at_ := a |}.

(** From the loop test of iteration [i] to the next [await].  [n] bounds the
    iterations left, [iterations - i]; at [0] the loop test is false. *)
Fixpoint from_test (n : nat) (i : nat) (signatures : list string)
    : Status Frame :=
  match n with
  | 0 => Finished (Returns signatures)
  | S n' =>
      if i <? iterations opts then
        let roll := rnd i in
        if Qle_bool (holdProbability opts) roll then
          suspend i signatures AwaitTransferSol
        else if (0 <? intervalMs opts) && (i <? iterations opts - 1) then
          suspend i signatures AwaitSleep
        else from_test n' (i + 1) signatures
      else Finished (Returns signatures)
  end.

(** After the transfer of iteration [i]: the pacing test, then on. *)
Definition after_action (i : nat) (signatures : list string) : Status Frame :=
  if (0 <? intervalMs opts) && (i <? iterations opts - 1) then
    suspend i signatures AwaitSleep
  else from_test (iterations opts - (i + 1)) (i + 1) signatures.

End Loop.

(** [runner.runSolTransferLoop(wallet, options)] up to its first [await]. *)
Definition runSolTransferLoop (options : AgentLoopOptions) (rolls : nat → Q)
    : Status Frame :=
  from_test options rolls (iterations options) 0 [].

(** The awaited promise settles with [v]; [None] when [v] is not what the
    frame awaits.  A rejected transfer is not caught: it ends the call. *)
Definition resume (fr : Frame) (v : Settlement) : option (Status Frame) :=
  match at_ fr, v with
  | AwaitTransferSol, Signature (Returns signature) =>
      Some (after_action (options fr) (rolls fr) (i fr)
              (signatures fr ++ [signature]))
  | AwaitTransferSol, Signature (Throws e) => Some (Finished (Throws e))
  | AwaitSleep, Slept =>
      Some (from_test (options fr) (rolls fr)
              (iterations (options fr) - (i fr + 1)) (i fr + 1) (signatures fr))
  | _, _ => None
  end.

(** A run of [opts] that has not collected more than its iterations allow:
    at most one signature per iteration begun. *)
Definition bounded (opts : AgentLoopOptions) (st : Status Frame) : Prop :=
  match st with
  | Suspended fr =>
      options fr = opts ∧ i fr < iterations opts
      ∧ length (signatures fr)
        ≤ match at_ fr with AwaitTransferSol => i fr | AwaitSleep => i fr + 1 end
  | Finished (Returns sigs) => length sigs ≤ iterations opts
  | Finished (Throws _) => True
  end.

(** The promises a run awaits settle with [vs], one after the other. *)
Fixpoint settle (st : Status Frame) (vs : list Settlement)
    : option (Status Frame) :=
  match vs, st with
  | [], _ => Some st
  | v :: vs, Suspended fr => st' ← resume fr v; settle st' vs
  | _ :: _, Finished _ => None
  end.

End SimpleAgentRunner.

(** ** src/agents/TradingAgent.ts *)

Module TradingAgent.

Record TradingConfig := {
  targetMint : string;
  buyThreshold : Q;
  sellThreshold : Q;
  tradeAmount : Q;
  iterations : nat;
  intervalMs : nat;
}.

Inductive Action := BUY | SELL | HOLD.

Definition evaluateMarket (price : Q) (config : TradingConfig) : Action :=
  if Qltb price (buyThreshold config) then BUY
  else if Qgtb price (sellThreshold config) then SELL
  else HOLD.

Inductive Await :=
  | AwaitMintSpl
  | AwaitGetSplBalances
  | AwaitTransferSpl
  | AwaitSleep.

(** The locals of [run] at an [await]; [logged] is what [console.error] has
    been given so far. *)
Record Frame := {
  config : TradingConfig;
  rolls : nat → Q;
  i : nat;
  signatures : list string;
  mockPrice : Q;
  logged : list Error;
  at_ : Await;
}.

Section Loop.
Context (cfg : TradingConfig) (rnd : nat → Q).

Definition suspend (i : nat) (signatures : list string) (mockPrice : Q)
    (logged : list Error) (a : Await) : Status Frame :=
  Suspended {| config := cfg; rolls := rnd; i := i;
               signatures := signatures; mockPrice := mockPrice;
               logged := logged; at_ := a |}.

(** From the loop test of iteration [i], with [this.running] being
    [running], to the next [await]. *)
Fixpoint from_test (running : bool) (n : nat) (i : nat)
    (signatures : list string) (mockPrice : Q) (logged : list Error)
    : Status Frame :=
  match n with
  | 0 => Finished (Returns signatures)
  | S n' =>
      if (i <? iterations cfg) && running then
        (* +/- 5% random walk *)
        let mockPrice := (mockPrice * ((95 # 100) + rnd i * (1 # 10)))%Q in
        match evaluateMarket mockPrice cfg with
        | BUY => suspend i signatures mockPrice logged AwaitMintSpl
        | SELL => suspend i signatures mockPrice logged AwaitGetSplBalances
        | HOLD =>
            if (0 <? intervalMs cfg) && (i <? iterations cfg - 1)
               && running then
              suspend i signatures mockPrice logged AwaitSleep
            else from_test running n' (i + 1) signatures mockPrice logged
        end
      else Finished (Returns signatures)
  end.

Definition after_action (running : bool) (i : nat)
    (signatures : list string) (mockPrice : Q) (logged : list Error)
    : Status Frame :=
  if (0 <? intervalMs cfg) && (i <? iterations cfg - 1) && running then
    suspend i signatures mockPrice logged AwaitSleep
  else from_test running (iterations cfg - (i + 1)) (i + 1)
         signatures mockPrice logged.

End Loop.

(** [agent.run(wallet, config)] up to its first [await]; it has just set
    [this.running = true]. *)
Definition run (config : TradingConfig) (rolls : nat → Q) : Status Frame :=
  from_test config rolls true (iterations config) 0 [] 1%Q [].

(** The address both agents "sell" to; it is built inside the [try]. *)
Definition burnAddress : string :=
  "1111111111111111111111111111111111111111111".

(** The awaited promise settles with [v] while [this.running] is [running].
    A rejection inside the [try] is logged and the loop goes on. *)
Definition resume {P : NodePrimitives} (running : bool) (fr : Frame)
    (v : Settlement) : option (Status Frame) :=
  let continue signatures logged :=
    after_action (config fr) (rolls fr) running (i fr) signatures
      (mockPrice fr) logged in
  match at_ fr, v with
  | AwaitMintSpl, Signature (Returns sig)
  | AwaitTransferSpl, Signature (Returns sig) =>
      Some (continue (signatures fr ++ [sig]) (logged fr))
  | AwaitMintSpl, Signature (Throws error)
  | AwaitTransferSpl, Signature (Throws error)
  | AwaitGetSplBalances, Balances (Throws error) =>
      Some (continue (signatures fr) (logged fr ++ [error]))
  | AwaitGetSplBalances, Balances (Returns balances) =>
      match find (λ b, String.eqb (mint b) (targetMint (config fr))) balances with
      | Some balance =>
          if Qgtb (amount balance) 0 then
            (* Transfer to a burn address to simulate selling *)
            match newPublicKey burnAddress with
            | Returns _ =>
                Some (suspend (config fr) (rolls fr) (i fr) (signatures fr)
                        (mockPrice fr) (logged fr) AwaitTransferSpl)
            | Throws error =>
                Some (continue (signatures fr) (logged fr ++ [error]))
            end
          else Some (continue (signatures fr) (logged fr))
      | None => Some (continue (signatures fr) (logged fr))
      end
  | AwaitSleep, Slept =>
      Some (from_test (config fr) (rolls fr) running
              (iterations (config fr) - (i fr + 1)) (i fr + 1)
              (signatures fr) (mockPrice fr) (logged fr))
  | _, _ => None
  end.

(** A run of [cfg] that has not rejected and has not collected more than
    its iterations allow. *)
Definition bounded (cfg : TradingConfig) (st : Status Frame) : Prop :=
  match st with
  | Suspended fr =>
      config fr = cfg ∧ i fr < iterations cfg
      ∧ length (signatures fr)
        ≤ match at_ fr with AwaitSleep => i fr + 1 | _ => i fr end
  | Finished (Returns sigs) => length sigs ≤ iterations cfg
  | Finished (Throws _) => False
  end.

(** The promises a run awaits settle with [vs], one after the other; each
    comes with the value [this.running] has when it settles. *)
Fixpoint settle {P : NodePrimitives} (st : Status Frame)
    (vs : list (bool * Settlement)) : option (Status Frame) :=
  match vs, st with
  | [], _ => Some st
  | (running, v) :: vs, Suspended fr =>
      st' ← resume running fr v; settle st' vs
  | _ :: _, Finished _ => None
  end.

End TradingAgent.

(** ** src/agents/LiquidityAgent.ts *)

Module LiquidityAgent.

Record LiquidityConfig := {
  poolMint : string;
  minBalance : Q;
  maxBalance : Q;
  rebalanceAmount : Q;
  iterations : nat;
  intervalMs : nat;
}.

Inductive Action := ADD_LIQUIDITY | REMOVE_LIQUIDITY | HOLD.

Definition evaluateBalance (balance : Q) (config : LiquidityConfig) : Action :=
  if Qltb balance (minBalance config) then ADD_LIQUIDITY
  else if Qgtb balance (maxBalance config) then REMOVE_LIQUIDITY
  else HOLD.

Inductive Await :=
  | AwaitGetSplBalances
  | AwaitMintSpl
  | AwaitTransferSpl
  | AwaitSleep.

Record Frame := {
  config : LiquidityConfig;
  i : nat;
  signatures : list string;
  logged : list Error;
  at_ : Await;
}.

Section Loop.
Context (cfg : LiquidityConfig).

Definition suspend (i : nat) (signatures : list string)
    (logged : list Error) (a : Await) : Status Frame :=
  Suspended {| config := cfg; i := i; signatures := signatures;
               logged := logged; at_ := a |}.

(** The loop test of iteration [i]; every iteration starts with an [await]. *)
Definition from_test (running : bool) (i : nat) (signatures : list string)
    (logged : list Error) : Status Frame :=
  if (i <? iterations cfg) && running then
    suspend i signatures logged AwaitGetSplBalances
  else Finished (Returns signatures).

Definition after_action (running : bool) (i : nat)
    (signatures : list string) (logged : list Error) : Status Frame :=
  if (0 <? intervalMs cfg) && (i <? iterations cfg - 1) && running then
    suspend i signatures logged AwaitSleep
  else from_test running (i + 1) signatures logged.

End Loop.

Definition run (config : LiquidityConfig) : Status Frame :=
  from_test config true 0 [] [].

(** The balance query at the top of an iteration is outside the [try]: its
    rejection ends the call.  A rejected mint or transfer is logged. *)
Definition resume {P : NodePrimitives} (running : bool) (fr : Frame)
    (v : Settlement) : option (Status Frame) :=
  let continue signatures logged :=
    after_action (config fr) running (i fr) signatures logged in
  match at_ fr, v with
  | AwaitGetSplBalances, Balances (Throws error) =>
      Some (Finished (Throws error))
  | AwaitGetSplBalances, Balances (Returns balances) =>
      let currentBalance :=
        match find (λ b, String.eqb (mint b) (poolMint (config fr))) balances with
        | Some balance => amount balance
        | None => 0%Q
        end in
      match evaluateBalance currentBalance (config fr) with
      | ADD_LIQUIDITY =>
          Some (suspend (config fr) (i fr) (signatures fr) (logged fr)
                  AwaitMintSpl)
      | REMOVE_LIQUIDITY =>
          if Qgtb currentBalance 0 then
            match newPublicKey TradingAgent.burnAddress with
            | Returns _ =>
                Some (suspend (config fr) (i fr) (signatures fr) (logged fr)
                        AwaitTransferSpl)
            | Throws error =>
                Some (continue (signatures fr) (logged fr ++ [error]))
            end
          else Some (continue (signatures fr) (logged fr))
      | HOLD => Some (continue (signatures fr) (logged fr))
      end
  | AwaitMintSpl, Signature (Returns sig)
  | AwaitTransferSpl, Signature (Returns sig) =>
      Some (continue (signatures fr ++ [sig]) (logged fr))
  | AwaitMintSpl, Signature (Throws error)
  | AwaitTransferSpl, Signature (Throws error) =>
      Some (continue (signatures fr) (logged fr ++ [error]))
  | AwaitSleep, Slept =>
      Some (from_test (config fr) running (i fr + 1) (signatures fr)
              (logged fr))
  | _, _ => None
  end.

Definition bounded (cfg : LiquidityConfig) (st : Status Frame) : Prop :=
  match st with
  | Suspended fr =>
      config fr = cfg ∧ i fr < iterations cfg
      ∧ length (signatures fr)
        ≤ match at_ fr with AwaitSleep => i fr + 1 | _ => i fr end
  | Finished (Returns sigs) => length sigs ≤ iterations cfg
  | Finished (Throws _) => True
  end.

Fixpoint settle {P : NodePrimitives} (st : Status Frame)
    (vs : list (bool * Settlement)) : option (Status Frame) :=
  match vs, st with
  | [], _ => Some st
  | (running, v) :: vs, Suspended fr =>
      st' ← resume running fr v; settle st' vs
  | _ :: _, Finished _ => None
  end.

End LiquidityAgent.

(** ** src/orchestrator/EventBus.ts *)

Module EventBus.

(** A handler is known by its identity (a function reference).
    [handlers : Map<string, Set<Handler>>]; a [Set] is the list of its
    elements in insertion order, without repetition. *)
Record t := { handlers : gmap string (list nat) }.

Definition new : t := {| handlers := ∅ |}.

(** [set.add(handler)] *)
Definition add (handler : nat) (set : list nat) : list nat :=
  if bool_decide (handler ∈ set) then set else set ++ [handler].

Definition on (event : string) (handler : nat) (self : t) : t :=
  let set := default [] (handlers self !! event) in
  {| handlers := <[event := add handler set]> (handlers self) |}.

Section Emit.
Context {Payload : Type}.
(** What calling a handler on a payload does: it returns or throws. *)
Context (invoke : nat → Payload → completion unit).

(** [for (const handler of set) handler(payload)]: the handlers called, in
    order, and how the loop ends. *)
Fixpoint deliver (set : list nat) (payload : Payload)
    : list nat * completion unit :=
  match set with
  | [] => ([], Returns tt)
  | handler :: rest =>
      match invoke handler payload with
      | Returns _ =>
          let '(called, r) := deliver rest payload in (handler :: called, r)
      | Throws e => ([handler], Throws e)
      end
  end.

Definition emit (event : string) (payload : Payload) (self : t)
    : list nat * completion unit :=
  match handlers self !! event with
  | None => ([], Returns tt)
  | Some set => deliver set payload
  end.

End Emit.


End EventBus.

(** ** src/orchestrator/Orchestrator.ts *)

Module Orchestrator.
Import Agent.

(** The runner objects.  [SimpleAgentRunner] has no [running] field and no
    [stop] method. *)
Inductive Runner :=
  | SimpleRunner
  | TradingRunner (running : bool)
  | LiquidityRunner (running : bool).

(** ["stop" in runner && typeof runner.stop === "function"] *)
Definition has_stop (r : Runner) : bool :=
  match r with SimpleRunner => false | _ => true end.

(** [runner.stop()]: [this.running = false] *)
Definition stop (r : Runner) : Runner :=
  match r with
  | SimpleRunner => SimpleRunner
  | TradingRunner _ => TradingRunner false
  | LiquidityRunner _ => LiquidityRunner false
  end.

Definition running (r : Runner) : bool :=
  match r with
  | SimpleRunner => true
  | TradingRunner b | LiquidityRunner b => b
  end.

(** [type RunningAgent]; [runner] is a reference into [objects]. *)
Record RunningAgent := {
  ra_id : string;
  runner : nat;
}.

Inductive Loop :=
  | SimpleLoop (fr : SimpleAgentRunner.Frame)
  | TradingLoop (fr : TradingAgent.Frame)
  | LiquidityLoop (fr : LiquidityAgent.Frame).

(** A call of [runAgentLoop], [runTradingAgent] or [runLiquidityAgent]:
    suspended inside its loop, or settled. *)
Inductive Call :=
  | Pending (agent : string) (runner : nat) (loop : Loop)
  | Settled (result : completion (list string)).

(** An event with its payload. *)
Inductive Event :=
  | agent_spawned (id strategy walletAddress : string)
  | agent_started (id strategy : string)
  | agent_stopped (id : string)
  | agent_completed (id : string) (signatures : list string).

(** The name an event is emitted under. *)
Definition event_name (e : Event) : string :=
  match e with
  | agent_spawned _ _ _ => "agent_spawned"
  | agent_started _ _ => "agent_started"
  | agent_stopped _ => "agent_stopped"
  | agent_completed _ _ => "agent_completed"
  end.

(** The state that the methods of an [Orchestrator] read and write.  The
    subscribers of the event bus come from outside ([getEventBus().on]):
    [handler h e] is what the function [h] does when it is called with
    the payload of [e].  A subscriber returns or throws; it is taken not to
    call back into the orchestrator while it runs. *)
Record World := {
  (* the file system: key files and agent store *)
  files : FileSystem;
  (* [this.storePath] *)
  storePath : string;
  (* [this.runningAgents] *)
  runningAgents : gmap string RunningAgent;
  (* the runner objects allocated so far *)
  objects : list Runner;
  (* the [run...] calls made so far *)
  calls : list Call;
  (* [this.eventBus] *)
  eventBus : EventBus.t;
  handler : nat → Event → completion unit;
  (* what [eventBus.emit] was given, oldest first *)
  events : list Event;
}.

(** [new Orchestrator(walletService, eventBus)] on a file system. *)
Definition new (fs : FileSystem) (storePath : string) (eventBus : EventBus.t)
    (handler : nat → Event → completion unit) : World :=
  {| files := fs; storePath := storePath; runningAgents := ∅; objects := [];
     calls := []; eventBus := eventBus; handler := handler; events := [] |}.

Definition setFiles (fs : FileSystem) (w : World) : World :=
  {| files := fs; storePath := storePath w; runningAgents := runningAgents w;
     objects := objects w; calls := calls w; eventBus := eventBus w;
     handler := handler w; events := events w |}.

Definition setRunning (m : gmap string RunningAgent) (w : World) : World :=
  {| files := files w; storePath := storePath w; runningAgents := m;
     objects := objects w; calls := calls w; eventBus := eventBus w;
     handler := handler w; events := events w |}.

Definition setObjects (os : list Runner) (w : World) : World :=
  {| files := files w; storePath := storePath w;
     runningAgents := runningAgents w; objects := os; calls := calls w;
     eventBus := eventBus w; handler := handler w; events := events w |}.

Definition setCalls (cs : list Call) (w : World) : World :=
  {| files := files w; storePath := storePath w;
     runningAgents := runningAgents w; objects := objects w; calls := cs;
     eventBus := eventBus w; handler := handler w; events := events w |}.

Definition setEvents (es : list Event) (w : World) : World :=
  {| files := files w; storePath := storePath w;
     runningAgents := runningAgents w; objects := objects w;
     calls := calls w; eventBus := eventBus w; handler := handler w;
     events := es |}.

(** [getEventBus().on(event, h)] *)
Definition on (event : string) (h : nat) (w : World) : World :=
  {| files := files w; storePath := storePath w;
     runningAgents := runningAgents w; objects := objects w;
     calls := calls w; eventBus := EventBus.on event h (eventBus w);
     handler := handler w; events := events w |}.

(** How [this.eventBus.emit(name, payload)] ends for an event: the
    subscribers of its name are called in turn, and the first that throws
    ends the call. *)
Definition delivery (w : World) (e : Event) : completion unit :=
  (EventBus.emit (handler w) (event_name e) e (eventBus w)).2.

(** [this.eventBus.emit(...)] *)
Definition emit (e : Event) (w : World) : World * completion unit :=
  (setEvents (events w ++ [e]) w, delivery w e).

Definition isRunning (w : World) (id : string) : bool :=
  bool_decide (is_Some (runningAgents w !! id)).

(** An array method called on what [readAgents] returned: on the object of
    a key file the method does not exist. *)
Definition asArray (method : string) (parsed : File)
    : completion (list AgentRecord) :=
  match parsed with
  | AgentsFile all => Returns all
  | KeypairFile _ => Throws (NotAFunction method)
  end.

Definition set_solSpent (v : float) (r : AgentRecord) : AgentRecord :=
  {| id := id r; walletName := walletName r; walletAddress := walletAddress r;
     strategy := strategy r; createdAt := createdAt r;
     splBalances := splBalances r; solSpent := Some v;
     spendingLimit := spendingLimit r; lastUpdated := lastUpdated r |}.

Definition set_lastUpdated (v : string) (r : AgentRecord) : AgentRecord :=
  {| id := id r; walletName := walletName r; walletAddress := walletAddress r;
     strategy := strategy r; createdAt := createdAt r;
     splBalances := splBalances r; solSpent := solSpent r;
     spendingLimit := spendingLimit r; lastUpdated := Some v |}.


(** The [options] arguments of the three [run...] methods. *)
Module SimpleOptions.
Record t := {
  to : string;
  sol : Q;
  iterations : option nat;
  intervalMs : option nat;
  holdProbability : option Q;
}.
End SimpleOptions.

Module TradingOptions.
Record t := {
  targetMint : string;
  buyThreshold : option Q;
  sellThreshold : option Q;
  tradeAmount : option Q;
  iterations : option nat;
  intervalMs : option nat;
}.
End TradingOptions.

Module LiquidityOptions.
Record t := {
  poolMint : string;
  minBalance : option Q;
  maxBalance : option Q;
  rebalanceAmount : option Q;
  iterations : option nat;
  intervalMs : option nat;
}.
End LiquidityOptions.

Definition Math_max (x y : Q) : Q := if Qle_bool x y then y else x.
Definition Math_min (x y : Q) : Q := if Qle_bool x y then x else y.

Definition Status_map {A B} (f : A → B) (st : Status A) : Status B :=
  match st with
  | Suspended t => Suspended (f t)
  | Finished c => Finished c
  end.

(** [new Runner(...)]: the object is added and its reference returned. *)
Definition alloc (r : Runner) (w : World) : nat * World :=
  (length (objects w), setObjects (objects w ++ [r]) w).

(** What follows [await runner.run...(...)] in the three [run...] methods:
    it runs when the loop returned, not when it threw.  The call returns
    the signatures unless a subscriber of [agent_completed] throws. *)
Definition after_loop (id : string) (result : completion (list string))
    (w : World) : World * completion (list string) :=
  match result with
  | Returns signatures =>
      let w := setRunning (delete id (runningAgents w)) w in
      let '(w, emitted) := emit (agent_completed id signatures) w in
      match emitted with
      | Returns _ => (w, Returns signatures)
      | Throws e => (w, Throws e)
      end
  | Throws e => (w, Throws e)
  end.

(** The loop of a call reached an [await] or its end. *)
Definition reached (id : string) (ref : nat) (st : Status Loop) (w : World)
    : World * Call :=
  match st with
  | Suspended loop => (w, Pending id ref loop)
  | Finished result =>
      let '(w, result) := after_loop id result w in (w, Settled result)
  end.

Definition newCall (c : Call) (w : World) : World :=
  setCalls (calls w ++ [c]) w.

(** The loops of agent [id] that are suspended at an [await]. *)
Definition loops_in_flight (w : World) (id : string) : list Call :=
  List.filter (λ c, match c with
                    | Pending agent _ _ => String.eqb agent id
                    | Settled _ => false
                    end) (calls w).

(** The promise awaited by call [k] settles with [v]: the loop runs to its
    next [await] or to its end, reading [this.running] of its own runner
    object.  [None] when call [k] is not waiting for [v]. *)
Definition resume {P : NodePrimitives} (k : nat) (v : Settlement) (w : World)
    : option World :=
  match calls w !! k with
  | Some (Pending id ref loop) =>
      obj ← objects w !! ref;
      st ← match loop with
           | SimpleLoop fr =>
               Status_map SimpleLoop <$> SimpleAgentRunner.resume fr v
           | TradingLoop fr =>
               Status_map TradingLoop <$> TradingAgent.resume (running obj) fr v
           | LiquidityLoop fr =>
               Status_map LiquidityLoop <$> LiquidityAgent.resume (running obj) fr v
           end;
      let '(w, c) := reached id ref st w in
      Some (setCalls (<[k := c]> (calls w)) w)
  | _ => None
  end.

(** The promises awaited by call [k] settle with [vs], one after the other. *)
Fixpoint resumeAll {P : NodePrimitives} (k : nat) (vs : list Settlement)
    (w : World) : option World :=
  match vs with
  | [] => Some w
  | v :: vs => w' ← resume k v w; resumeAll k vs w'
  end.

Section WithService.
Context {P : NodePrimitives}.
Context (walletService : WalletService.t) (DEFAULT_SPENDING_LIMIT : float).

(** config.ts: the default of [AGENT_STORE]. *)
Definition AGENT_STORE : string := path_join "data" "agents.json".

(** An orchestrator with its own event bus, on an empty file system. *)
Definition empty : World :=
  new ∅ AGENT_STORE EventBus.new (λ _ _, Returns tt).

(** The file of the agent store. *)
Definition storeFile (w : World) : string := resolve (storePath w).

(** The files other than the agent store. *)
Definition other_files (w : World) : FileSystem :=
  delete (storeFile w) (files w).

(** [readAgents()]: [JSON.parse] of the store file, not checked to be an
    array; [[]] when the file cannot be read. *)
Definition readAgents (w : World) : File :=
  match files w !! storeFile w with
  | Some (AgentsFile records) => AgentsFile (JSON_record <$> records)
  | Some (KeypairFile stored) => KeypairFile stored
  | None => AgentsFile []
  end.

(** [writeAgents(records)] *)
Definition writeAgents (records : list AgentRecord) (w : World) : World :=
  setFiles (<[storeFile w := AgentsFile records]> (files w)) w.

Definition listAgents (w : World) : File := readAgents w.

(** The records of the store, when it holds an array. *)
Definition agents (w : World) : list AgentRecord :=
  match readAgents w with
  | AgentsFile all => all
  | KeypairFile _ => []
  end.

(** [all.find((agent) => agent.id === id)] *)
Definition getAgent (w : World) (id : string)
    : completion (option AgentRecord) :=
  match asArray "all.find" (readAgents w) with
  | Throws e => Throws e
  | Returns all =>
      Returns (snd <$> list_find (λ agent, Agent.id agent = id) all)
  end.

(** [all.findIndex], then [all[index] = record] *)
Definition updateAgent (record : AgentRecord) (w : World)
    : World * completion unit :=
  match asArray "all.findIndex" (readAgents w) with
  | Throws e => (w, Throws e)
  | Returns all =>
      match list_find (λ a, Agent.id a = Agent.id record) all with
      | None => (w, Throws (AgentNotFound (Agent.id record)))
      | Some (index, _) =>
          (writeAgents (<[index := record]> all) w, Returns tt)
      end
  end.

(** What one [spawnAgent] or [promoteWallet] reads from outside: the clock,
    [randomUUID()], and for a spawn the key material. *)
Record Inputs := {
  dateNow : N;
  seed : bytes;
  fresh : KeyManager.Fresh;
  uuid : string;
  createdAtNow : string;
  lastUpdatedNow : string;
}.

Definition newRecord (name : string) (wallet : Keypair) (strategy : string)
    (spendingLimit : option float) (inp : Inputs) : AgentRecord :=
  {| id := uuid inp;
     walletName := name;
     walletAddress := toBase58 (publicKey wallet);
     strategy := strategy;
     createdAt := createdAtNow inp;
     splBalances := None;
     solSpent := Some zero;
     spendingLimit := Some (default DEFAULT_SPENDING_LIMIT spendingLimit);
     lastUpdated := Some (lastUpdatedNow inp) |}.

(** The wallet name a spawn call creates its wallet under. *)
Definition spawn_name (walletName : option string) (inp : Inputs) : string :=
  default ("agent-" +:+ pretty (dateNow inp)) walletName.

Definition spawnAgent (strategy : string) (walletName : option string)
    (spendingLimit : option float) (inp : Inputs) (w : World)
    : World * completion AgentRecord :=
  let name := default ("agent-" +:+ pretty (dateNow inp)) walletName in
  let '(wallet, fs) :=
    WalletService.createWallet walletService name (seed inp) (fresh inp)
      (files w) in
  let w := setFiles fs w in
  let record := newRecord name wallet strategy spendingLimit inp in
  match asArray "all.push" (readAgents w) with
  | Throws e => (w, Throws e)
  | Returns all =>
      let w := writeAgents (all ++ [record]) w in
      let '(w, emitted) :=
        emit (agent_spawned (id record) (Agent.strategy record)
                (walletAddress record)) w in
      match emitted with
      | Throws e => (w, Throws e)
      | Returns _ => (w, Returns record)
      end
  end.

Definition promoteWallet (walletName : string) (strategy : string)
    (spendingLimit : option float) (inp : Inputs) (w : World)
    : World * completion AgentRecord :=
  (* Check if already registered *)
  match asArray "all.find" (readAgents w) with
  | Throws e => (w, Throws e)
  | Returns all =>
      match list_find (λ a, Agent.walletName a = walletName) all with
      | Some (_, existing) =>
          (w, Throws (AlreadyRegistered walletName (id existing)))
      | None =>
          (* Load existing wallet (will throw if not found) *)
          match WalletService.loadWallet walletService walletName (files w) with
          | Throws e => (w, Throws e)
          | Returns wallet =>
              let record :=
                newRecord walletName wallet strategy spendingLimit inp in
              let w := writeAgents (all ++ [record]) w in
              let '(w, emitted) :=
                emit (agent_spawned (id record) (Agent.strategy record)
                        (walletAddress record)) w in
              match emitted with
              | Throws e => (w, Throws e)
              | Returns _ => (w, Returns record)
              end
          end
      end
  end.

(** The first half of [stopAgent]: the runner is told to stop and the id
    leaves the running set before the event is emitted. *)
Definition unregister (id : string) (w : World) : World * completion unit :=
  match runningAgents w !! id with
  | Some running =>
      let w :=
        match objects w !! runner running with
        | Some obj =>
            if has_stop obj then
              setObjects (<[runner running := stop obj]> (objects w)) w
            else w
        | None => w
        end in
      let w := setRunning (delete id (runningAgents w)) w in
      emit (agent_stopped id) w
  | None => (w, Returns tt)
  end.

Definition stopAgent (id : string) (now : string) (w : World)
    : World * completion unit :=
  let '(w, emitted) := unregister id w in
  match emitted with
  | Throws e => (w, Throws e)
  | Returns _ =>
      match getAgent w id with
      | Throws e => (w, Throws e)
      | Returns (Some record) => updateAgent (set_lastUpdated now record) w
      | Returns None => (w, Returns tt)
      end
  end.

Definition trackSpending (id : string) (sol : float) (now : string)
    (w : World) : World * completion unit :=
  match getAgent w id with
  | Throws e => (w, Throws e)
  | Returns None => (w, Throws (AgentNotFound id))
  | Returns (Some record) =>
      let spent := (default zero (solSpent record) + sol)%float in
      let limit := default DEFAULT_SPENDING_LIMIT (spendingLimit record) in
      if Number.gt spent limit then
        (w, Throws (SpendingLimitExceeded spent limit))
      else updateAgent (set_lastUpdated now (set_solSpent spent record)) w
  end.

Definition checkSpendingLimit (id : string) (sol : float) (w : World)
    : completion unit :=
  match getAgent w id with
  | Throws e => Throws e
  | Returns None => Throws (AgentNotFound id)
  | Returns (Some record) =>
      let spent := (default zero (solSpent record) + sol)%float in
      let limit := default DEFAULT_SPENDING_LIMIT (spendingLimit record) in
      if Number.gt spent limit then
        Throws (WouldExceedSpendingLimit spent limit)
      else Returns tt
  end.

(** The ledger of a record, with the fallbacks of [trackSpending]. *)
Definition spent_of (r : AgentRecord) : float := default zero (solSpent r).
Definition limit_of (r : AgentRecord) : float :=
  default DEFAULT_SPENDING_LIMIT (spendingLimit r).

(** [solSpent <= spendingLimit] *)
Definition within_limit (r : AgentRecord) : Prop :=
  Number.le (spent_of r) (limit_of r) = true.

(** A sequence of [trackSpending(id, sol)] calls, each with the time it
    reads; a call that throws leaves the world to the next call. *)
Definition trackAll (id : string) (cs : list (float * string)) (w : World)
    : World :=
  foldl (λ w c, (trackSpending id c.1 c.2 w).1) w cs.

(** Sequences of [spawnAgent] and [promoteWallet] calls. *)
Inductive Op :=
  | Spawn (strategy : string) (walletName : option string)
      (spendingLimit : option float) (inp : Inputs)
  | Promote (walletName : string) (strategy : string)
      (spendingLimit : option float) (inp : Inputs).

Definition perform (op : Op) (w : World) : World :=
  match op with
  | Spawn strategy walletName spendingLimit inp =>
      (spawnAgent strategy walletName spendingLimit inp w).1
  | Promote walletName strategy spendingLimit inp =>
      (promoteWallet walletName strategy spendingLimit inp w).1
  end.

Definition performAll (ops : list Op) (w : World) : World :=
  foldl (λ w op, perform op w) w ops.

(** The wallet names of the spawn calls of a sequence. *)
Definition spawn_names (ops : list Op) : list string :=
  omap (λ op, match op with
              | Spawn _ walletName _ inp => Some (spawn_name walletName inp)
              | Promote _ _ _ _ => None
              end) ops.

Definition registered (w : World) (name : string) : Prop :=
  name ∈ Agent.walletName <$> agents w.

(** The records registered for a wallet name. *)
Definition records_of (w : World) (name : string) : list AgentRecord :=
  List.filter (λ a, String.eqb (Agent.walletName a) name) (agents w).

(** The three [run...] methods, up to the first [await] of the loop.  The
    call is added to [calls]; its index is the length of [calls] before. *)
Definition runAgentLoop (id : string) (options : SimpleOptions.t)
    (rolls : nat → Q) (w : World) : World :=
  match getAgent w id with
  | Throws e => newCall (Settled (Throws e)) w
  | Returns None => newCall (Settled (Throws (AgentNotFound id))) w
  | Returns (Some record) =>
      match WalletService.loadWallet walletService (walletName record) (files w) with
      | Throws e => newCall (Settled (Throws e)) w
      | Returns wallet =>
          let '(runner, w) := alloc SimpleRunner w in
          let iterations := default 5 (SimpleOptions.iterations options) in
          let intervalMs := default 3000 (SimpleOptions.intervalMs options) in
          let holdProbability :=
            Math_min
              (Math_max (default (6 # 10)%Q (SimpleOptions.holdProbability options)) 0%Q)
              1%Q in
          let w := setRunning (<[id := {| ra_id := id; runner := runner |}]>
                                 (runningAgents w)) w in
          let '(w, emitted) := emit (agent_started id "simple_transfer") w in
          match emitted with
          | Throws e => newCall (Settled (Throws e)) w
          | Returns _ =>
              let signatures :=
                SimpleAgentRunner.runSolTransferLoop
                  {| SimpleAgentRunner.to := SimpleOptions.to options;
                     SimpleAgentRunner.sol := SimpleOptions.sol options;
                     SimpleAgentRunner.iterations := iterations;
                     SimpleAgentRunner.intervalMs := intervalMs;
                     SimpleAgentRunner.holdProbability := holdProbability |}
                  rolls in
              let '(w, c) :=
                reached id runner (Status_map SimpleLoop signatures) w in
              newCall c w
          end
      end
  end.

Definition runTradingAgent (id : string) (options : TradingOptions.t)
    (rolls : nat → Q) (w : World) : World :=
  match getAgent w id with
  | Throws e => newCall (Settled (Throws e)) w
  | Returns None => newCall (Settled (Throws (AgentNotFound id))) w
  | Returns (Some record) =>
      match WalletService.loadWallet walletService (walletName record) (files w) with
      | Throws e => newCall (Settled (Throws e)) w
      | Returns wallet =>
          let '(agent, w) := alloc (TradingRunner false) w in
          let w := setRunning (<[id := {| ra_id := id; runner := agent |}]>
                                 (runningAgents w)) w in
          let '(w, emitted) := emit (agent_started id "trading") w in
          match emitted with
          | Throws e => newCall (Settled (Throws e)) w
          | Returns _ =>
              (* agent.run(...): this.running = true *)
              let w :=
                setObjects (<[agent := TradingRunner true]> (objects w)) w in
              let signatures :=
                TradingAgent.run
                  {| TradingAgent.targetMint := TradingOptions.targetMint options;
                     TradingAgent.buyThreshold :=
                       default (95 # 100)%Q (TradingOptions.buyThreshold options);
                     TradingAgent.sellThreshold :=
                       default (105 # 100)%Q (TradingOptions.sellThreshold options);
                     TradingAgent.tradeAmount :=
                       default 1%Q (TradingOptions.tradeAmount options);
                     TradingAgent.iterations :=
                       default 5 (TradingOptions.iterations options);
                     TradingAgent.intervalMs :=
                       default 3000 (TradingOptions.intervalMs options) |}
                  rolls in
              let '(w, c) :=
                reached id agent (Status_map TradingLoop signatures) w in
              newCall c w
          end
      end
  end.

Definition runLiquidityAgent (id : string) (options : LiquidityOptions.t)
    (w : World) : World :=
  match getAgent w id with
  | Throws e => newCall (Settled (Throws e)) w
  | Returns None => newCall (Settled (Throws (AgentNotFound id))) w
  | Returns (Some record) =>
      match WalletService.loadWallet walletService (walletName record) (files w) with
      | Throws e => newCall (Settled (Throws e)) w
      | Returns wallet =>
          let '(agent, w) := alloc (LiquidityRunner false) w in
          let w := setRunning (<[id := {| ra_id := id; runner := agent |}]>
                                 (runningAgents w)) w in
          let '(w, emitted) := emit (agent_started id "liquidity") w in
          match emitted with
          | Throws e => newCall (Settled (Throws e)) w
          | Returns _ =>
              (* agent.run(...): this.running = true *)
              let w :=
                setObjects (<[agent := LiquidityRunner true]> (objects w)) w in
              let signatures :=
                LiquidityAgent.run
                  {| LiquidityAgent.poolMint := LiquidityOptions.poolMint options;
                     LiquidityAgent.minBalance :=
                       default 10%Q (LiquidityOptions.minBalance options);
                     LiquidityAgent.maxBalance :=
                       default 100%Q (LiquidityOptions.maxBalance options);
                     LiquidityAgent.rebalanceAmount :=
                       default 5%Q (LiquidityOptions.rebalanceAmount options);
                     LiquidityAgent.iterations :=
                       default 5 (LiquidityOptions.iterations options);
                     LiquidityAgent.intervalMs :=
                       default 3000 (LiquidityOptions.intervalMs options) |} in
              let '(w, c) :=
                reached id agent (Status_map LiquidityLoop signatures) w in
              newCall c w
          end
      end
  end.

(** [getAgentBalance(id)]; [getSolBalance] is what the token service
    answers for a public key. *)
Definition getAgentBalance (getSolBalance : bytes → completion Q)
    (id : string) (w : World) : completion Q :=
  match getAgent w id with
  | Throws e => Throws e
  | Returns None => Throws (AgentNotFound id)
  | Returns (Some record) =>
      match WalletService.loadWallet walletService (walletName record) (files w) with
      | Throws e => Throws e
      | Returns wallet => getSolBalance (publicKey wallet)
      end
  end.

(** [fundAgent(id, sol)]; [requestAirdrop] is the token service. *)
Definition fundAgent (requestAirdrop : bytes → Q → completion string)
    (id : string) (sol : Q) (w : World) : completion string :=
  match getAgent w id with
  | Throws e => Throws e
  | Returns None => Throws (AgentNotFound id)
  | Returns (Some record) =>
      match WalletService.loadWallet walletService (walletName record) (files w) with
      | Throws e => Throws e
      | Returns wallet => requestAirdrop (publicKey wallet) sol
      end
  end.


End WithService.
End Orchestrator.


(** ** src/tokens/TokenService.ts: [transferSol] *)

Module TokenService.

(** [msg.includes(part)] *)
Fixpoint includes (msg part : string) : bool :=
  String.prefix part msg ||
  match msg with
  | EmptyString => false
  | String _ rest => includes rest part
  end.

(** What the network answers to one attempt: the blockhash request, then
    [sendAndConfirmTransaction]. *)
Record Attempt := {
  latestBlockhash : completion string;
  sendAndConfirm : completion string;
}.

Section Retry.
(** [String(err)] *)
Context (String_ : Error → string).

Definition retryable (err : Error) : bool :=
  let msg := String_ err in
  includes msg "block height exceeded" || includes msg "Blockhash not found".

(** The body of the [try]: of its steps, the two network calls are the ones
    that can reject. *)
Definition try_ (a : Attempt) : completion string :=
  match latestBlockhash a with
  | Throws e => Throws e
  | Returns _ => sendAndConfirm a
  end.

(** The [for] loop from [attempt], with [n = 3 - attempt] attempts left;
    the number of attempts made so far is returned with the outcome.
    [lastError] is undefined only before the first attempt. *)
Fixpoint retry (answers : nat → Attempt) (n attempt : nat)
    (lastError : option Error) : nat * completion string :=
  match n with
  | 0 =>
      (attempt,
       match lastError with
       | Some e => Throws e
       | None => Throws (NetworkError "undefined")
       end)
  | S n' =>
      match try_ (answers attempt) with
      | Returns signature => (attempt + 1, Returns signature)
      | Throws err =>
          (* Retry with a fresh blockhash *)
          if retryable err then retry answers n' (attempt + 1) (Some err)
          else (attempt + 1, Throws err)
      end
  end.

(** [transferSol(from, to, sol)]: up to 3 attempts. *)
Definition transferSol (answers : nat → Attempt) : nat * completion string :=
  retry answers 3 0 None.

End Retry.
End TokenService.

(** ** A small instance of the primitives

    Used to run the embedding on concrete inputs.  It has the shape of the
    interface and satisfies [NodeLaws]; it is not cryptography. *)

Module Sample.

Definition sample_cipher (key iv plain : bytes) : bytes * bytes :=
  (rev plain, take 16 (key ++ iv)).

Definition sample_decipher (key iv tag cipherText : bytes) : option bytes :=
  if bool_decide (tag = take 16 (key ++ iv)) then Some (rev cipherText)
  else None.

(** The segments of a path, split at ["/"]; [cur] is the segment being
    read. *)
Fixpoint segments (s cur : string) : list string :=
  match s with
  | EmptyString => [cur]
  | String c rest =>
      if Ascii.eqb c (Ascii.ascii_of_nat 47) then cur :: segments rest ""
      else segments rest (cur +:+ String c "")
  end.

(** One segment on the stack of the segments kept so far, last first. *)
Definition push_segment (absolute : bool) (kept : list string)
    (segment : string) : list string :=
  if String.eqb segment "" || String.eqb segment "." then kept
  else if String.eqb segment ".." then
    match kept with
    | top :: below =>
        if String.eqb top ".." then segment :: kept else below
    | [] => if absolute then [] else [segment]
    end
  else segment :: kept.

Fixpoint unsplit (segs : list string) : string :=
  match segs with
  | [] => ""
  | [seg] => seg
  | seg :: rest => seg +:+ "/" +:+ unsplit rest
  end.

(** [path.normalize] of POSIX paths, without a trailing separator. *)
Definition normalize (path : string) : string :=
  let absolute := String.prefix "/" path in
  let kept := rev (foldl (push_segment absolute) [] (segments path "")) in
  if absolute then "/" +:+ unsplit kept
  else if bool_decide (kept = []) then "." else unsplit kept.

Definition sample_join (dir file : string) : string :=
  if String.eqb dir "" then normalize file
  else normalize (dir +:+ "/" +:+ file).

#[export] Instance primitives : NodePrimitives := {|
  scryptSync pass salt n := take n (salt ++ String.list_byte_of_string pass
                                      ++ replicate n Byte.x00);
  aes256gcm_cipher := sample_cipher;
  aes256gcm_decipher := sample_decipher;
  toBase64 := String.string_of_list_byte;
  fromBase64 := String.list_byte_of_string;
  getPublicKey seed := rev seed;
  toBase58 := String.string_of_list_byte;
  newPublicKey value := Returns value;
  path_join := sample_join;
  (* every path is relative to one working directory *)
  resolve path := path;
|}.

Definition seedA : bytes := replicate 31 Byte.x61 ++ [Byte.x62].
Definition seedB : bytes := replicate 31 Byte.x63 ++ [Byte.x64].

Definition freshA : KeyManager.Fresh :=
  {| KeyManager.fresh_iv := replicate 12 Byte.x0a;
     KeyManager.fresh_salt := replicate 16 Byte.x0b;
     KeyManager.fresh_now := "2026-02-19T07:21:33.408Z" |}.

Definition freshB : KeyManager.Fresh :=
  {| KeyManager.fresh_iv := replicate 12 Byte.x1a;
     KeyManager.fresh_salt := replicate 16 Byte.x1b;
     KeyManager.fresh_now := "2026-02-19T07:22:00.000Z" |}.

Definition manager : KeyManager.t := {| KeyManager.passphrase := "hunter2" |}.

Definition walletService : WalletService.t :=
  {| WalletService.keyManager := manager;
     WalletService.dir := "keys";
     WalletService.koraClient := {| KoraClient.koraConnection := None |};
     WalletService.allowlist := ProgramAllowlist.new [] None |}.

(** config.ts: [DEFAULT_SPENDING_LIMIT] defaults to ["1.0"]. *)
Definition DEFAULT_SPENDING_LIMIT : float := 1.

Definition inputsA : Orchestrator.Inputs :=
  {| Orchestrator.dateNow := 1771485693255;
     Orchestrator.seed := seedA;
     Orchestrator.fresh := freshA;
     Orchestrator.uuid := "6f1c2a50-0000-4000-8000-00000000000a";
     Orchestrator.createdAtNow := "2026-02-19T07:21:33.410Z";
     Orchestrator.lastUpdatedNow := "2026-02-19T07:21:33.411Z" |}.

Definition inputsB : Orchestrator.Inputs :=
  {| Orchestrator.dateNow := 1771485720000;
     Orchestrator.seed := seedB;
     Orchestrator.fresh := freshB;
     Orchestrator.uuid := "6f1c2a50-0000-4000-8000-00000000000b";
     Orchestrator.createdAtNow := "2026-02-19T07:22:00.002Z";
     Orchestrator.lastUpdatedNow := "2026-02-19T07:22:00.003Z" |}.

Definition idA : string := "6f1c2a50-0000-4000-8000-00000000000a".

(** One agent, spawned on the wallet ["agent-1"] with the default limit. *)
Definition oneAgent : Orchestrator.World :=
  (Orchestrator.spawnAgent walletService DEFAULT_SPENDING_LIMIT
     "simple" (Some "agent-1") None inputsA Orchestrator.empty).1.

(** One agent, spawned with a spending limit of [-1]. *)
Definition negativeLimit : Orchestrator.World :=
  (Orchestrator.spawnAgent walletService DEFAULT_SPENDING_LIMIT
     "simple" (Some "agent-1") (Some (-1)%float) inputsA Orchestrator.empty).1.

(** A wallet created on its own (CLI [wallet:create]), no agent yet. *)
Definition walletOnly : Orchestrator.World :=
  Orchestrator.setFiles
    (WalletService.createWallet walletService "agent-1" seedA freshA ∅).2
    Orchestrator.empty.

(** A subscriber that throws, whatever it is called with. *)
Definition failing : Error := SubscriberError "subscriber failed".

Definition throwing (h : nat) (e : Orchestrator.Event) : completion unit :=
  Throws failing.

(** One agent as in [oneAgent]; then a subscriber that throws is put on
    [agent_completed]. *)
Definition oneAgentWatched : Orchestrator.World :=
  Orchestrator.on "agent_completed" 0
    (Orchestrator.spawnAgent walletService DEFAULT_SPENDING_LIMIT
       "simple" (Some "agent-1") None inputsA
       (Orchestrator.new ∅ Orchestrator.AGENT_STORE EventBus.new throwing)).1.

(** The record of [oneAgent]. *)
Definition recordA : Agent.AgentRecord :=
  Orchestrator.newRecord DEFAULT_SPENDING_LIMIT "agent-1"
    (Keypair_.generate seedA) "simple" None inputsA.

(** [promote] of the wallet, then [spawn] under the same wallet name. *)
Definition promoteThenSpawn : list Orchestrator.Op :=
  [Orchestrator.Promote "agent-1" "simple" None inputsA;
   Orchestrator.Spawn "simple" (Some "agent-1") None inputsB].

(** Ten iterations, no pacing, a transfer in every iteration. *)
Definition tenTransfers : Orchestrator.SimpleOptions.t :=
  {| Orchestrator.SimpleOptions.to := "dest";
     Orchestrator.SimpleOptions.sol := (1 # 100)%Q;
     Orchestrator.SimpleOptions.iterations := Some 10;
     Orchestrator.SimpleOptions.intervalMs := Some 0;
     Orchestrator.SimpleOptions.holdProbability := Some 0%Q |}.

Definition threeTransfers : Orchestrator.SimpleOptions.t :=
  {| Orchestrator.SimpleOptions.to := "dest";
     Orchestrator.SimpleOptions.sol := (1 # 100)%Q;
     Orchestrator.SimpleOptions.iterations := Some 3;
     Orchestrator.SimpleOptions.intervalMs := Some 0;
     Orchestrator.SimpleOptions.holdProbability := Some 0%Q |}.

(** [Math.random()] returning one half every time. *)
Definition rolls : nat → Q := λ _, (1 # 2)%Q.

(** Ten iterations, no pacing, a buy in every iteration: the price starts
    at 1, never rises and the buy threshold is 2. *)
Definition tenBuys : Orchestrator.TradingOptions.t :=
  {| Orchestrator.TradingOptions.targetMint := "mint";
     Orchestrator.TradingOptions.buyThreshold := Some 2%Q;
     Orchestrator.TradingOptions.sellThreshold := Some 3%Q;
     Orchestrator.TradingOptions.tradeAmount := None;
     Orchestrator.TradingOptions.iterations := Some 10;
     Orchestrator.TradingOptions.intervalMs := Some 0 |}.

Definition threeBuys : Orchestrator.TradingOptions.t :=
  {| Orchestrator.TradingOptions.targetMint := "mint";
     Orchestrator.TradingOptions.buyThreshold := Some 2%Q;
     Orchestrator.TradingOptions.sellThreshold := Some 3%Q;
     Orchestrator.TradingOptions.tradeAmount := None;
     Orchestrator.TradingOptions.iterations := Some 3;
     Orchestrator.TradingOptions.intervalMs := Some 0 |}.

Definition tenRebalances : Orchestrator.LiquidityOptions.t :=
  {| Orchestrator.LiquidityOptions.poolMint := "mint";
     Orchestrator.LiquidityOptions.minBalance := None;
     Orchestrator.LiquidityOptions.maxBalance := None;
     Orchestrator.LiquidityOptions.rebalanceAmount := None;
     Orchestrator.LiquidityOptions.iterations := Some 10;
     Orchestrator.LiquidityOptions.intervalMs := Some 0 |}.

(** Ten transfers that the network confirms. *)
Definition tenSignatures : list Settlement :=
  (λ s, Signature (Returns s)) <$>
    ["sig0"; "sig1"; "sig2"; "sig3"; "sig4";
     "sig5"; "sig6"; "sig7"; "sig8"; "sig9"].

(** A cluster on which everything succeeds. *)
Definition cluster : Cluster :=
  {| simulateTransaction_rpc _ :=
       Returns {| err := None; logs := Some []; unitsConsumed := Some 150%N |};
     serialize _ _ := Returns [Byte.x01];
     sendRawTransaction _ _ := Returns "5sig";
     confirmTransaction _ _ := Returns tt |}.

(** A cluster whose confirmation times out. *)
Definition unconfirmed : Cluster :=
  {| simulateTransaction_rpc _ :=
       Returns {| err := None; logs := Some []; unitsConsumed := Some 150%N |};
     serialize _ _ := Returns [Byte.x01];
     sendRawTransaction _ _ := Returns "5sig";
     confirmTransaction _ _ := Throws (NetworkError "block height exceeded") |}.

Definition transferTx : Transaction :=
  {| instructions :=
       [{| programId := "11111111111111111111111111111111"; data := [] |}];
     feePayer := None;
     recentBlockhash := None;
     signatures := [] |}.

(** The loop options that [runAgentLoop] passes on for [threeTransfers]. *)
Definition threeLoop : SimpleAgentRunner.AgentLoopOptions :=
  {| SimpleAgentRunner.to := "dest";
     SimpleAgentRunner.sol := (1 # 100)%Q;
     SimpleAgentRunner.iterations := 3;
     SimpleAgentRunner.intervalMs := 0;
     SimpleAgentRunner.holdProbability := 0%Q |}.

Definition threeBuysConfig : TradingAgent.TradingConfig :=
  {| TradingAgent.targetMint := "mint";
     TradingAgent.buyThreshold := 2%Q;
     TradingAgent.sellThreshold := 3%Q;
     TradingAgent.tradeAmount := 1%Q;
     TradingAgent.iterations := 3;
     TradingAgent.intervalMs := 0 |}.

Definition twoRebalances : LiquidityAgent.LiquidityConfig :=
  {| LiquidityAgent.poolMint := "mint";
     LiquidityAgent.minBalance := 10%Q;
     LiquidityAgent.maxBalance := 100%Q;
     LiquidityAgent.rebalanceAmount := 5%Q;
     LiquidityAgent.iterations := 2;
     LiquidityAgent.intervalMs := 0 |}.

Definition timedOut : Error := NetworkError "Transaction was not confirmed".

End Sample.

(** * Properties *)

(** ** Program allowlist *)

Module ProgramAllowlistFacts.
Import ProgramAllowlist.

Lemma isAllowed_nonempty (self : t) (pid : string) :
  size (allowedPrograms self) ≠ 0 →
  isAllowed self pid = bool_decide (pid ∈ allowedPrograms self).
Proof.
  intros Hne. unfold isAllowed.
  destruct (Nat.eqb_spec (size (allowedPrograms self)) 0); [done|done].
Qed.

Lemma validateInstructions_returns (self : t) ixs :
  size (allowedPrograms self) ≠ 0 →
  validateInstructions self ixs = Returns tt ↔ Forall (approved self) ixs.
Proof.
  intros Hne. induction ixs as [|ix ixs IH]; simpl.
  - split; [constructor|done].
  - rewrite isAllowed_nonempty by done. unfold approved at 1.
    case_bool_decide as Hin; simpl.
    + rewrite IH. split; [by constructor|by inversion 1].
    + split; [done|]. inversion 1; subst. destruct Hin. by unfold approved in *.
Qed.

Lemma validateInstructions_throws (self : t) ixs e :
  size (allowedPrograms self) ≠ 0 →
  validateInstructions self ixs = Throws e ↔
  ∃ bad, first_disallowed self ixs bad ∧
         e = ProgramNotAllowlisted (programId bad).
Proof.
  intros Hne. revert e. induction ixs as [|ix ixs IH]; intros e; simpl.
  - split; [done|]. intros (bad & (pre & post & Heq & _) & _).
    by destruct pre.
  - rewrite isAllowed_nonempty by done.
    case_bool_decide as Hin; simpl.
    + rewrite IH. split.
      * intros (bad & (pre & post & -> & Hpre & Hbad) & ->).
        exists bad. split; [|done]. exists (ix :: pre), post.
        split; [done|]. split; [by constructor|done].
      * intros (bad & (pre & post & Heq & Hpre & Hbad) & ->).
        destruct pre as [|p pre]; simplify_eq/=.
        inversion Hpre; subst. exists bad. split; [|done].
        by exists pre, post.
    + split.
      * intros [= <-]. exists ix. split; [|done]. by exists [], ixs.
      * intros (bad & (pre & post & Heq & Hpre & Hbad) & ->).
        destruct pre as [|p pre]; simplify_eq/=; [done|].
        inversion Hpre; subst. destruct Hin. by unfold approved in *.
Qed.

(** C4.  With an empty allow-set [validateTransaction] returns on every
    transaction.  With a non-empty allow-set it returns exactly when the
    program of every instruction is in the set, and it throws on every
    transaction that holds an instruction whose program is absent; the error
    it then throws is [ProgramNotAllowlisted] of the first such instruction's
    program (and it throws nothing else). *)
Theorem validateTransaction_allowlist (self : t) (tx : Transaction) :
  (size (allowedPrograms self) = 0 → validateTransaction self tx = Returns tt)
  ∧ (size (allowedPrograms self) ≠ 0 →
       (validateTransaction self tx = Returns tt ↔
          Forall (approved self) (instructions tx))
       ∧ (Exists (λ ix, ¬ approved self ix) (instructions tx) →
            ∃ bad, first_disallowed self (instructions tx) bad ∧
                   validateTransaction self tx =
                     Throws (ProgramNotAllowlisted (programId bad)))
       ∧ (∀ e, validateTransaction self tx = Throws e ↔
            ∃ bad, first_disallowed self (instructions tx) bad ∧
                   e = ProgramNotAllowlisted (programId bad))).
Proof.
  unfold validateTransaction. split.
  - intros ->. done.
  - intros Hne. destruct (Nat.eqb_spec (size (allowedPrograms self)) 0); [done|].
    split; [by apply validateInstructions_returns|].
    split; [|intros e; by apply validateInstructions_throws].
    intros Hex.
    destruct (validateInstructions self (instructions tx)) as [[]|e] eqn:Hv.
    + apply validateInstructions_returns in Hv; [|done].
      apply Exists_exists in Hex as (ix & Hix & Hbad).
      rewrite Forall_forall in Hv. destruct Hbad. by apply Hv.
    + apply validateInstructions_throws in Hv as (bad & Hfirst & ->); [|done].
      by exists bad.
Qed.

End ProgramAllowlistFacts.

(** ** Key custody *)

Module KeyManagerFacts.
Import KeyManager.

Lemma fromSecretKey_wellformed `{P : NodePrimitives} (kp : Keypair) :
  Keypair_.wellformed kp → Keypair_.fromSecretKey (secretKey kp) = Returns kp.
Proof.
  intros (Hlen & Hpk & Hed). unfold Keypair_.fromSecretKey.
  rewrite Hlen. simpl. rewrite <- Hpk, <- Hed.
  rewrite bool_decide_eq_true_2 by done. by destruct kp.
Qed.

Lemma generate_wellformed `{P : NodePrimitives} (seed : bytes) :
  length seed = 32 → length (getPublicKey seed) = 32 →
  Keypair_.wellformed (Keypair_.generate seed).
Proof.
  intros Hs Hp. unfold Keypair_.wellformed, Keypair_.generate. simpl.
  rewrite length_app, Hs, Hp. split; [done|].
  rewrite drop_app_length' by done. rewrite take_app_length' by done. done.
Qed.

Lemma sample_laws : NodeLaws Sample.primitives.
Proof.
  split.
  - intros key iv plain. simpl. unfold Sample.sample_decipher.
    rewrite bool_decide_eq_true_2 by done. by rewrite rev_involutive.
  - intros b. simpl. apply String.list_byte_of_string_of_list_byte.
Qed.

(** Decryption undoes encryption, on a well-formed keypair. *)
Lemma decryptKeypair_inverts {P : NodePrimitives} {L : NodeLaws P}
    (self : t) (name : string) (kp : Keypair) (f : Fresh) :
  Keypair_.wellformed kp →
  decryptKeypair self (encryptKeypair self name kp f) = Returns kp.
Proof.
  intros Hwf. unfold decryptKeypair, encryptKeypair.
  pose proof (decipher_cipher (deriveKey self (fresh_salt f))
                (fresh_iv f) (secretKey kp)) as Hdec.
  destruct (aes256gcm_cipher _ _ _) as [ct tg] eqn:Hc. simpl in *.
  rewrite !fromBase64_toBase64, Hdec.
  by apply fromSecretKey_wellformed.
Qed.

(** C2.  Under the contracts of AES-GCM and base64 ([NodeLaws]), decrypting
    the record that [encryptKeypair] produced for a keypair, with the same
    key manager (the same passphrase), returns a keypair with the same public
    key and the same secret key bytes: the keypair itself. *)
Theorem decryptKeypair_encryptKeypair {P : NodePrimitives} {L : NodeLaws P}
    (self : t) (name : string) (kp : Keypair) (f : Fresh) :
  Keypair_.wellformed kp →
  ∃ kp', decryptKeypair self (encryptKeypair self name kp f) = Returns kp'
         ∧ publicKey kp' = publicKey kp
         ∧ secretKey kp' = secretKey kp
         ∧ toBase58 (publicKey kp')
           = sk_publicKey (encryptKeypair self name kp f).
Proof.
  intros Hwf. exists kp. split; [|split; [done|split; [done|]]].
  - by apply decryptKeypair_inverts.
  - unfold encryptKeypair. by destruct (aes256gcm_cipher _ _ _).
Qed.

Import Sample.

Lemma decryptKeypair_encryptKeypair_witness :
  Keypair_.wellformed (Keypair_.generate Sample.seedA) ∧
  ∃ kp', decryptKeypair Sample.manager
           (encryptKeypair Sample.manager "agent-1"
              (Keypair_.generate Sample.seedA) Sample.freshA) = Returns kp'
         ∧ publicKey kp' = publicKey (Keypair_.generate Sample.seedA)
         ∧ secretKey kp' = secretKey (Keypair_.generate Sample.seedA)
         ∧ toBase58 (publicKey kp')
           = sk_publicKey (encryptKeypair Sample.manager "agent-1"
                             (Keypair_.generate Sample.seedA) Sample.freshA).
Proof.
  assert (Hwf : Keypair_.wellformed (Keypair_.generate Sample.seedA))
    by (apply generate_wellformed; reflexivity).
  split; [exact Hwf|].
  exact (@decryptKeypair_encryptKeypair _ sample_laws Sample.manager
           "agent-1" (Keypair_.generate Sample.seedA) Sample.freshA Hwf).
Defined.

End KeyManagerFacts.

Module WalletServiceFacts.
Import WalletService.

Section Frame.
Context {P : NodePrimitives}.

Lemma saveKeypair_lookup (km : KeyManager.t) dir name kp f (fs : FileSystem) path :
  (KeyManager.saveKeypair km dir name kp f fs).2 !! path =
    if decide (keyfile dir name = path)
    then Some (KeypairFile (KeyManager.encryptKeypair km name kp f))
    else fs !! path.
Proof. unfold KeyManager.saveKeypair. simpl. apply lookup_insert. Qed.

(** C5, as the code has it.  [createWallet] on a name writes the freshly
    encrypted record of the newly generated keypair to the file that
    [path.join(dir, name + ".json")] names, whatever that file held (a
    record, the agent store, or nothing), and leaves every other file as it
    was. *)
Theorem createWallet_replaces_record (self : t) (name : string)
    (seed : bytes) (f : KeyManager.Fresh) (fs : FileSystem) :
  let stored :=
    KeyManager.encryptKeypair (keyManager self) name (Keypair_.generate seed) f in
  let fs' := (createWallet self name seed f fs).2 in
  (createWallet self name seed f fs).1 = Keypair_.generate seed
  ∧ fs' !! keyfile (dir self) name = Some (KeypairFile stored)
  ∧ ∀ path, path ≠ keyfile (dir self) name → fs' !! path = fs !! path.
Proof.
  unfold createWallet.
  pose proof (saveKeypair_lookup (keyManager self) (dir self) name
                (Keypair_.generate seed) f fs) as Hl.
  destruct (KeyManager.saveKeypair _ _ _ _ _ _) as [st fs1]. simpl in *.
  split; [done|]. split.
  - rewrite Hl. by rewrite decide_True.
  - intros path Hne. rewrite Hl. by rewrite decide_False.
Qed.

(** X3.  [load(create(name))]: under the contracts of the primitives, the
    wallet that [createWallet] made is the wallet that [loadWallet] returns
    for the name, whatever the keystore held before. *)
Lemma loadWallet_createWallet {L : NodeLaws P} (self : t) (name : string)
    (seed : bytes) (f : KeyManager.Fresh) (fs : FileSystem) :
  length seed = 32 → length (getPublicKey seed) = 32 →
  loadWallet self name (createWallet self name seed f fs).2
  = Returns (createWallet self name seed f fs).1.
Proof.
  intros Hs Hp. unfold loadWallet, KeyManager.loadKeypair, createWallet.
  pose proof (saveKeypair_lookup (keyManager self) (dir self) name
                (Keypair_.generate seed) f fs (keyfile (dir self) name)) as Hl.
  destruct (KeyManager.saveKeypair _ _ _ _ _ _) as [st fs1]. simpl in *.
  fold (keyfile (dir self) name). rewrite Hl, decide_True by done.
  apply KeyManagerFacts.decryptKeypair_inverts.
  by apply KeyManagerFacts.generate_wellformed.
Qed.

End Frame.

Import Sample.

(** C5, as specified, fails: a second [createWallet] under a name
    that has a record replaces the record's [cipherText], [iv], [salt] and
    [tag]. *)
Lemma createWallet_overwrites_existing :
  let ws := Sample.walletService in
  let fs0 := (createWallet ws "agent-1" Sample.seedA Sample.freshA ∅).2 in
  let fs1 := (createWallet ws "agent-1" Sample.seedB Sample.freshB fs0).2 in
  ∃ r0 r1,
    fs0 !! keyfile "keys" "agent-1" = Some (KeypairFile r0)
    ∧ fs1 !! keyfile "keys" "agent-1" = Some (KeypairFile r1)
    ∧ cipherText r1 ≠ cipherText r0
    ∧ iv r1 ≠ iv r0
    ∧ salt r1 ≠ salt r0
    ∧ tag r1 ≠ tag r0.
Proof.
  eexists _, _. split; [vm_compute; reflexivity|].
  split; [vm_compute; reflexivity|].
  repeat split; vm_compute; discriminate.
Qed.

(** The same through another spelling of the name: [path.join] normalises,
    so ["./agent-1"] names the file of ["agent-1"], whose record is
    replaced; and a name that climbs out of the keystore directory reaches
    the agent store. *)
Example createWallet_overwrites_by_path :
  let ws := Sample.walletService in
  let fs0 := (createWallet ws "agent-1" Sample.seedA Sample.freshA ∅).2 in
  let fs1 := (createWallet ws "./agent-1" Sample.seedB Sample.freshB fs0).2 in
  keyfile "keys" "./agent-1" = keyfile "keys" "agent-1"
  ∧ (∃ r0 r1,
       fs0 !! keyfile "keys" "agent-1" = Some (KeypairFile r0)
       ∧ fs1 !! keyfile "keys" "agent-1" = Some (KeypairFile r1)
       ∧ cipherText r1 ≠ cipherText r0)
  ∧ keyfile "keys" "../data/agents" = resolve Orchestrator.AGENT_STORE.
Proof.
  split; [reflexivity|]. split; [|reflexivity].
  eexists _, _. split; [vm_compute; reflexivity|].
  split; [vm_compute; reflexivity|]. vm_compute; discriminate.
Qed.

End WalletServiceFacts.

(** ** The submission pipeline *)

Module SendTransactionFacts.
Import WalletService.

Section Pipeline.
Context {P : NodePrimitives} (net : Cluster).

Lemma submission_trace (self : t) (tx : Transaction) :
  let r := (if KoraClient.isEnabled (koraClient self) then
              KoraClient.sendTransaction net (koraClient self) tx
            else
              raw ← silent (serialize net true tx);
              signature ← call (SendRaw RpcNode) (sendRawTransaction net RpcNode raw);
              call (Confirm RpcNode) (confirmTransaction net RpcNode signature);;
              mret signature) in
  r.1 `prefix_of` [SendRaw (submit_via self); Confirm (submit_via self)].
Proof.
  unfold submit_via, KoraClient.isEnabled, KoraClient.sendTransaction.
  destruct (KoraClient.koraConnection (koraClient self)) as [url|] eqn:Hk; simpl.
  - destruct (serialize net false tx) as [raw|e]; simpl; [|by apply prefix_nil].
    destruct (sendRawTransaction net KoraNode raw) as [sg|e]; simpl;
      [|by eexists [_]].
    destruct (confirmTransaction net KoraNode sg) as [[]|e]; simpl; done.
  - destruct (serialize net true tx) as [raw|e]; simpl; [|by apply prefix_nil].
    destruct (sendRawTransaction net RpcNode raw) as [sg|e]; simpl;
      [|by eexists [_]].
    destruct (confirmTransaction net RpcNode sg) as [[]|e]; simpl; done.
Qed.

(** C3.  Every run of [sendTransaction] starts with the allowlist check, and
    what follows it is an initial part of: the simulation (unless skipped),
    then the hand-over to the network.  A policy rejection ends the run at the
    check, with that error and no network call.  When simulation is not
    skipped and the simulated result carries an error, no submission step is
    made, through Kora or directly, and a run that passed the check fails
    with [TransactionSimulationFailed] of the reported error. *)
Theorem sendTransaction_checks_before_network
    (self : t) (tx : Transaction) (options : option SendOptions) :
  let run := sendTransaction net self tx options in
  (∃ rest, run.1 = ValidateAllowlist :: rest
           ∧ ValidateAllowlist :: rest `prefix_of` full_trace self options)
  ∧ (∀ e, ProgramAllowlist.validateTransaction (allowlist self) tx = Throws e →
          run = ([ValidateAllowlist], Throws e))
  ∧ (∀ response e,
        skips options = false →
        simulateTransaction_rpc net tx = Returns response →
        err response = Some e →
        Forall (λ s, is_submission s = false) run.1
        ∧ (ProgramAllowlist.validateTransaction (allowlist self) tx = Returns tt →
           run = ([ValidateAllowlist; Simulate],
                  Throws (TransactionSimulationFailed e)))).
Proof.
  pose proof (submission_trace self tx) as Hsub.
  unfold sendTransaction, full_trace, simulateTransaction. simpl in *.
  destruct (ProgramAllowlist.validateTransaction (allowlist self) tx)
    as [[]|e0] eqn:Hv; simpl.
  2:{ split; [exists []; split; [done|]; by apply prefix_cons, prefix_nil|].
      split; [by intros e [= ->]|].
      intros response e _ _ _. split; [|done].
      repeat constructor. }
  destruct (skips options) eqn:Hs; simpl.
  - match type of Hsub with (?r).1 `prefix_of` _ => destruct r as [t2 r2] end.
    simpl in *. split; [|split; [done|done]].
    exists t2. split; [done|]. by apply prefix_cons.
  - destruct (simulateTransaction_rpc net tx) as [resp|e1] eqn:Hsim; simpl.
    2:{ split; [eexists; split; [done|]; by eexists [_; _]|].
        split; [done|]. intros response e _ [=]. }
    destruct (err resp) as [e2|] eqn:He; simpl.
    + split; [eexists; split; [done|]; by eexists [_; _]|].
      split; [done|]. intros response e _ [= <-] He'.
      rewrite He in He'. injection He' as <-.
      split; [repeat constructor|done].
    + match type of Hsub with (?r).1 `prefix_of` _ => destruct r as [t2 r2] end.
      simpl in *. split.
      * exists (Simulate :: t2). split; [done|].
        by apply prefix_cons, prefix_cons.
      * split; [done|]. intros response e _ [= <-] He'. congruence.
Qed.

End Pipeline.
End SendTransactionFacts.

(** ** IEEE 754 doubles

    What the ledger needs of the arithmetic of doubles, from the
    specification of the primitive floats ([SpecFloat], [FloatAxioms]):
    rounding an exact sum is monotone against the numbers of the format.
    A finite double is [m * 2 ^ e] with [-1074 <= e]; exact values are
    compared after scaling by [2 ^ 1074], as integers. *)

Module NumberFacts.
Local Open Scope Z_scope.

Lemma digits2_pos_size p : digits2_pos p = Pos.size p.
Proof. induction p; simpl; congruence. Qed.

Lemma pow2_S n : 0 < n -> 2 ^ n = 2 * 2 ^ (n - 1).
Proof.
  intros Hn. replace n with (1 + (n - 1)) at 1 by lia.
  rewrite Z.pow_add_r by lia. reflexivity.
Qed.

Lemma pow2_pos n : 0 <= n -> 0 < 2 ^ n.
Proof. intros. apply Z.pow_pos_nonneg; lia. Qed.

Lemma digits2_pos_bounds p :
  2 ^ (Z.pos (digits2_pos p) - 1) <= Z.pos p < 2 ^ Z.pos (digits2_pos p).
Proof.
  rewrite digits2_pos_size. split.
  - pose proof (Pos.size_le p) as H.
    apply Pos2Z.pos_le_pos in H.
    rewrite Pos2Z.inj_pow in H.
    rewrite (pow2_S (Z.pos (Pos.size p))) in H by lia. lia.
  - pose proof (Pos.size_gt p) as H. apply Pos2Z.pos_lt_pos in H.
    now rewrite Pos2Z.inj_pow in H.
Qed.

Lemma fexp_eq e : fexp prec emax e = Z.max (e - 53) (-1074).
Proof. reflexivity. Qed.

Lemma shr_1_m mrs : 0 <= shr_m mrs -> shr_m (shr_1 mrs) = shr_m mrs / 2.
Proof.
  destruct mrs as [m r s]. simpl. intros Hm.
  destruct m as [|p|p]; [reflexivity| |lia].
  rewrite <- Z.div2_div. destruct p; reflexivity.
Qed.

Lemma iter_pos_shr_m p : forall mrs, 0 <= shr_m mrs ->
  shr_m (SpecFloat.iter_pos shr_1 p mrs) = shr_m mrs / 2 ^ Z.pos p.
Proof.
  induction p as [p IH|p IH|]; intros mrs Hm; simpl SpecFloat.iter_pos.
  - assert (H1 : 0 <= shr_m (shr_1 mrs)).
    { rewrite shr_1_m by lia. apply Z.div_pos; lia. }
    assert (Hp : 0 < 2 ^ Z.pos p) by (apply pow2_pos; lia).
    assert (H2 : 0 <= shr_m (SpecFloat.iter_pos shr_1 p (shr_1 mrs))).
    { rewrite IH by lia. apply Z.div_pos; lia. }
    rewrite IH, IH, shr_1_m by lia.
    rewrite !Z.div_div by lia. f_equal.
    assert (E : 2 ^ Z.pos p~1 = 2 * (2 ^ Z.pos p * 2 ^ Z.pos p)).
    { rewrite <- Z.pow_add_r, <- Z.pow_succ_r by lia. f_equal. lia. }
    rewrite E. lia.
  - assert (Hp : 0 < 2 ^ Z.pos p) by (apply pow2_pos; lia).
    assert (H2 : 0 <= shr_m (SpecFloat.iter_pos shr_1 p mrs)).
    { rewrite IH by lia. apply Z.div_pos; lia. }
    rewrite IH, IH by lia.
    rewrite !Z.div_div by lia. f_equal.
    assert (E : 2 ^ Z.pos p~0 = 2 ^ Z.pos p * 2 ^ Z.pos p).
    { rewrite <- Z.pow_add_r by lia. f_equal. lia. }
    rewrite E. lia.
  - rewrite shr_1_m by lia. reflexivity.
Qed.

Lemma iter_xO m d : Z.pos (Pos.iter xO m d) = Z.pos m * 2 ^ Z.pos d.
Proof.
  induction d as [|d IH] using Pos.peano_ind.
  - simpl. lia.
  - rewrite Pos.iter_succ, Pos2Z.inj_xO, IH, Pos2Z.inj_succ.
    rewrite Z.pow_succ_r by lia. lia.
Qed.

Lemma digits2_pos_iter_xO m d :
  Z.pos (digits2_pos (Pos.iter xO m d)) = Z.pos (digits2_pos m) + Z.pos d.
Proof.
  induction d as [|d IH] using Pos.peano_ind.
  - simpl. lia.
  - rewrite Pos.iter_succ. simpl digits2_pos. rewrite Pos2Z.inj_succ, IH. lia.
Qed.

(** digits of a positive number from its bounds *)
Lemma digits2_pos_le p n : 0 <= n -> Z.pos p < 2 ^ n -> Z.pos (digits2_pos p) <= n.
Proof.
  intros Hn Hlt. pose proof (digits2_pos_bounds p) as [Hlo _].
  destruct (Z_le_gt_dec (Z.pos (digits2_pos p)) n) as [|Hgt]; [assumption|].
  assert (2 ^ n <= 2 ^ (Z.pos (digits2_pos p) - 1)) by (apply Z.pow_le_mono_r; lia).
  lia.
Qed.

Lemma digits2_pos_ge p n : 2 ^ (n - 1) <= Z.pos p -> n <= Z.pos (digits2_pos p).
Proof.
  intros Hle. pose proof (digits2_pos_bounds p) as [_ Hhi].
  destruct (Z_le_gt_dec n (Z.pos (digits2_pos p))) as [|Hgt]; [assumption|].
  assert (2 ^ Z.pos (digits2_pos p) <= 2 ^ (n - 1)) by (apply Z.pow_le_mono_r; lia).
  lia.
Qed.

Lemma round_nearest_even_bounds q l :
  q <= round_nearest_even q l <= q + 1.
Proof.
  destruct l as [|[| |]]; simpl; try lia. destruct (Z.even q); lia.
Qed.

(** The first shift of [binary_round_aux]: down to the exponent of the
    format, the mantissa is divided. *)
Lemma shr_fexp_first m e :
  let ec := fexp prec emax (Z.pos (digits2_pos m) + e) in
  e <= ec ->
  exists mrs, shr_fexp prec emax (Z.pos m) e loc_Exact = (mrs, ec)
              /\ shr_m mrs = Z.pos m / 2 ^ (ec - e).
Proof.
  intros ec Hle. unfold shr_fexp. simpl Zdigits2. fold ec.
  unfold shr. destruct (ec - e) as [|p|p] eqn:Hn; try lia.
  - eexists. split.
    + f_equal. lia.
    + simpl. rewrite Z.div_1_r. reflexivity.
  - eexists. split.
    + f_equal. lia.
    + rewrite iter_pos_shr_m by (simpl; lia). reflexivity.
Qed.

(** The second shift: a carry out of the rounding is absorbed. *)
Lemma shr_fexp_second (s : bool) q1 ec :
  0 <= q1 <= 2 ^ 53 -> -1074 <= ec ->
  (let '(mrs, e2) := shr_fexp prec emax q1 ec loc_Exact in
   match shr_m mrs with
   | Z0 => S754_zero s
   | Zpos m =>
       if Z.leb e2 (Z.sub emax prec) then S754_finite s m e2
       else S754_infinity s
   | _ => S754_nan
   end)
  = if q1 =? 0 then S754_zero s
    else if q1 <? 2 ^ 53 then
      if ec <=? 971 then S754_finite s (Z.to_pos q1) ec else S754_infinity s
    else
      if ec + 1 <=? 971 then S754_finite s (Z.to_pos (2 ^ 52)) (ec + 1)
      else S754_infinity s.
Proof.
  intros Hq Hec. unfold shr_fexp.
  destruct (Z.eqb_spec q1 0) as [->|Hne].
  { simpl Zdigits2. rewrite fexp_eq. unfold shr.
    destruct (Z.max (0 + ec - 53) (-1074) - ec) eqn:Hn; try lia; reflexivity. }
  destruct q1 as [|p|p]; try lia. simpl Zdigits2.
  destruct (Z.ltb_spec (Z.pos p) (2 ^ 53)) as [Hlt|Hge].
  - assert (Hd : Z.pos (digits2_pos p) <= 53) by (apply digits2_pos_le; lia).
    rewrite fexp_eq. unfold shr.
    destruct (Z.max (Z.pos (digits2_pos p) + ec - 53) (-1074) - ec) eqn:Hn;
      try lia; reflexivity.
  - assert (Hp : Z.pos p = 2 ^ 53) by lia.
    assert (Hp' : p = Z.to_pos (2 ^ 53)) by (rewrite <- Hp; reflexivity).
    subst p. rewrite fexp_eq.
    replace (Z.max (Z.pos (digits2_pos (Z.to_pos (2 ^ 53))) + ec - 53) (-1074) - ec)
      with 1.
    + reflexivity.
    + change (Z.pos (digits2_pos (Z.to_pos (2 ^ 53)))) with 54. lia.
Qed.

Lemma quotient_bounds mz ez :
  let ec := fexp prec emax (Z.pos (digits2_pos mz) + ez) in
  ez <= ec ->
  let q := Z.pos mz / 2 ^ (ec - ez) in
  0 <= q < 2 ^ 53 /\ (-1074 < ec -> 2 ^ 52 <= q).
Proof.
  intros ec Hle q. subst q.
  pose proof (digits2_pos_bounds mz) as [Hlo Hhi].
  assert (Hec : ec = Z.max (Z.pos (digits2_pos mz) + ez - 53) (-1074))
    by (subst ec; apply fexp_eq).
  set (d := Z.pos (digits2_pos mz)) in *.
  assert (Hn : 0 < 2 ^ (ec - ez)) by (apply pow2_pos; lia).
  split; [split|].
  - apply Z.div_pos; lia.
  - apply Z.div_lt_upper_bound; [lia|].
    rewrite <- Z.pow_add_r by lia.
    assert (2 ^ d <= 2 ^ (ec - ez + 53)) by (apply Z.pow_le_mono_r; lia). lia.
  - intros Hnorm. apply Z.div_le_lower_bound; [lia|].
    rewrite <- Z.pow_add_r by lia.
    replace (ec - ez + 52) with (d - 1) by lia. exact Hlo.
Qed.

Lemma binary_round_aux_spec s mz ez :
  let ec := fexp prec emax (Z.pos (digits2_pos mz) + ez) in
  -1074 <= ez -> ez <= ec ->
  let q := Z.pos mz / 2 ^ (ec - ez) in
  exists q1, q <= q1 <= q + 1 /\
    binary_round_aux prec emax s (Z.pos mz) ez loc_Exact = Number.rounded s q1 ec.
Proof.
  intros ec Hez Hle q.
  destruct (quotient_bounds mz ez Hle) as [Hq Hnorm]. fold ec q in Hq, Hnorm.
  destruct (shr_fexp_first mz ez Hle) as (mrs & Hshr & Hm). fold ec in Hshr, Hm.
  fold q in Hm.
  unfold binary_round_aux. rewrite Hshr.
  pose proof (round_nearest_even_bounds (shr_m mrs) (loc_of_shr_record mrs)) as Hb.
  set (q1 := round_nearest_even (shr_m mrs) (loc_of_shr_record mrs)) in *.
  rewrite Hm in Hb. exists q1. split; [exact Hb|].
  apply shr_fexp_second; lia.
Qed.

Lemma shl_align_spec m e :
  -1074 <= e ->
  let ec := fexp prec emax (Z.pos (digits2_pos m) + e) in
  forall mz ez, shl_align m e ec = (mz, ez) ->
  -1074 <= ez /\ ez <= ec
  /\ fexp prec emax (Z.pos (digits2_pos mz) + ez) = ec
  /\ Z.pos m * 2 ^ (e + 1074) = Z.pos mz * 2 ^ (ez + 1074).
Proof.
  intros He ec.
  assert (Hec : -1074 <= ec) by (subst ec; rewrite fexp_eq; lia).
  unfold shl_align. intros mz ez.
  destruct (ec - e) as [|p|p] eqn:Hn; intros [= <- <-].
  - split; [lia|]. split; [lia|]. split; reflexivity.
  - split; [lia|]. split; [lia|]. split; reflexivity.
  - split; [lia|]. split; [lia|]. split.
    + rewrite digits2_pos_iter_xO. subst ec. f_equal. lia.
    + rewrite iter_xO. rewrite <- Z.mul_assoc, <- Z.pow_add_r by lia.
      f_equal. f_equal. lia.
Qed.

Lemma binary_round_spec s m e : -1074 <= e ->
  let ec := fexp prec emax (Z.pos (digits2_pos m) + e) in
  let q := (Z.pos m * 2 ^ (e + 1074)) / 2 ^ (ec + 1074) in
  0 <= q < 2 ^ 53 /\ (-1074 < ec -> 2 ^ 52 <= q) /\
  exists q1, q <= q1 <= q + 1 /\
    binary_round prec emax s m e = Number.rounded s q1 ec.
Proof.
  intros He ec q.
  unfold binary_round. fold ec.
  destruct (shl_align m e ec) as [mz ez] eqn:Hal.
  apply (shl_align_spec m e He) in Hal. fold ec in Hal.
  destruct Hal as (Hez & Hle & Hfexp & Hval).
  rewrite <- Hfexp in Hle.
  pose proof (quotient_bounds mz ez Hle) as Hqb.
  destruct (binary_round_aux_spec s mz ez Hez Hle) as (q1 & Hq1 & Heq).
  rewrite Hfexp in Hqb, Hq1, Heq, Hle.
  assert (Hq : q = Z.pos mz / 2 ^ (ec - ez)).
  { subst q. rewrite Hval.
    replace (ec + 1074) with ((ec - ez) + (ez + 1074)) by lia.
    rewrite (Z.pow_add_r 2 (ec - ez) (ez + 1074)) by lia.
    rewrite Z.div_mul_cancel_r; [reflexivity| |];
      apply Z.neq_sym, Z.lt_neq, pow2_pos; lia. }
  rewrite Hq. split; [apply Hqb|]. split; [apply Hqb|].
  exists q1. split; [exact Hq1|exact Heq].
Qed.

(** A finite number of the format: its exponent is the one the format gives
    its mantissa. *)
Lemma bounded_spec mx ex :
  bounded prec emax mx ex = true ->
  -1074 <= ex <= 971
  /\ Z.pos mx < 2 ^ 53
  /\ (-1074 < ex -> 2 ^ 52 <= Z.pos mx).
Proof.
  unfold bounded, canonical_mantissa. intros H.
  apply andb_true_iff in H as [Hc He].
  apply Z.eqb_eq in Hc. apply Z.leb_le in He. rewrite fexp_eq in Hc.
  change (emax - prec) with 971 in He.
  pose proof (digits2_pos_bounds mx) as [Hlo Hhi].
  set (d := Z.pos (digits2_pos mx)) in *.
  split; [lia|]. split.
  - assert (2 ^ d <= 2 ^ 53) by (apply Z.pow_le_mono_r; lia). lia.
  - intros Hn. assert (d = 53) by lia.
    replace 52 with (d - 1) by lia. exact Hlo.
Qed.

Lemma SFleb_finite_pos mx ex m2 e2 :
  SFleb (S754_finite false mx ex) (S754_finite false m2 e2) = true <->
  ex < e2 \/ (ex = e2 /\ (mx <= m2)%positive).
Proof.
  unfold SFleb, SFcompare.
  destruct (Z.compare_spec ex e2) as [->|Hlt|Hgt].
  - change (Pos.compare_cont Eq mx m2) with (Pos.compare mx m2).
    destruct (Pos.compare_spec mx m2) as [->|H|H]; split; intros; try lia;
      try reflexivity; try discriminate.
  - split; [lia|reflexivity].
  - split; [discriminate|lia].
Qed.

Lemma SFleb_finite_neg mx ex m2 e2 :
  SFleb (S754_finite true mx ex) (S754_finite true m2 e2) = true <->
  e2 < ex \/ (ex = e2 /\ (m2 <= mx)%positive).
Proof.
  unfold SFleb, SFcompare.
  destruct (Z.compare_spec ex e2) as [->|Hlt|Hgt].
  - change (Pos.compare_cont Eq mx m2) with (Pos.compare mx m2).
    destruct (Pos.compare_spec mx m2) as [->|H|H]; simpl; split; intros;
      try lia; try reflexivity; try discriminate.
  - split; [discriminate|lia].
  - split; [lia|reflexivity].
Qed.

(** Rounding is monotone against the numbers of the format: upwards ... *)
Lemma le_binary_round mx ex m e :
  bounded prec emax mx ex = true -> -1074 <= e ->
  Z.pos mx * 2 ^ (ex + 1074) <= Z.pos m * 2 ^ (e + 1074) ->
  SFleb (S754_finite false mx ex) (binary_round prec emax false m e) = true.
Proof.
  intros Hb He Hv.
  destruct (bounded_spec mx ex Hb) as (Hex & Hmx & Hnx).
  destruct (binary_round_spec false m e He) as (Hq & Hnorm & q1 & Hq1 & ->).
  set (ec := fexp prec emax (Z.pos (digits2_pos m) + e)) in *.
  set (V := Z.pos m * 2 ^ (e + 1074)) in *.
  assert (Hec : ec = Z.max (Z.pos (digits2_pos m) + e - 53) (-1074))
    by (subst ec; apply fexp_eq).
  pose proof (digits2_pos_bounds m) as [Hlo Hhi].
  set (d := Z.pos (digits2_pos m)) in *.
  assert (HV : V < 2 ^ (ec + 53 + 1074)).
  { subst V. assert (2 ^ d * 2 ^ (e + 1074) <= 2 ^ (ec + 53 + 1074)).
    { rewrite <- Z.pow_add_r by lia. apply Z.pow_le_mono_r; lia. }
    assert (0 < 2 ^ (e + 1074)) by (apply pow2_pos; lia). nia. }
  assert (Hle : ex <= ec).
  { destruct (Z_le_gt_dec ex ec) as [|Hgt]; [assumption|exfalso].
    assert (H52 : 2 ^ 52 <= Z.pos mx) by (apply Hnx; lia).
    assert (2 ^ (ec + 53 + 1074) <= 2 ^ 52 * 2 ^ (ex + 1074)).
    { rewrite <- Z.pow_add_r by lia. apply Z.pow_le_mono_r; lia. }
    assert (0 < 2 ^ (ex + 1074)) by (apply pow2_pos; lia). nia. }
  assert (H1 : ex < ec -> 2 ^ 52 <= q1) by (intros; specialize (Hnorm ltac:(lia)); lia).
  assert (H2 : ex = ec -> Z.pos mx <= q1).
  { intros <-. assert (Z.pos mx <= V / 2 ^ (ex + 1074)); [|lia].
    apply Z.div_le_lower_bound; [apply pow2_pos; lia|lia]. }
  assert (Hq1pos : 0 < q1) by (destruct (Z.eq_dec ex ec); [specialize (H2 e0)|specialize (H1 ltac:(lia))]; lia).
  unfold Number.rounded.
  destruct (Z.eqb_spec q1 0) as [|_]; [lia|].
  destruct (Z.ltb_spec q1 (2 ^ 53)) as [Hlt|Hge].
  - destruct (Z.leb_spec ec 971); [|reflexivity].
    apply SFleb_finite_pos.
    destruct (Z.eq_dec ex ec) as [Heq|Hne]; [right|left; lia].
    split; [assumption|]. specialize (H2 Heq).
    lia.
  - destruct (Z.leb_spec (ec + 1) 971); [|reflexivity].
    apply SFleb_finite_pos. left. lia.
Qed.

(** ... and downwards, here on the negative side. *)
Lemma binary_round_le_neg mx ex m e :
  bounded prec emax mx ex = true -> -1074 <= e ->
  Z.pos m * 2 ^ (e + 1074) < Z.pos mx * 2 ^ (ex + 1074) ->
  SFleb (S754_finite true mx ex) (binary_round prec emax true m e) = true.
Proof.
  intros Hb He Hv.
  destruct (bounded_spec mx ex Hb) as (Hex & Hmx & Hnx).
  destruct (binary_round_spec true m e He) as (Hq & Hnorm & q1 & Hq1 & ->).
  set (ec := fexp prec emax (Z.pos (digits2_pos m) + e)) in *.
  set (V := Z.pos m * 2 ^ (e + 1074)) in *.
  assert (Hec : ec = Z.max (Z.pos (digits2_pos m) + e - 53) (-1074))
    by (subst ec; apply fexp_eq).
  pose proof (digits2_pos_bounds m) as [Hlo Hhi].
  set (d := Z.pos (digits2_pos m)) in *.
  assert (Hle : ec <= ex).
  { destruct (Z_le_gt_dec ec ex) as [|Hgt]; [assumption|exfalso].
    assert (Hd : ec = d + e - 53) by lia.
    assert (HV : 2 ^ (ec + 52 + 1074) <= V).
    { subst V. replace (ec + 52 + 1074) with ((d - 1) + (e + 1074)) by lia.
      rewrite Z.pow_add_r by lia.
      assert (0 < 2 ^ (e + 1074)) by (apply pow2_pos; lia). nia. }
    assert (2 ^ 53 * 2 ^ (ex + 1074) <= 2 ^ (ec + 52 + 1074)).
    { rewrite <- Z.pow_add_r by lia. apply Z.pow_le_mono_r; lia. }
    assert (0 < 2 ^ (ex + 1074)) by (apply pow2_pos; lia). nia. }
  assert (H2 : ex = ec -> q1 <= Z.pos mx).
  { intros <-. assert (V / 2 ^ (ex + 1074) < Z.pos mx); [|lia].
    apply Z.div_lt_upper_bound; [apply pow2_pos; lia|lia]. }
  unfold Number.rounded.
  destruct (Z.eqb_spec q1 0) as [|Hne0]; [reflexivity|].
  destruct (Z.ltb_spec q1 (2 ^ 53)) as [Hlt|Hge].
  - destruct (Z.leb_spec ec 971); [|lia].
    apply SFleb_finite_neg.
    destruct (Z.eq_dec ex ec) as [Heq|Hne]; [right|left; lia].
    split; [assumption|]. specialize (H2 Heq).
    lia.
  - assert (ec < ex) by (destruct (Z.eq_dec ex ec) as [Heq|]; [specialize (H2 Heq)|]; lia).
    destruct (Z.leb_spec (ec + 1) 971); [|lia].
    apply SFleb_finite_neg.
    destruct (Z.eq_dec ex (ec + 1)) as [Heq|Hne]; [right|left; lia].
    split; [assumption|]. specialize (Hnx ltac:(lia)).
    change (Z.to_pos (2 ^ 52)) with 4503599627370496%positive.
    change (2 ^ 52) with 4503599627370496 in Hnx. lia.
Qed.

Lemma rounded_cases s q1 ec :
  Number.rounded s q1 ec = S754_zero s
  \/ Number.rounded s q1 ec = S754_infinity s
  \/ exists m e, Number.rounded s q1 ec = S754_finite s m e.
Proof.
  unfold Number.rounded. destruct (q1 =? 0); [now left|].
  destruct (q1 <? 2 ^ 53); [destruct (ec <=? 971)|destruct (ec + 1 <=? 971)];
    eauto.
Qed.

(** The mantissa aligned on a smaller exponent denotes the same number. *)
Lemma shl_align_fst m e ez :
  -1074 <= ez <= e ->
  Z.pos (fst (shl_align m e ez)) * 2 ^ (ez + 1074) = Z.pos m * 2 ^ (e + 1074).
Proof.
  intros H. unfold shl_align. destruct (ez - e) as [|p|p] eqn:Hn; cbn [fst].
  - replace ez with e by lia. reflexivity.
  - lia.
  - rewrite iter_xO, <- Z.mul_assoc, <- Z.pow_add_r by lia. f_equal. f_equal. lia.
Qed.

Lemma SFleb_refl x : x <> S754_nan -> SFleb x x = true.
Proof.
  destruct x as [s|s| |s m e]; intros H; try reflexivity.
  - now destruct s.
  - congruence.
  - unfold SFleb, SFcompare. rewrite Z.compare_refl.
    change (Pos.compare_cont Eq m m) with (Pos.compare m m).
    rewrite Pos.compare_refl. now destruct s.
Qed.

(** Adding a number that is not negative to a finite number does not make
    it smaller (sum: the sum as IEEE 754 rounds it). *)
Lemma SFadd_nonneg_le x y :
  valid_binary x = true -> valid_binary y = true ->
  (exists s, x = S754_zero s) \/ (exists s m e, x = S754_finite s m e) ->
  SFleb (S754_zero false) y = true ->
  SFleb x (SF64add x y) = true.
Proof.
  intros Vx Vy Hx Hy.
  destruct y as [sy|sy| |sy my ey]; try discriminate.
  - (* y is a zero *)
    destruct Hx as [[s ->]|(s & m & e & ->)].
    + simpl. destruct s, sy; reflexivity.
    + simpl. apply SFleb_refl. discriminate.
  - (* y is +infinity *)
    destruct sy; [discriminate|].
    destruct Hx as [[s ->]|(s & m & e & ->)]; [reflexivity|].
    now destruct s.
  - (* y is a positive finite number *)
    destruct sy; [discriminate|].
    destruct Hx as [[s ->]|(sx & mx & ex & ->)]; [reflexivity|].
    simpl in Vx, Vy.
    destruct (bounded_spec mx ex Vx) as (Hex & _).
    destruct (bounded_spec my ey Vy) as (Hey & _).
    unfold SF64add, SFadd.
    set (ez := Z.min ex ey).
    pose proof (shl_align_fst mx ex ez ltac:(lia)) as Hax.
    pose proof (shl_align_fst my ey ez ltac:(lia)) as Hay.
    set (ax := fst (shl_align mx ex ez)) in *.
    set (ay := fst (shl_align my ey ez)) in *.
    assert (Hp : 0 < 2 ^ (ez + 1074)) by (apply pow2_pos; lia).
    destruct sx.
    + (* x is negative *)
      set (sum := cond_Zopp true (Z.pos ax) + cond_Zopp false (Z.pos ay)).
      assert (Hsum : sum = Z.pos ay - Z.pos ax) by (subst sum; simpl; lia).
      clearbody sum.
      destruct sum as [|p|p]; simpl binary_normalize.
      * reflexivity.
      * destruct (binary_round_spec false p ez ltac:(lia)) as (_ & _ & q1 & _ & ->).
        destruct (rounded_cases false q1
                    (fexp prec emax (Z.pos (digits2_pos p) + ez)))
          as [->|[->|(m & e & ->)]]; reflexivity.
      * apply binary_round_le_neg; [exact Vx|lia|]. nia.
    + (* x is positive *)
      change (cond_Zopp false (Z.pos ax) + cond_Zopp false (Z.pos ay))
        with (Z.pos (ax + ay)).
      simpl binary_normalize.
      apply le_binary_round; [exact Vx|lia|].
      rewrite Pos2Z.inj_add. nia.
Qed.

(** ** On the primitive floats *)

Lemma Prim2SF_zero : Prim2SF zero = S754_zero false.
Proof. reflexivity. Qed.

Lemma is_finite_SF x :
  is_finite x = true ->
  (exists s, Prim2SF x = S754_zero s)
  \/ (exists s m e, Prim2SF x = S754_finite s m e).
Proof.
  unfold is_finite, is_nan, is_infinity.
  rewrite !FloatAxioms.eqb_spec, FloatAxioms.abs_spec.
  change (Prim2SF infinity) with (S754_infinity false).
  destruct (Prim2SF x) as [s|s| |s m e]; eauto.
  - destruct s; discriminate.
  - discriminate.
Qed.

Lemma SF_is_finite x :
  (exists s, Prim2SF x = S754_zero s)
  \/ (exists s m e, Prim2SF x = S754_finite s m e) ->
  is_finite x = true.
Proof.
  unfold is_finite, is_nan, is_infinity.
  rewrite !FloatAxioms.eqb_spec, FloatAxioms.abs_spec.
  change (Prim2SF infinity) with (S754_infinity false).
  intros [[s ->]|(s & m & e & ->)]; simpl.
  - reflexivity.
  - unfold SFeqb, SFcompare. rewrite Z.compare_refl.
    change (Pos.compare_cont Eq m m) with (Pos.compare m m).
    rewrite Pos.compare_refl. now destruct s.
Qed.

(** [x <= x + y] when [x] is finite and [0 <= y]. *)
Theorem add_nonneg_le (x y : float) :
  is_finite x = true -> (zero <=? y)%float = true ->
  (x <=? x + y)%float = true.
Proof.
  intros Hx Hy. rewrite FloatAxioms.leb_spec in *. rewrite FloatAxioms.add_spec.
  apply SFadd_nonneg_le; try apply Prim2SF_valid.
  - now apply is_finite_SF.
  - exact Hy.
Qed.

Lemma SFcompare_antisym x y :
  SFcompare y x = option_map CompOpp (SFcompare x y).
Proof.
  destruct x as [sx|sx| |sx mx ex], y as [sy|sy| |sy my ey]; simpl;
    try reflexivity;
    try (destruct sx; reflexivity); try (destruct sy; reflexivity);
    try (destruct sx, sy; reflexivity).
  rewrite (Z.compare_antisym ex ey).
  change (Pos.compare_cont Eq my mx) with (Pos.compare my mx).
  change (Pos.compare_cont Eq mx my) with (Pos.compare mx my).
  rewrite (Pos.compare_antisym mx my).
  destruct sx, sy; try reflexivity;
    destruct (ex ?= ey); simpl; try reflexivity;
    destruct (mx ?= my)%positive; reflexivity.
Qed.

Lemma SFcompare_Some x y :
  x <> S754_nan -> y <> S754_nan -> exists c, SFcompare x y = Some c.
Proof.
  destruct x as [sx|sx| |sx mx ex], y as [sy|sy| |sy my ey]; simpl;
    intros Hx Hy; try congruence; eauto.
Qed.

Lemma is_nan_SF x : is_nan x = false -> Prim2SF x <> S754_nan.
Proof.
  unfold is_nan. rewrite FloatAxioms.eqb_spec. intros H E. rewrite E in H. discriminate.
Qed.

(** [!(x > y)] is [x <= y] unless one of them is [NaN]. *)
Theorem not_gt_le (x y : float) :
  is_nan x = false -> is_nan y = false ->
  (y <? x)%float = false -> (x <=? y)%float = true.
Proof.
  intros Hx Hy. apply is_nan_SF in Hx, Hy.
  rewrite FloatAxioms.ltb_spec, FloatAxioms.leb_spec. unfold SFltb, SFleb.
  rewrite (SFcompare_antisym (Prim2SF x) (Prim2SF y)).
  destruct (SFcompare_Some _ _ Hx Hy) as [c ->]. now destruct c.
Qed.

Lemma SFcompare_refl x : x <> S754_nan -> SFcompare x x = Some Eq.
Proof.
  destruct x as [s|s| |s m e]; intros H; try reflexivity.
  - now destruct s.
  - congruence.
  - simpl. rewrite Z.compare_refl.
    change (Pos.compare_cont Eq m m) with (Pos.compare m m).
    rewrite Pos.compare_refl. now destruct s.
Qed.

Lemma SF_is_nan x : Prim2SF x <> S754_nan -> is_nan x = false.
Proof.
  intros H. unfold is_nan. rewrite FloatAxioms.eqb_spec. unfold SFeqb.
  now rewrite SFcompare_refl.
Qed.

(** A number compared with success is not [NaN]. *)
Lemma leb_not_nan (x y : float) :
  (x <=? y)%float = true -> is_nan x = false /\ is_nan y = false.
Proof.
  rewrite FloatAxioms.leb_spec. intros H. split; apply SF_is_nan; intros E;
    rewrite E in H; [discriminate|]. now destruct (Prim2SF x).
Qed.

Lemma is_finite_not_nan (x : float) : is_finite x = true -> is_nan x = false.
Proof.
  unfold is_finite. destruct (is_nan x); [discriminate|reflexivity].
Qed.

(** A sum that is finite has finite terms. *)
Lemma add_finite (x y : float) :
  is_finite (x + y) = true -> is_finite x = true /\ is_finite y = true.
Proof.
  intros H. apply is_finite_SF in H. rewrite FloatAxioms.add_spec in H.
  split; apply SF_is_finite.
  - destruct (Prim2SF x) as [sx|sx| |sx mx ex]; eauto;
      destruct (Prim2SF y) as [sy|sy| |sy my ey]; simpl in H;
      try (destruct H as [[? H]|(? & ? & ? & H)]; discriminate);
      destruct sx, sy; destruct H as [[? H]|(? & ? & ? & H)]; discriminate.
  - destruct (Prim2SF y) as [sy|sy| |sy my ey]; eauto;
      destruct (Prim2SF x) as [sx|sx| |sx mx ex]; simpl in H;
      try (destruct H as [[? H]|(? & ? & ? & H)]; discriminate);
      destruct sx, sy; destruct H as [[? H]|(? & ? & ? & H)]; discriminate.
Qed.

(** A sum of a finite number and a number that is not negative, when it
    is not finite, is [+Infinity]: a limit that it does not exceed is not
    negative. *)
Lemma add_nonneg_overflow (x y l : float) :
  is_finite x = true -> (zero <=? y)%float = true ->
  is_finite (x + y) = false ->
  is_nan l = false -> (l <? x + y)%float = false ->
  (zero <=? l)%float = true.
Proof.
  intros Hx Hy Hinf Hl Hgt.
  pose proof (add_nonneg_le x y Hx Hy) as Hle.
  apply is_finite_SF in Hx. apply is_nan_SF in Hl.
  rewrite FloatAxioms.leb_spec in *. rewrite FloatAxioms.ltb_spec in Hgt.
  change (Prim2SF zero) with (S754_zero false).
  assert (Hs : Prim2SF (x + y) = S754_infinity false).
  { destruct (Prim2SF (x + y)) as [s|s| |s m e] eqn:E.
    - rewrite SF_is_finite in Hinf; [discriminate|]. left. eauto.
    - destruct s; [|reflexivity].
      destruct Hx as [[s0 Hx]|(sx & mx & ex & Hx)]; rewrite Hx in Hle;
        [discriminate|]. now destruct sx.
    - now destruct (Prim2SF x).
    - rewrite SF_is_finite in Hinf; [discriminate|]. right. eauto. }
  rewrite Hs in Hgt.
  destruct (Prim2SF l) as [s|s| |s m e]; try discriminate; try congruence;
    destruct s; try discriminate; reflexivity.
Qed.

(** Between a finite number and a finite number there are only finite
    numbers. *)
Lemma le_finite (x s l : float) :
  is_finite x = true -> (x <=? s)%float = true -> (s <=? l)%float = true ->
  is_finite l = true -> is_finite s = true.
Proof.
  intros Hx Hxs Hsl Hl. apply is_finite_SF in Hx, Hl.
  rewrite FloatAxioms.leb_spec in Hxs, Hsl. apply SF_is_finite.
  destruct (Prim2SF s) as [b|b| |b m e]; eauto.
  - destruct b.
    + destruct Hx as [[s0 Hx]|(sx & mx & ex & Hx)]; rewrite Hx in Hxs;
        [discriminate|]. now destruct sx.
    + destruct Hl as [[s0 Hl]|(sl & ml & el & Hl)]; rewrite Hl in Hsl;
        discriminate.
  - now destruct (Prim2SF x).
Qed.

(** ** Numbers through JSON *)

Lemma is_zero_SF x : is_zero x = true -> exists s, Prim2SF x = S754_zero s.
Proof.
  unfold is_zero. rewrite FloatAxioms.eqb_spec.
  change (Prim2SF zero) with (S754_zero false).
  destruct (Prim2SF x) as [s|s| |s m e]; try discriminate; eauto;
    destruct s; discriminate.
Qed.

(** What JSON keeps of a number is the number, but for the sign of zero,
    which no comparison sees. *)
Lemma JSON_number_Some (x z : float) :
  Number.JSON_number x = Some z ->
  is_finite x = true /\ is_finite z = true
  /\ forall l, (z <=? l)%float = (x <=? l)%float
               /\ (l <=? z)%float = (l <=? x)%float
               /\ (l <? z)%float = (l <? x)%float.
Proof.
  unfold Number.JSON_number.
  destruct (is_finite x) eqn:Hf; [|discriminate].
  destruct (is_zero x) eqn:Hz; intros [= <-].
  - split; [reflexivity|]. split; [reflexivity|]. intros l.
    apply is_zero_SF in Hz as [s Hz].
    rewrite !FloatAxioms.leb_spec, !FloatAxioms.ltb_spec, Hz.
    change (Prim2SF zero) with (S754_zero false).
    destruct (Prim2SF l) as [sl|sl| |sl ml el]; repeat split; reflexivity.
  - split; [reflexivity|]. split; [exact Hf|]. intros l. repeat split.
Qed.

Lemma JSON_number_None (x : float) :
  Number.JSON_number x = None -> is_finite x = false.
Proof.
  unfold Number.JSON_number. now destruct (is_finite x).
Qed.

Lemma JSON_number_idem (x z : float) :
  Number.JSON_number x = Some z -> Number.JSON_number z = Some z.
Proof.
  unfold Number.JSON_number.
  destruct (is_finite x) eqn:Hf; [|discriminate].
  destruct (is_zero x) eqn:Hz; intros [= <-]; [reflexivity|].
  now rewrite Hf, Hz.
Qed.

End NumberFacts.

(** ** The agent registry and the spending ledger *)

Module RegistryFacts.
Import Agent Orchestrator.

(** Replacing the first record of an id by a record of the same id. *)
Lemma list_find_id_insert (all : list AgentRecord) (i : nat)
    (r r' : AgentRecord) (id0 : string) :
  list_find (λ a, Agent.id a = id0) all = Some (i, r) →
  Agent.id r' = id0 →
  list_find (λ a, Agent.id a = id0) (<[i := r']> all) = Some (i, r').
Proof.
  intros Hf Hid. apply list_find_Some in Hf as (Hi & Hr & Hbefore).
  apply list_find_Some. split; [|split; [done|]].
  - apply list_lookup_insert_eq. by eapply lookup_lt_Some.
  - intros j y Hj Hlt. rewrite list_lookup_insert_ne in Hj by lia.
    by eapply Hbefore.
Qed.

Lemma list_find_id_insert_ne (all : list AgentRecord) (i : nat)
    (r r' : AgentRecord) (id0 id1 : string) :
  list_find (λ a, Agent.id a = id0) all = Some (i, r) →
  Agent.id r' = id0 → id1 ≠ id0 →
  snd <$> list_find (λ a, Agent.id a = id1) (<[i := r']> all)
  = snd <$> list_find (λ a, Agent.id a = id1) all.
Proof.
  intros Hf Hid Hne. apply list_find_Some in Hf as (Hi & Hr & Hbefore).
  destruct (list_find (λ a, Agent.id a = id1) all) as [[j y]|] eqn:E; simpl.
  - apply list_find_Some in E as (Hj & Hy & Hb).
    assert (j ≠ i) by (intros ->; congruence).
    assert (list_find (λ a, Agent.id a = id1) (<[i := r']> all) = Some (j, y))
      as ->; [|done].
    apply list_find_Some. split; [by rewrite list_lookup_insert_ne|].
    split; [done|]. intros k z Hk Hlt.
    destruct (decide (k = i)) as [->|Hki].
    + rewrite list_lookup_insert_eq in Hk by (by eapply lookup_lt_Some).
      injection Hk as <-. congruence.
    + rewrite list_lookup_insert_ne in Hk by done. by eapply Hb.
  - assert (list_find (λ a, Agent.id a = id1) (<[i := r']> all) = None)
      as ->; [|done].
    apply list_find_None. apply list_find_None in E.
    rewrite Forall_forall in *. intros z Hz.
    apply list_elem_of_lookup in Hz as [k Hk].
    destruct (decide (k = i)) as [->|Hki].
    + rewrite list_lookup_insert_eq in Hk by (by eapply lookup_lt_Some).
      injection Hk as <-. congruence.
    + rewrite list_lookup_insert_ne in Hk by done.
      apply E. by eapply list_elem_of_lookup_2.
Qed.

(** JSON written twice is JSON written once. *)
Lemma JSON_record_idem (r : AgentRecord) :
  JSON_record (JSON_record r) = JSON_record r.
Proof.
  unfold JSON_record. simpl. f_equal.
  - destruct (solSpent r) as [x|]; simpl; [|done].
    destruct (Number.JSON_number x) as [z|] eqn:E; simpl; [|done].
    by apply NumberFacts.JSON_number_idem in E.
  - destruct (spendingLimit r) as [x|]; simpl; [|done].
    destruct (Number.JSON_number x) as [z|] eqn:E; simpl; [|done].
    by apply NumberFacts.JSON_number_idem in E.
Qed.

Section Store.
Context {P : NodePrimitives}.

(** What is read from the store has been through JSON. *)
Lemma readAgents_JSON (w : World) (all : list AgentRecord) :
  readAgents w = AgentsFile all → JSON_record <$> all = all.
Proof.
  unfold readAgents.
  destruct (files w !! storeFile w) as [[stored|records]|]; [done| |].
  - intros [= <-]. rewrite <- list_fmap_compose.
    apply list_fmap_ext. intros i x _. apply JSON_record_idem.
  - by intros [= <-].
Qed.

Lemma getAgent_Some (w : World) (id0 : string) (r : AgentRecord) :
  getAgent w id0 = Returns (Some r) →
  ∃ all i, readAgents w = AgentsFile all
           ∧ list_find (λ a, Agent.id a = id0) all = Some (i, r)
           ∧ Agent.id r = id0
           ∧ JSON_record r = r.
Proof.
  unfold getAgent. destruct (readAgents w) as [stored|all] eqn:Hread; [done|].
  simpl. intros H.
  destruct (list_find _ all) as [[i x]|] eqn:E; simplify_eq/=.
  exists all, i. split; [done|]. split; [done|].
  apply list_find_Some in E as (Hi & Hid & _). split; [done|].
  apply readAgents_JSON in Hread.
  apply (f_equal (λ l, l !! i)) in Hread.
  rewrite list_lookup_fmap, Hi in Hread. by injection Hread.
Qed.

(** The numbers of a record read from the store are finite. *)
Lemma getAgent_finite (D : float) (w : World) (id0 : string) (r : AgentRecord) :
  getAgent w id0 = Returns (Some r) → is_finite (spent_of r) = true.
Proof.
  intros Hg. apply getAgent_Some in Hg as (_ & _ & _ & _ & _ & Hj).
  apply (f_equal solSpent) in Hj. unfold spent_of. simpl in Hj.
  destruct (solSpent r) as [x|]; simpl in *; [|reflexivity].
  by apply NumberFacts.JSON_number_Some in Hj as (_ & ? & _).
Qed.

Lemma readAgents_writeAgents (w : World) (records : list AgentRecord) :
  readAgents (writeAgents records w) = AgentsFile (JSON_record <$> records).
Proof.
  unfold readAgents, writeAgents, storeFile. simpl.
  by rewrite lookup_insert_eq.
Qed.

Lemma other_files_writeAgents (w : World) (records : list AgentRecord) :
  other_files (writeAgents records w) = other_files w.
Proof.
  unfold other_files, writeAgents, storeFile. simpl. apply delete_insert_eq.
Qed.

(** The files that are not the store, one by one. *)
Lemma other_files_lookup (w : World) (path : string) :
  path ≠ storeFile w → other_files w !! path = files w !! path.
Proof. intros Hne. unfold other_files. by rewrite lookup_delete_ne. Qed.

Lemma updateAgent_present (w : World) (r r' : AgentRecord) :
  getAgent w (Agent.id r') = Returns (Some r) →
  ∃ w', updateAgent r' w = (w', Returns tt)
        ∧ getAgent w' (Agent.id r') = Returns (Some (JSON_record r'))
        ∧ (∀ id1, id1 ≠ Agent.id r' → getAgent w' id1 = getAgent w id1)
        ∧ length (agents w') = length (agents w)
        ∧ other_files w' = other_files w ∧ storePath w' = storePath w
        ∧ runningAgents w' = runningAgents w
        ∧ objects w' = objects w ∧ calls w' = calls w
        ∧ events w' = events w
        ∧ eventBus w' = eventBus w ∧ handler w' = handler w.
Proof.
  intros Hg. apply getAgent_Some in Hg as (all & i & Hread & Hf & Hid & _).
  pose proof (readAgents_JSON w all Hread) as Hjson.
  unfold updateAgent. rewrite Hread. simpl. rewrite Hf.
  eexists. split; [done|].
  unfold getAgent, agents. rewrite readAgents_writeAgents, Hread. simpl.
  rewrite list_fmap_insert, Hjson.
  split; [by erewrite list_find_id_insert|].
  split; [intros id1 Hne; f_equal; by eapply list_find_id_insert_ne|].
  split; [apply length_insert|].
  split; [apply other_files_writeAgents|]. done.
Qed.

End Store.

Section Spending.
Context {P : NodePrimitives} (ws : WalletService.t) (D : float).

Abbreviation trackSpending := (Orchestrator.trackSpending D).
Abbreviation trackAll := (Orchestrator.trackAll D).
Abbreviation within_limit := (Orchestrator.within_limit D).
Abbreviation limit_of := (Orchestrator.limit_of D).

(** A call whose sum exceeds the limit throws and changes nothing. *)
Lemma trackSpending_rejected (w : World) id0 sol now r :
  getAgent w id0 = Returns (Some r) →
  Number.gt (spent_of r + sol) (limit_of r) = true →
  trackSpending id0 sol now w
  = (w, Throws (SpendingLimitExceeded (spent_of r + sol) (limit_of r))).
Proof.
  intros Hg Hgt. unfold Orchestrator.trackSpending. rewrite Hg.
  unfold spent_of, Orchestrator.limit_of in Hgt. by rewrite Hgt.
Qed.

(** Any other call writes the sum and stamps the record. *)
Lemma trackSpending_accepted (w : World) id0 sol now r :
  getAgent w id0 = Returns (Some r) →
  Number.gt (spent_of r + sol) (limit_of r) = false →
  ∃ w', trackSpending id0 sol now w = (w', Returns tt)
        ∧ getAgent w' id0
          = Returns (Some (JSON_record
                             (set_lastUpdated now
                                (set_solSpent (spent_of r + sol) r))))
        ∧ (∀ id1, id1 ≠ id0 → getAgent w' id1 = getAgent w id1)
        ∧ other_files w' = other_files w
        ∧ runningAgents w' = runningAgents w.
Proof.
  intros Hg Hle. unfold Orchestrator.trackSpending. rewrite Hg.
  unfold spent_of, Orchestrator.limit_of in Hle. rewrite Hle.
  destruct (getAgent_Some _ _ _ Hg) as (_ & _ & _ & _ & Hid & _).
  set (r' := set_lastUpdated now _).
  assert (Hid' : Agent.id r' = id0) by done.
  rewrite <- Hid' in Hg.
  destruct (updateAgent_present w r r' Hg)
    as (w' & Hu & Hg' & Hother & _ & Hk & _ & Hr & _).
  exists w'. rewrite Hu, <- Hid'. done.
Qed.

(** The ledger of the record that an accepted call leaves. *)
Lemma accepted_ledger (r : AgentRecord) (s : float) (now : string) :
  JSON_record r = r →
  let r' := JSON_record (set_lastUpdated now (set_solSpent s r)) in
  solSpent r' = Number.JSON_number s ∧ limit_of r' = limit_of r.
Proof.
  intros Hj. split; [done|].
  unfold Orchestrator.limit_of. simpl.
  apply (f_equal spendingLimit) in Hj. simpl in Hj. by rewrite Hj.
Qed.

(** One call keeps an agent that is within its limit within its limit, when
    the limit or the amount is not negative. *)
Lemma trackSpending_preserves (w : World) id0 sol now r :
  getAgent w id0 = Returns (Some r) → within_limit r →
  Number.le zero (limit_of r) = true ∨ Number.le zero sol = true →
  ∃ r', getAgent (trackSpending id0 sol now w).1 id0 = Returns (Some r')
        ∧ within_limit r' ∧ limit_of r' = limit_of r.
Proof.
  intros Hg Hinv Hsign.
  destruct (Number.gt (spent_of r + sol) (limit_of r)) eqn:Hgt.
  - rewrite (trackSpending_rejected w id0 sol now r) by done. by exists r.
  - destruct (trackSpending_accepted w id0 sol now r Hg Hgt)
      as (w' & -> & Hg' & _). eexists. split; [exact Hg'|].
    pose proof (getAgent_finite D w id0 r Hg) as Hfin.
    destruct (getAgent_Some _ _ _ Hg) as (_ & _ & _ & _ & _ & Hj).
    destruct (accepted_ledger r (spent_of r + sol) now Hj) as [Hs Hl].
    split; [|exact Hl].
    unfold Orchestrator.within_limit. rewrite Hl. unfold spent_of at 1.
    rewrite Hs. unfold Orchestrator.within_limit, Number.le in Hinv.
    apply NumberFacts.leb_not_nan in Hinv as [_ Hnan].
    unfold Number.gt in Hgt. unfold Number.le.
    destruct (Number.JSON_number (spent_of r + sol)) as [z|] eqn:Hz; simpl.
    + apply NumberFacts.JSON_number_Some in Hz as (Hf & _ & Hcmp).
      destruct (Hcmp (limit_of r)) as (-> & _).
      apply NumberFacts.not_gt_le; [|done|done].
      by apply NumberFacts.is_finite_not_nan.
    + destruct Hsign as [Hlim|Hsol]; [exact Hlim|].
      apply NumberFacts.JSON_number_None in Hz.
      by eapply NumberFacts.add_nonneg_overflow.
Qed.

Lemma trackAll_preserves (cs : list (float * string)) (w : World) id0 r :
  getAgent w id0 = Returns (Some r) → within_limit r →
  Number.le zero (limit_of r) = true
  ∨ Forall (λ c, Number.le zero c.1 = true) cs →
  ∃ r', getAgent (trackAll id0 cs w) id0 = Returns (Some r')
        ∧ within_limit r' ∧ limit_of r' = limit_of r.
Proof.
  revert w r. induction cs as [|[sol now] cs IH]; intros w r Hg Hinv Hsign.
  - by exists r.
  - simpl.
    destruct (trackSpending_preserves w id0 sol now r Hg Hinv)
      as (r1 & Hg1 & Hinv1 & Hl1).
    { destruct Hsign as [?|Hall]; [by left|right]. by inversion Hall. }
    destruct (IH _ r1 Hg1 Hinv1) as (r' & Hg' & Hinv' & Hl').
    { rewrite Hl1. destruct Hsign as [?|Hall]; [by left|right].
      by inversion Hall. }
    exists r'. split; [done|]. split; [done|]. congruence.
Qed.

(** C1, for an agent that starts within its limit, when the limit is not
    negative or no amount is.  After every prefix of a sequence of
    [trackSpending] calls on the agent, [solSpent <= spendingLimit] holds.
    The call that comes next throws [SpendingLimitExceeded] and leaves the
    world as it was when the sum of [solSpent] and the amount, as doubles
    add, exceeds the limit; otherwise it returns, having written the sum to
    [solSpent] ([null] when it is [NaN] or infinite) and set
    [lastUpdated]. *)
Theorem trackSpending_invariant (w : World) (id0 : string) (r : AgentRecord)
    (cs : list (float * string)) :
  getAgent w id0 = Returns (Some r) →
  within_limit r →
  Number.le zero (limit_of r) = true
  ∨ Forall (λ c, Number.le zero c.1 = true) cs →
  ∀ n, ∃ r_n,
    let w_n := trackAll id0 (take n cs) w in
    getAgent w_n id0 = Returns (Some r_n)
    ∧ within_limit r_n
    ∧ ∀ sol now, cs !! n = Some (sol, now) →
        let spent := (spent_of r_n + sol)%float in
        (Number.gt spent (limit_of r_n) = true →
           trackSpending id0 sol now w_n
           = (w_n, Throws (SpendingLimitExceeded spent (limit_of r_n))))
        ∧ (Number.gt spent (limit_of r_n) = false →
           ∃ w', trackSpending id0 sol now w_n = (w', Returns tt)
                 ∧ getAgent w' id0
                   = Returns (Some (JSON_record
                                      (set_lastUpdated now
                                         (set_solSpent spent r_n))))).
Proof.
  intros Hg Hinv Hsign n.
  destruct (trackAll_preserves (take n cs) w id0 r Hg Hinv)
    as (r_n & Hgn & Hin & _).
  { destruct Hsign as [?|Hall]; [by left|right]. by apply Forall_take. }
  exists r_n. simpl. split; [done|]. split; [done|].
  intros sol now _. split.
  - intros Hgt. by apply trackSpending_rejected.
  - intros Hle.
    destruct (trackSpending_accepted _ id0 sol now r_n Hgn Hle)
      as (w' & Hw' & Hg' & _). by exists w'.
Qed.

(** C10, for amounts that are not negative and sums that are finite
    numbers (as every sum is that a finite limit lets through).  A
    [trackSpending] call that returns leaves [solSpent] at least where it
    was; [spawnAgent] and [promoteWallet] create their record with
    [solSpent = 0]. *)
Theorem solSpent_nondecreasing (w w' : World) (id0 : string)
    (r : AgentRecord) (sol : float) (now : string) :
  getAgent w id0 = Returns (Some r) →
  Number.le zero sol = true →
  is_finite (spent_of r + sol) = true ∨ is_finite (limit_of r) = true →
  trackSpending id0 sol now w = (w', Returns tt) →
  (∃ r', getAgent w' id0 = Returns (Some r')
         ∧ solSpent r' = Number.JSON_number (spent_of r + sol)
         ∧ Number.le (spent_of r) (spent_of r') = true)
  ∧ (∀ strategy name limit inp w0 w1 rec,
       spawnAgent ws D strategy name limit inp w0 = (w1, Returns rec) →
       solSpent rec = Some zero)
  ∧ (∀ name strategy limit inp w0 w1 rec,
       promoteWallet ws D name strategy limit inp w0 = (w1, Returns rec) →
       solSpent rec = Some zero).
Proof.
  intros Hg Hsol Hfin Hrun. split; [|split].
  - destruct (Number.gt (spent_of r + sol) (limit_of r)) eqn:Hgt.
    + rewrite (trackSpending_rejected w id0 sol now r) in Hrun by done.
      congruence.
    + destruct (trackSpending_accepted w id0 sol now r Hg Hgt)
        as (w2 & Hw2 & Hg2 & _).
      rewrite Hrun in Hw2. injection Hw2 as <-.
      pose proof (getAgent_finite D w id0 r Hg) as Hx.
      destruct (getAgent_Some _ _ _ Hg) as (_ & _ & _ & _ & _ & Hj).
      destruct (accepted_ledger r (spent_of r + sol) now Hj) as [Hs _].
      eexists. split; [exact Hg2|]. split; [exact Hs|].
      pose proof (NumberFacts.add_nonneg_le _ _ Hx Hsol) as Hle.
      assert (Hsum : is_finite (spent_of r + sol) = true).
      { destruct Hfin as [?|Hlim]; [done|].
        destruct (is_finite (spent_of r + sol)) eqn:E; [done|exfalso].
        pose proof (NumberFacts.is_finite_not_nan _ Hlim) as Hnan.
        pose proof (NumberFacts.leb_not_nan _ _ Hle) as [_ Hsn].
        pose proof (NumberFacts.not_gt_le _ _ Hsn Hnan Hgt) as Hsl.
        by rewrite (NumberFacts.le_finite _ _ _ Hx Hle Hsl Hlim) in E. }
      unfold spent_of at 2. rewrite Hs. unfold Number.le.
      destruct (Number.JSON_number (spent_of r + sol)) as [z|] eqn:Hz; simpl.
      * apply NumberFacts.JSON_number_Some in Hz as (_ & _ & Hcmp).
        destruct (Hcmp (spent_of r)) as (_ & -> & _). exact Hle.
      * apply NumberFacts.JSON_number_None in Hz. congruence.
  - intros strategy name limit inp w0 w1 rec. unfold spawnAgent.
    destruct (WalletService.createWallet _ _ _ _ _) as [wallet fs].
    destruct (asArray _ _); [|done]. simpl.
    destruct (delivery _ _); [|done]. by intros [= _ <-].
  - intros name strategy limit inp w0 w1 rec. unfold promoteWallet.
    destruct (asArray _ _); [|done]. simpl.
    destruct (list_find _ _) as [[]|]; [done|].
    destruct (WalletService.loadWallet _ _ _); [|done]. simpl.
    destruct (delivery _ _); [|done]. by intros [= _ <-].
Qed.

End Spending.

Import Sample.

(** The scenario of the default limit: half of it is accepted, then six
    tenths are refused and [solSpent] stays at one half. *)
Example trackSpending_half_then_six_tenths :
  ∃ w1 r1,
    Orchestrator.trackSpending 1 idA 0.5 "t1" oneAgent = (w1, Returns tt)
    ∧ getAgent w1 idA = Returns (Some r1)
    ∧ solSpent r1 = Some 0.5%float
    ∧ Orchestrator.trackSpending 1 idA 0.6 "t2" w1
      = (w1, Throws (SpendingLimitExceeded 1.1 1)).
Proof.
  eexists _, _. split; [vm_compute; reflexivity|].
  split; [vm_compute; reflexivity|]. split; vm_compute; reflexivity.
Qed.

(** The sum is the sum of doubles: with a limit of three tenths, one tenth
    is accepted and two tenths more are refused, as [0.1 + 0.2] is
    [0.30000000000000004]. *)
Example trackSpending_rounds :
  let w0 :=
    (Orchestrator.spawnAgent walletService 1 "simple" (Some "agent-1")
       (Some 0.3%float) inputsA Orchestrator.empty).1 in
  ∃ w1,
    Orchestrator.trackSpending 1 idA 0.1 "t1" w0 = (w1, Returns tt)
    ∧ Orchestrator.trackSpending 1 idA 0.2 "t2" w1
      = (w1, Throws (SpendingLimitExceeded 0.30000000000000004 0.3)).
Proof.
  eexists. split; vm_compute; reflexivity.
Qed.

(** An amount that is not a number passes the test and is written as
    [null]: [solSpent] reads as [0] again. *)
Example trackSpending_NaN_resets :
  ∃ w1 w2 r2,
    Orchestrator.trackSpending 1 idA 0.5 "t1" oneAgent = (w1, Returns tt)
    ∧ Orchestrator.trackSpending 1 idA nan "t2" w1 = (w2, Returns tt)
    ∧ getAgent w2 idA = Returns (Some r2)
    ∧ solSpent r2 = None.
Proof.
  eexists _, _, _. split; [vm_compute; reflexivity|].
  split; [vm_compute; reflexivity|]. split; vm_compute; reflexivity.
Qed.

Lemma trackSpending_invariant_witness :
  getAgent oneAgent idA = Returns (Some recordA)
  ∧ Orchestrator.within_limit 1 recordA
  ∧ ∀ n, ∃ r_n,
      let cs := [(0.5%float, "t1"); (0.6%float, "t2")] in
      let w_n := Orchestrator.trackAll 1 idA (take n cs) oneAgent in
      getAgent w_n idA = Returns (Some r_n)
      ∧ Orchestrator.within_limit 1 r_n
      ∧ ∀ sol now, cs !! n = Some (sol, now) →
          let spent := (spent_of r_n + sol)%float in
          (Number.gt spent (Orchestrator.limit_of 1 r_n) = true →
             Orchestrator.trackSpending 1 idA sol now w_n
             = (w_n, Throws (SpendingLimitExceeded spent
                               (Orchestrator.limit_of 1 r_n))))
          ∧ (Number.gt spent (Orchestrator.limit_of 1 r_n) = false →
             ∃ w', Orchestrator.trackSpending 1 idA sol now w_n
                   = (w', Returns tt)
                   ∧ getAgent w' idA
                     = Returns (Some (JSON_record
                                        (set_lastUpdated now
                                           (set_solSpent spent r_n))))).
Proof.
  assert (Hg : getAgent oneAgent idA = Returns (Some recordA))
    by (vm_compute; reflexivity).
  assert (Hin : Orchestrator.within_limit 1 recordA) by reflexivity.
  split; [exact Hg|]. split; [exact Hin|].
  exact (trackSpending_invariant 1 oneAgent idA recordA
           [(0.5%float, "t1"); (0.6%float, "t2")] Hg Hin
           (or_introl eq_refl)).
Defined.

(** C1, as specified, fails: an agent spawned with the spending limit
    [-1] has [solSpent = 0], above its limit, before any call and after the
    call [trackSpending(id, 0)], which throws. *)
Lemma trackSpending_invariant_fails_below_zero :
  ∃ r,
    getAgent (Orchestrator.trackAll 1 idA [(0%float, "t1")] negativeLimit) idA
    = Returns (Some r)
    ∧ solSpent r = Some 0%float
    ∧ spendingLimit r = Some (-1)%float
    ∧ ¬ Orchestrator.within_limit 1 r.
Proof.
  eexists. split; [vm_compute; reflexivity|].
  split; [reflexivity|]. split; [reflexivity|].
  vm_compute. discriminate.
Qed.

Lemma solSpent_nondecreasing_witness :
  getAgent oneAgent idA = Returns (Some recordA)
  ∧ Number.le zero 0.5 = true
  ∧ is_finite (spent_of recordA + 0.5) = true
  ∧ ∃ w', Orchestrator.trackSpending 1 idA 0.5 "t1" oneAgent
          = (w', Returns tt)
    ∧ (∃ r', getAgent w' idA = Returns (Some r')
             ∧ solSpent r' = Number.JSON_number (spent_of recordA + 0.5)
             ∧ Number.le (spent_of recordA) (spent_of r') = true).
Proof.
  assert (Hg : getAgent oneAgent idA = Returns (Some recordA))
    by (vm_compute; reflexivity).
  assert (Hs : Number.le zero 0.5 = true) by reflexivity.
  assert (Hf : is_finite (spent_of recordA + 0.5) = true) by reflexivity.
  split; [exact Hg|]. split; [exact Hs|]. split; [exact Hf|].
  eexists. split; [vm_compute; reflexivity|].
  refine (proj1 (solSpent_nondecreasing walletService 1 oneAgent _ idA recordA
                   0.5 "t1" Hg Hs (or_introl Hf) _)).
  vm_compute; reflexivity.
Defined.

(** C10, as specified, fails: a negative amount is accepted and
    lowers [solSpent]. *)
Lemma negative_amount_lowers_solSpent :
  ∃ w1 r1 w2 r2,
    Orchestrator.trackSpending 1 idA 0.5 "t1" oneAgent = (w1, Returns tt)
    ∧ getAgent w1 idA = Returns (Some r1)
    ∧ Orchestrator.trackSpending 1 idA (-0.25) "t2" w1 = (w2, Returns tt)
    ∧ getAgent w2 idA = Returns (Some r2)
    ∧ solSpent r1 = Some 0.5%float
    ∧ solSpent r2 = Some 0.25%float
    ∧ Number.le (spent_of r1) (spent_of r2) = false.
Proof.
  eexists _, _, _, _. split; [vm_compute; reflexivity|].
  split; [vm_compute; reflexivity|]. split; [vm_compute; reflexivity|].
  split; [vm_compute; reflexivity|]. repeat split; vm_compute; reflexivity.
Qed.

(** C9 on the code.  [promoteWallet] refuses a wallet name that has a
    record; [spawnAgent] makes no such check.  After the wallet ["agent-1"]
    is promoted, the one spawn call of the sequence, under the same wallet
    name, returns: the registry holds two agents for the wallet, and the key
    file that the first agent's address came from has been replaced, so the
    wallet now loads with the second agent's key. *)
Theorem spawn_after_promote_registers_twice :
  let w1 :=
    (Orchestrator.promoteWallet walletService 1 "agent-1" "simple" None
       inputsA walletOnly).1 in
  let run :=
    Orchestrator.spawnAgent walletService 1 "simple" (Some "agent-1") None
      inputsB w1 in
  agents walletOnly = []
  ∧ length (records_of w1 "agent-1") = 1
  ∧ Orchestrator.promoteWallet walletService 1 "agent-1" "simple" None
      inputsB w1
    = (w1, Throws (AlreadyRegistered "agent-1" idA))
  ∧ NoDup (spawn_names promoteThenSpawn)
  ∧ run.1 = Orchestrator.performAll walletService 1 promoteThenSpawn walletOnly
  ∧ (∃ first second,
       records_of run.1 "agent-1" = [first; second]
       ∧ run.2 = Returns second
       ∧ walletAddress first ≠ walletAddress second
       ∧ ∃ kp, WalletService.loadWallet walletService "agent-1" (files run.1)
               = Returns kp
               ∧ toBase58 (publicKey kp) = walletAddress second).
Proof.
  split; [reflexivity|]. split; [vm_compute; reflexivity|].
  split; [vm_compute; reflexivity|]. split.
  { vm_compute. apply NoDup_singleton. }
  split; [reflexivity|].
  eexists _, _. split; [vm_compute; reflexivity|].
  split; [vm_compute; reflexivity|]. split; [vm_compute; discriminate|].
  eexists. split; vm_compute; reflexivity.
Qed.

End RegistryFacts.

(** ** Execution loops and the running-agent set *)

Module LoopFacts.
Import Agent Orchestrator.

Section Runs.
Context {P : NodePrimitives} (ws : WalletService.t).

(** The loop equation of [runSolTransferLoop]: with the bound at
    [iterations - i], [from_test] is the [for] loop entered at its test. *)
Lemma SimpleAgentRunner_from_test_eq opts rnd i sigs :
  SimpleAgentRunner.from_test opts rnd (SimpleAgentRunner.iterations opts - i)
    i sigs
  = if i <? SimpleAgentRunner.iterations opts then
      if Qle_bool (SimpleAgentRunner.holdProbability opts) (rnd i) then
        SimpleAgentRunner.suspend opts rnd i sigs
          SimpleAgentRunner.AwaitTransferSol
      else SimpleAgentRunner.after_action opts rnd i sigs
    else Finished (Returns sigs).
Proof.
  destruct (Nat.ltb_spec i (SimpleAgentRunner.iterations opts)) as [Hlt|Hge].
  - replace (SimpleAgentRunner.iterations opts - i)
      with (S (SimpleAgentRunner.iterations opts - (i + 1))) by lia.
    simpl. apply Nat.ltb_lt in Hlt. rewrite Hlt.
    unfold SimpleAgentRunner.after_action. done.
  - replace (SimpleAgentRunner.iterations opts - i) with 0 by lia. done.
Qed.

(** The loop equation of [TradingAgent.run]. *)
Lemma TradingAgent_from_test_eq cfg rnd running i sigs price logged :
  TradingAgent.from_test cfg rnd running (TradingAgent.iterations cfg - i)
    i sigs price logged
  = if (i <? TradingAgent.iterations cfg) && running then
      let price' := (price * ((95 # 100) + rnd i * (1 # 10)))%Q in
      match TradingAgent.evaluateMarket price' cfg with
      | TradingAgent.BUY =>
          TradingAgent.suspend cfg rnd i sigs price' logged
            TradingAgent.AwaitMintSpl
      | TradingAgent.SELL =>
          TradingAgent.suspend cfg rnd i sigs price' logged
            TradingAgent.AwaitGetSplBalances
      | TradingAgent.HOLD =>
          TradingAgent.after_action cfg rnd running i sigs price' logged
      end
    else Finished (Returns sigs).
Proof.
  destruct (Nat.ltb_spec i (TradingAgent.iterations cfg)) as [Hlt|Hge].
  - replace (TradingAgent.iterations cfg - i)
      with (S (TradingAgent.iterations cfg - (i + 1))) by lia.
    simpl. apply Nat.ltb_lt in Hlt. rewrite Hlt.
    unfold TradingAgent.after_action. done.
  - replace (TradingAgent.iterations cfg - i) with 0 by lia. done.
Qed.

(** The simple loop never ends by itself with an error. *)
Lemma SimpleAgentRunner_from_test_returns opts rnd n i sigs :
  match SimpleAgentRunner.from_test opts rnd n i sigs with
  | Finished (Throws _) => False
  | _ => True
  end.
Proof.
  revert i. induction n as [|n IH]; intros i; simpl; [done|].
  destruct (i <? _); [|done].
  destruct (Qle_bool _ _); [done|].
  destruct (_ && _); [done|]. apply IH.
Qed.

(** X21.  With a transfer in every iteration and no pacing, a simple loop
    whose transfers are all confirmed returns the signatures of all its
    iterations, one per iteration and in the order of the transfers: nothing
    that happens while it is suspended can end it sooner, as it reads
    nothing but its own locals. *)
Lemma SimpleAgentRunner_runs_every_iteration opts rnd (sigs : list string) :
  (∀ i, Qle_bool (SimpleAgentRunner.holdProbability opts) (rnd i) = true) →
  SimpleAgentRunner.intervalMs opts = 0 →
  length sigs = SimpleAgentRunner.iterations opts →
  SimpleAgentRunner.settle (SimpleAgentRunner.runSolTransferLoop opts rnd)
    ((λ s, Signature (Returns s)) <$> sigs)
  = Some (Finished (Returns sigs)).
Proof.
  intros Hact Hpace Hlen.
  assert (Hgen : ∀ rest done,
    length done + length rest = SimpleAgentRunner.iterations opts →
    SimpleAgentRunner.settle
      (SimpleAgentRunner.from_test opts rnd
         (SimpleAgentRunner.iterations opts - length done) (length done) done)
      ((λ s, Signature (Returns s)) <$> rest)
    = Some (Finished (Returns (done ++ rest)))).
  { induction rest as [|s rest IH]; intros done Hsum; simpl in *.
    - rewrite SimpleAgentRunner_from_test_eq.
      destruct (Nat.ltb_spec (length done) (SimpleAgentRunner.iterations opts));
        [lia|]. by rewrite app_nil_r.
    - rewrite SimpleAgentRunner_from_test_eq.
      destruct (Nat.ltb_spec (length done) (SimpleAgentRunner.iterations opts));
        [|lia].
      rewrite Hact. simpl. unfold SimpleAgentRunner.after_action.
      rewrite Hpace. simpl.
      specialize (IH (done ++ [s])). rewrite length_app in IH. simpl in IH.
      rewrite <- app_assoc in IH. apply IH. lia. }
  specialize (Hgen sigs []). simpl in Hgen. rewrite Nat.sub_0_r in Hgen.
  by apply Hgen.
Qed.

(** The world that the first half of [stopAgent] leaves, field by field. *)
Lemma unregister_world (w : World) (id0 : string) :
  let w' := (unregister id0 w).1 in
  calls w' = calls w ∧ files w' = files w ∧ storePath w' = storePath w
  ∧ eventBus w' = eventBus w ∧ handler w' = handler w
  ∧ runningAgents w' = delete id0 (runningAgents w)
  ∧ objects w'
    = match runningAgents w !! id0 with
      | Some ra =>
          match objects w !! runner ra with
          | Some obj =>
              if has_stop obj then <[runner ra := stop obj]> (objects w)
              else objects w
          | None => objects w
          end
      | None => objects w
      end
  ∧ events w'
    = (if isRunning w id0 then events w ++ [agent_stopped id0] else events w)
  ∧ (unregister id0 w).2
    = (if isRunning w id0 then delivery w (agent_stopped id0)
       else Returns tt).
Proof.
  unfold unregister, isRunning.
  destruct (runningAgents w !! id0) as [ra|] eqn:Hra; simpl.
  - destruct (objects w !! runner ra) as [obj|]; [|done].
    by destruct (has_stop obj).
  - by rewrite delete_id.
Qed.

(** [stopAgent] reaches a loop through [runner.stop()] alone: it leaves the
    calls as they are, and a [SimpleAgentRunner] object as it is. *)
Lemma stopAgent_leaves_simple_loops (w : World) id0 now :
  calls (stopAgent id0 now w).1 = calls w
  ∧ ∀ ref, objects w !! ref = Some SimpleRunner →
           objects (stopAgent id0 now w).1 !! ref = Some SimpleRunner.
Proof.
  destruct (unregister_world w id0) as (Hc & _ & _ & _ & _ & _ & Ho & _).
  assert (H1 : ∀ ref, objects w !! ref = Some SimpleRunner →
                      objects (unregister id0 w).1 !! ref = Some SimpleRunner).
  { intros ref Href. rewrite Ho.
    destruct (runningAgents w !! id0) as [ra|]; [|done].
    destruct (objects w !! runner ra) as [obj|] eqn:Hobj; [|done].
    destruct (has_stop obj) eqn:Hs; [|done].
    destruct (decide (ref = runner ra)) as [->|Hne].
    - rewrite Hobj in Href. injection Href as ->. done.
    - by rewrite list_lookup_insert_ne. }
  unfold stopAgent. destruct (unregister id0 w) as [w1 [[]|e]]; simpl in *;
    [|done].
  destruct (getAgent w1 id0) as [[record|]|e]; [|done|done].
  unfold updateAgent. destruct (asArray _ _); [|done]. simpl.
  destruct (list_find _ _) as [[i x]|]; done.
Qed.

(** What the subscribers do with an event does not depend on the running
    set, the runner objects or the files. *)
Lemma delivery_frame (w w' : World) (e : Event) :
  eventBus w' = eventBus w → handler w' = handler w →
  delivery w' e = delivery w e.
Proof. unfold delivery. by intros -> ->. Qed.

(** A run method on an id that is in the running set is not refused: when
    no subscriber throws, the call it adds is a loop in flight or a
    returned run. *)
Lemma runAgentLoop_not_refused (w : World) id0 options rnd record wallet :
  isRunning w id0 = true →
  getAgent w id0 = Returns (Some record) →
  WalletService.loadWallet ws (Agent.walletName record) (files w)
  = Returns wallet →
  (∀ e, delivery w e = Returns tt) →
  ∃ c, calls (runAgentLoop ws id0 options rnd w) = calls w ++ [c]
       ∧ match c with Settled (Throws _) => False | _ => True end.
Proof.
  intros _ Hg Hl Hquiet. unfold runAgentLoop. rewrite Hg, Hl. simpl.
  unfold emit. simpl.
  rewrite (delivery_frame w) by done. rewrite Hquiet.
  match goal with
  | |- context [SimpleAgentRunner.runSolTransferLoop ?o ?r] =>
      pose proof (SimpleAgentRunner_from_test_returns o r
                    (SimpleAgentRunner.iterations o) 0 []) as Hret;
      fold (SimpleAgentRunner.runSolTransferLoop o r) in Hret;
      destruct (SimpleAgentRunner.runSolTransferLoop o r) as [fr|[sg|e]]
  end; simpl; [by eexists| |done].
  unfold emit. simpl. rewrite (delivery_frame w) by done. rewrite Hquiet.
  by eexists.
Qed.

(** A rejected transfer ends [runSolTransferLoop]: there is no [try]. *)
Lemma SimpleAgentRunner_failure_ends_run (fr : SimpleAgentRunner.Frame) e :
  SimpleAgentRunner.at_ fr = SimpleAgentRunner.AwaitTransferSol →
  SimpleAgentRunner.resume fr (Signature (Throws e)) = Some (Finished (Throws e)).
Proof. intros H. unfold SimpleAgentRunner.resume. by rewrite H. Qed.

(** A rejected mint in [TradingAgent.run] is logged; the loop goes on with
    the signatures it has. *)
Lemma TradingAgent_failure_is_logged (running : bool)
    (fr : TradingAgent.Frame) e :
  TradingAgent.at_ fr = TradingAgent.AwaitMintSpl
  ∨ TradingAgent.at_ fr = TradingAgent.AwaitTransferSpl →
  TradingAgent.resume running fr (Signature (Throws e))
  = Some (TradingAgent.after_action (TradingAgent.config fr)
            (TradingAgent.rolls fr) running (TradingAgent.i fr)
            (TradingAgent.signatures fr) (TradingAgent.mockPrice fr)
            (TradingAgent.logged fr ++ [e])).
Proof. intros [H|H]; unfold TradingAgent.resume; by rewrite H. Qed.

Lemma TradingAgent_from_test_stopped cfg rnd n i sigs price logged :
  TradingAgent.from_test cfg rnd false n i sigs price logged
  = Finished (Returns sigs).
Proof. destruct n; simpl; [done|]. by rewrite andb_false_r. Qed.

Lemma TradingAgent_after_action_stopped cfg rnd i sigs price logged :
  TradingAgent.after_action cfg rnd false i sigs price logged
  = Finished (Returns sigs).
Proof.
  unfold TradingAgent.after_action. rewrite andb_false_r.
  apply TradingAgent_from_test_stopped.
Qed.

(** Once [stop()] has been called on a [TradingAgent], the loop returns as
    soon as the action it awaits settles, with at most one more signature. *)
Lemma TradingAgent_stop_is_observed (fr : TradingAgent.Frame) (c : completion string) :
  TradingAgent.at_ fr = TradingAgent.AwaitMintSpl
  ∨ TradingAgent.at_ fr = TradingAgent.AwaitTransferSpl →
  ∃ sigs, TradingAgent.resume false fr (Signature c)
          = Some (Finished (Returns sigs))
          ∧ length sigs ≤ S (length (TradingAgent.signatures fr)).
Proof.
  intros [H|H]; unfold TradingAgent.resume; rewrite H; destruct c as [sg|e];
    rewrite TradingAgent_after_action_stopped; eexists; (split; [done|]);
    rewrite ?length_app; simpl; lia.
Qed.

(** [runAgentLoop] does not read [runningAgents]: the call it adds is the
    same whatever the set holds. *)
Lemma runAgentLoop_ignores_running id0 options rnd (w : World) m :
  calls (runAgentLoop ws id0 options rnd (setRunning m w))
  = calls (runAgentLoop ws id0 options rnd w).
Proof.
  unfold runAgentLoop.
  change (getAgent (setRunning m w) id0) with (getAgent w id0).
  destruct (getAgent w id0) as [[r|]|e]; simpl; [|done|done].
  destruct (WalletService.loadWallet _ _ _); simpl; [|done].
  unfold emit. simpl.
  repeat match goal with
         | |- context [delivery ?a ?e] =>
             lazymatch a with w => fail | _ => idtac end;
             rewrite (delivery_frame w a e) by done
         end.
  destruct (delivery w _); simpl; [|done].
  destruct (SimpleAgentRunner.runSolTransferLoop _ _) as [fr|[sg|e]]; simpl;
    [done| |done].
  unfold emit. simpl.
  repeat match goal with
         | |- context [delivery ?a ?e] =>
             lazymatch a with w => fail | _ => idtac end;
             rewrite (delivery_frame w a e) by done
         end.
  by destruct (delivery w _).
Qed.

End Runs.

Import Sample.

(** C6 on the code.  While a loop of the agent is in flight, a second
    [runAgentLoop], [runTradingAgent] or [runLiquidityAgent] for the same id
    is neither refused nor held back: its loop starts, and two loops of the
    agent are suspended on the network at once. *)
Theorem second_run_starts_second_loop :
  let w1 := runAgentLoop walletService idA tenTransfers rolls oneAgent in
  let w2 := runAgentLoop walletService idA tenTransfers rolls w1 in
  let t1 := runTradingAgent walletService idA tenBuys rolls oneAgent in
  let t2 := runTradingAgent walletService idA tenBuys rolls t1 in
  let l1 := runLiquidityAgent walletService idA tenRebalances oneAgent in
  let l2 := runLiquidityAgent walletService idA tenRebalances l1 in
  (isRunning w1 idA = true ∧ length (loops_in_flight w1 idA) = 1
   ∧ length (calls w2) = 2 ∧ length (loops_in_flight w2 idA) = 2)
  ∧ (isRunning t1 idA = true ∧ length (loops_in_flight t1 idA) = 1
     ∧ length (calls t2) = 2 ∧ length (loops_in_flight t2 idA) = 2)
  ∧ (isRunning l1 idA = true ∧ length (loops_in_flight l1 idA) = 1
     ∧ length (calls l2) = 2 ∧ length (loops_in_flight l2 idA) = 2).
Proof.
  repeat split; vm_compute; reflexivity.
Qed.

(** C7 on the code.  In the simple transfer loop a rejected transfer is not
    caught: with three iterations, the first transfer confirmed and the second
    rejected, the call rejects with the network's error, the first signature
    is not returned, the third iteration does not run, and the agent stays in
    the running set.  [TradingAgent.run] on the same answers logs the error
    and returns the signatures of the first and third iterations. *)
Theorem simple_loop_aborts_on_rejected_transfer :
  let boom := NetworkError "Transaction was not confirmed" in
  let answers :=
    [Signature (Returns "sig0"); Signature (Throws boom)] in
  (∃ w,
     resumeAll 0 answers
       (runAgentLoop walletService idA threeTransfers rolls oneAgent) = Some w
     ∧ calls w = [Settled (Throws boom)]
     ∧ isRunning w idA = true
     ∧ events w = [agent_spawned idA "simple"
                     (Agent.walletAddress recordA);
                   agent_started idA "simple_transfer"])
  ∧ (∃ w,
       resumeAll 0 (answers ++ [Signature (Returns "sig2")])
         (runTradingAgent walletService idA threeBuys rolls oneAgent) = Some w
       ∧ calls w = [Settled (Returns ["sig0"; "sig2"])]
       ∧ isRunning w idA = false).
Proof.
  split.
  - eexists. split; [vm_compute; reflexivity|].
    split; [reflexivity|]. split; vm_compute; reflexivity.
  - eexists. split; [vm_compute; reflexivity|].
    split; [reflexivity|]. vm_compute; reflexivity.
Qed.

(** C8 on the code.  [stopAgent] during the first transfer of a simple loop
    with ten iterations and no pacing removes the id from the running set
    and has nothing to tell the loop: with every transfer confirmed, the call
    returns ten signatures.  A trading loop stopped at the same point returns
    after the action in flight, with one signature. *)
Theorem simple_loop_ignores_stop :
  (∃ w1 w2,
     stopAgent idA "2026-02-19T07:30:00.000Z"
       (runAgentLoop walletService idA tenTransfers rolls oneAgent)
     = (w1, Returns tt)
     ∧ isRunning w1 idA = false
     ∧ objects w1 = [SimpleRunner]
     ∧ resumeAll 0 tenSignatures w1 = Some w2
     ∧ calls w2
       = [Settled (Returns ["sig0"; "sig1"; "sig2"; "sig3"; "sig4";
                            "sig5"; "sig6"; "sig7"; "sig8"; "sig9"])]
     ∧ isRunning w2 idA = false)
  ∧ (∃ w1 w2,
       stopAgent idA "2026-02-19T07:30:00.000Z"
         (runTradingAgent walletService idA tenBuys rolls oneAgent)
       = (w1, Returns tt)
       ∧ isRunning w1 idA = false
       ∧ objects w1 = [TradingRunner false]
       ∧ resume 0 (Signature (Returns "sig0")) w1 = Some w2
       ∧ calls w2 = [Settled (Returns ["sig0"])]
       ∧ isRunning w2 idA = false).
Proof.
  split.
  - eexists _, _. split; [vm_compute; reflexivity|].
    split; [vm_compute; reflexivity|]. split; [reflexivity|].
    split; [vm_compute; reflexivity|]. split; [reflexivity|].
    vm_compute; reflexivity.
  - eexists _, _. split; [vm_compute; reflexivity|].
    split; [vm_compute; reflexivity|]. split; [reflexivity|].
    split; [vm_compute; reflexivity|]. split; [reflexivity|].
    vm_compute; reflexivity.
Qed.

End LoopFacts.

(** * Further properties of the code *)

(** ** The allowlist as configured *)

Module AllowlistConfigFacts.
Import ProgramAllowlist.

Lemma new_size (cfg : list string) (programIds : option (list string)) :
  size (allowedPrograms (new cfg programIds)) = 0
  ↔ default cfg programIds = [].
Proof.
  unfold new. simpl. rewrite size_empty_iff. split.
  - intros He. destruct (default cfg programIds) as [|x l]; [done|].
    assert (x ∈ (list_to_set (x :: l) : gset string)) as Hx by set_solver.
    rewrite He in Hx. set_solver.
  - intros ->. done.
Qed.

(** X1.  An allowlist built from a list of program ids (the argument, or
    [PROGRAM_ALLOWLIST] when there is none) allows a program exactly when the
    list is empty or holds it, and passes a transaction exactly when the list
    is empty or holds the program of every instruction; repetitions in the
    list change nothing. *)
Theorem new_allows_by_list (cfg : list string)
    (programIds : option (list string)) (tx : Transaction) :
  let ids := default cfg programIds in
  let self := new cfg programIds in
  (∀ p, isAllowed self p = true ↔ ids = [] ∨ p ∈ ids)
  ∧ (validateTransaction self tx = Returns tt
     ↔ ids = [] ∨ Forall (λ ix, programId ix ∈ ids) (instructions tx)).
Proof.
  intros ids self.
  assert (Hin : ∀ p, p ∈ allowedPrograms self ↔ p ∈ ids).
  { intros p. subst self ids. unfold new. simpl. set_solver. }
  assert (Hsz : size (allowedPrograms self) = 0 ↔ ids = [])
    by apply new_size.
  split.
  - intros p. unfold isAllowed.
    destruct (Nat.eqb_spec (size (allowedPrograms self)) 0) as [Hz|Hnz].
    + split; [intros _; left; by apply Hsz|done].
    + rewrite bool_decide_eq_true, Hin. split; [by right|].
      intros [He|Hp]; [|done]. apply Hsz in He. done.
  - unfold validateTransaction.
    destruct (Nat.eqb_spec (size (allowedPrograms self)) 0) as [Hz|Hnz].
    + split; [intros _; left; by apply Hsz|done].
    + rewrite ProgramAllowlistFacts.validateInstructions_returns by done.
      unfold approved. split.
      * intros Hall. right. eapply Forall_impl; [exact Hall|].
        intros ix. apply Hin.
      * intros [He|Hall]; [apply Hsz in He; done|].
        eapply Forall_impl; [exact Hall|]. intros ix. apply Hin.
Qed.

End AllowlistConfigFacts.

(** ** The keystore directory *)

Module KeystoreFacts.
Import KeyManager.

Lemma length_append (a b : string) :
  String.length (a +:+ b) = String.length a + String.length b.
Proof. induction a as [|c a IH]; simpl; [done|]. by rewrite IH. Qed.

Lemma before_suffix_eq (suffix s : string) :
  before_suffix suffix s
  = if String.eqb s suffix then Some ""
    else match s with
         | EmptyString => None
         | String c s' => String c <$> before_suffix suffix s'
         end.
Proof. by destruct s. Qed.

Lemma before_suffix_Some (suffix s n : string) :
  before_suffix suffix s = Some n ↔ s = n +:+ suffix.
Proof.
  split.
  - revert n. induction s as [|c s IH]; intros n; rewrite before_suffix_eq.
    + destruct (String.eqb_spec "" suffix) as [Heq|Hne]; [|done].
      by intros [= <-].
    + destruct (String.eqb_spec (String c s) suffix) as [Heq|Hne].
      * by intros [= <-].
      * destruct (before_suffix suffix s) as [n'|] eqn:E; [|done].
        simpl. intros [= <-]. by rewrite (IH n' eq_refl) at 1.
  - intros ->. induction n as [|c n IH]; rewrite before_suffix_eq.
    + simpl. by rewrite String.eqb_refl.
    + change (String c n +:+ suffix) with (String c (n +:+ suffix)).
      destruct (String.eqb_spec (String c (n +:+ suffix)) suffix) as [Heq|_].
      * apply (f_equal String.length) in Heq. simpl in Heq.
        rewrite length_append in Heq. lia.
      * by rewrite IH.
Qed.

(** X2.  [listKeypairs] returns a name exactly when the directory has the
    entry [name.json]: entries without the suffix are left out and the suffix
    is removed once, at the end.  A directory that cannot be read lists as
    empty. *)
Theorem listKeypairs_names (entries : list string) (name : string) (e : Error) :
  (name ∈ listKeypairs (Returns entries) ↔ name +:+ ".json" ∈ entries)
  ∧ listKeypairs (Throws e) = [].
Proof.
  split; [|done]. unfold listKeypairs. rewrite list_elem_of_fmap. split.
  - intros (entry & -> & Hin). apply list_elem_of_In, filter_In in Hin as [Hin Hends].
    unfold endsWith, stripJson in *.
    destruct (before_suffix ".json" entry) as [n|] eqn:E; [|done].
    apply before_suffix_Some in E. simpl. rewrite <- E.
    by apply list_elem_of_In.
  - intros Hin. exists (name +:+ ".json").
    assert (E : before_suffix ".json" (name +:+ ".json") = Some name)
      by by apply before_suffix_Some.
    split.
    + unfold stripJson. by rewrite E.
    + apply list_elem_of_In, filter_In. split; [by apply list_elem_of_In|].
      unfold endsWith. by rewrite E.
Qed.

Import Sample.

(** X3 on an instance: after [createWallet], [loadWallet] of the name
    returns the wallet that was created. *)
Lemma loadWallet_createWallet_witness :
  length seedA = 32
  ∧ length (getPublicKey seedA) = 32
  ∧ WalletService.loadWallet walletService "agent-1"
      (WalletService.createWallet walletService "agent-1" seedA freshA ∅).2
    = Returns (WalletService.createWallet walletService "agent-1" seedA
                 freshA ∅).1.
Proof.
  split; [reflexivity|]. split; [reflexivity|].
  exact (@WalletServiceFacts.loadWallet_createWallet _
           KeyManagerFacts.sample_laws walletService "agent-1" seedA freshA ∅
           eq_refl eq_refl).
Defined.

End KeystoreFacts.

(** ** Signing and submission *)

Module SubmissionFacts.
Import WalletService.

Section Signing.
Context {P : NodePrimitives}.
Context (sign : Keypair → Transaction → completion Transaction).

(** X4.  [signTransaction] never replaces a fee payer or a blockhash that
    the transaction has: the fee payer defaults to the wallet's key, and the
    network is asked for a blockhash only when the transaction has none (the
    outcome does not depend on the answer otherwise).  When the request
    fails nothing is signed. *)
Theorem signTransaction_prepares (bh : completion string) (tx : Transaction)
    (wallet : Keypair) :
  let payer := default (toBase58 (publicKey wallet)) (feePayer tx) in
  (lacks_blockhash tx = false →
     (∀ bh', signTransaction sign bh' tx wallet = signTransaction sign bh tx wallet)
     ∧ ∃ tx', signTransaction sign bh tx wallet = sign wallet tx'
              ∧ feePayer tx' = Some payer
              ∧ recentBlockhash tx' = recentBlockhash tx
              ∧ instructions tx' = instructions tx)
  ∧ (lacks_blockhash tx = true →
       match bh with
       | Throws e => signTransaction sign bh tx wallet = Throws e
       | Returns h =>
           ∃ tx', signTransaction sign bh tx wallet = sign wallet tx'
                  ∧ feePayer tx' = Some payer
                  ∧ recentBlockhash tx' = Some h
                  ∧ instructions tx' = instructions tx
       end).
Proof.
  intros payer. subst payer. unfold signTransaction.
  set (tx1 := match feePayer tx with None => _ | Some _ => tx end).
  assert (H1 : feePayer tx1
               = Some (default (toBase58 (publicKey wallet)) (feePayer tx))
               ∧ recentBlockhash tx1 = recentBlockhash tx
               ∧ instructions tx1 = instructions tx
               ∧ lacks_blockhash tx1 = lacks_blockhash tx).
  { subst tx1. destruct (feePayer tx) as [fp|] eqn:E; simpl; [by rewrite E|done]. }
  destruct H1 as (Hfp & Hbh & Hix & Hl). rewrite Hl. split.
  - intros ->. split; [done|]. by exists tx1.
  - intros ->. destruct bh as [h|e]; [|done].
    eexists. split; [done|]. simpl. done.
Qed.

End Signing.

Section Pipeline.
Context (net : Cluster).

(** The three network steps of a submission, one after the other. *)
Local Ltac submitted :=
  match goal with
  | |- context [serialize ?n ?b ?t] =>
      destruct (serialize n b t) as [raw|] eqn:Hser; simpl; [|done]
  end;
  match goal with
  | |- context [sendRawTransaction ?n ?v ?r] =>
      destruct (sendRawTransaction n v r) as [sg|] eqn:Hsend; simpl; [|done]
  end;
  match goal with
  | |- context [confirmTransaction ?n ?v ?g] =>
      destruct (confirmTransaction n v g) as [[]|] eqn:Hc; simpl; [|done]
  end;
  intros [= ->].

(** X5.  A signature returned by [sendTransaction] means that every stage
    passed, in order: the allowlist accepted the transaction, the simulation
    (unless skipped) reported no error, and the endpoint in use (Kora when
    enabled, the RPC node otherwise) accepted the raw transaction, answered
    with this signature and confirmed it. *)
Theorem sendTransaction_returns (self : t) (tx : Transaction)
    (options : option SendOptions) (signature : string) :
  (sendTransaction net self tx options).2 = Returns signature →
  ProgramAllowlist.validateTransaction (allowlist self) tx = Returns tt
  ∧ (skips options = false →
     ∃ r, simulateTransaction_rpc net tx = Returns r ∧ err r = None)
  ∧ (sendTransaction net self tx options).1 = full_trace self options
  ∧ ∃ raw,
      serialize net (negb (KoraClient.isEnabled (koraClient self))) tx
      = Returns raw
      ∧ sendRawTransaction net (submit_via self) raw = Returns signature
      ∧ confirmTransaction net (submit_via self) signature = Returns tt.
Proof.
  unfold sendTransaction, full_trace, simulateTransaction, submit_via,
    KoraClient.sendTransaction, KoraClient.isEnabled.
  destruct (ProgramAllowlist.validateTransaction (allowlist self) tx)
    as [[]|e0]; simpl; [|done].
  destruct (skips options); simpl.
  - destruct (KoraClient.koraConnection (koraClient self)) as [url|]; simpl;
      submitted; (split; [done|]); (split; [done|]); (split; [done|]);
      by exists raw.
  - destruct (simulateTransaction_rpc net tx) as [r|]; simpl; [|done].
    destruct (err r) as [e1|] eqn:He; simpl; [done|].
    destruct (KoraClient.koraConnection (koraClient self)) as [url|]; simpl;
      submitted; (split; [done|]); (split; [by exists r|]); (split; [done|]);
      by exists raw.
Qed.

(** X6.  A throw of [sendTransaction] does not mean that nothing was sent:
    when the checks pass, the endpoint accepts the raw transaction and the
    confirmation then rejects, the call throws the confirmation's error
    after the whole pipeline, the send included, has run. *)
Theorem sendTransaction_sent_unconfirmed (self : t) (tx : Transaction)
    (options : option SendOptions) (raw : bytes) (signature : string)
    (e : Error) :
  ProgramAllowlist.validateTransaction (allowlist self) tx = Returns tt →
  (skips options = true
   ∨ ∃ r, simulateTransaction_rpc net tx = Returns r ∧ err r = None) →
  serialize net (negb (KoraClient.isEnabled (koraClient self))) tx
  = Returns raw →
  sendRawTransaction net (submit_via self) raw = Returns signature →
  confirmTransaction net (submit_via self) signature = Throws e →
  sendTransaction net self tx options = (full_trace self options, Throws e)
  ∧ SendRaw (submit_via self) ∈ (sendTransaction net self tx options).1.
Proof.
  intros Hv Hsim Hser Hsend Hconf.
  assert (Hrun : sendTransaction net self tx options
                 = (full_trace self options, Throws e)).
  { revert Hser Hsend Hconf.
    unfold sendTransaction, full_trace, simulateTransaction, submit_via,
      KoraClient.sendTransaction, KoraClient.isEnabled.
    rewrite Hv. simpl.
    destruct (skips options) eqn:Hsk; simpl.
    - destruct (KoraClient.koraConnection (koraClient self)) as [url|]; simpl;
        intros -> Hs; simpl; rewrite Hs; simpl; by intros ->.
    - destruct Hsim as [|(r & -> & He)]; [done|]. simpl. rewrite He. simpl.
      destruct (KoraClient.koraConnection (koraClient self)) as [url|]; simpl;
        intros -> Hs; simpl; rewrite Hs; simpl; by intros ->. }
  split; [done|]. rewrite Hrun. unfold full_trace. simpl.
  destruct (skips options); simpl; rewrite !elem_of_cons; auto.
Qed.

End Pipeline.
End SubmissionFacts.

(** ** The event bus *)

Module EventBusFacts.
Import EventBus.

Lemma add_spec (h x : nat) (set : list nat) :
  NoDup set → NoDup (add h set) ∧ (x ∈ add h set ↔ x = h ∨ x ∈ set).
Proof.
  intros Hnd. unfold add. case_bool_decide as Hin.
  - split; [done|]. split; [by right|]. by intros [->|].
  - split.
    + apply NoDup_app. split; [done|]. split; [|apply NoDup_singleton].
      intros y Hy Hy'. apply list_elem_of_singleton in Hy'. by subst.
    + rewrite elem_of_app, list_elem_of_singleton. tauto.
Qed.


Section Emit.
Context {Payload : Type} (invoke : nat → Payload → completion unit).



End Emit.
End EventBusFacts.

(** ** Retrying a transfer *)

Module TransferFacts.
Import TokenService.

Section Retry.
Context (String_ : Error → string).

(** X8.  [transferSol] makes between one and three attempts and ends with
    the outcome of the last attempt it made; every attempt before the last
    failed with a blockhash error (the only kind retried), and it stops
    before the third attempt only on a signature or on an error of another
    kind. *)
Theorem transferSol_retries (answers : nat → Attempt) :
  let '(n, r) := transferSol String_ answers in
  1 ≤ n ≤ 3
  ∧ r = try_ (answers (n - 1))
  ∧ (∀ j, j < n - 1 →
       ∃ e, try_ (answers j) = Throws e ∧ retryable String_ e = true)
  ∧ (n < 3 → ∀ e, r = Throws e → retryable String_ e = false).
Proof.
  unfold transferSol. simpl.
  destruct (try_ (answers 0)) as [s0|e0] eqn:H0; simpl.
  { split; [lia|]. split; [done|]. split; [intros j Hj; lia|]. done. }
  destruct (retryable String_ e0) eqn:R0; simpl.
  2:{ split; [lia|]. split; [done|]. split; [intros j Hj; lia|].
      by intros _ e [= <-]. }
  destruct (try_ (answers 1)) as [s1|e1] eqn:H1; simpl.
  { split; [lia|]. split; [done|]. split; [|done].
    intros j Hj. assert (j = 0) as -> by lia. by exists e0. }
  destruct (retryable String_ e1) eqn:R1; simpl.
  2:{ split; [lia|]. split; [done|]. split; [|by intros _ e [= <-]].
      intros j Hj. assert (j = 0) as -> by lia. by exists e0. }
  assert (Hprev : ∀ j, j < 2 →
            ∃ e, try_ (answers j) = Throws e ∧ retryable String_ e = true).
  { intros j Hj. destruct j as [|[|j]]; [by exists e0|by exists e1|lia]. }
  destruct (try_ (answers 2)) as [s2|e2] eqn:H2; simpl.
  { split; [lia|]. split; [done|]. split; [done|]. lia. }
  destruct (retryable String_ e2) eqn:R2; simpl;
    (split; [lia|]); (split; [done|]); (split; [done|]); lia.
Qed.

End Retry.
End TransferFacts.

(** ** The ledger, beyond the invariant *)

Module LedgerFacts.
Import Agent Orchestrator RegistryFacts.

Section Ledger.
Context {P : NodePrimitives} (ws : WalletService.t) (D : float).

(** X9.  [checkSpendingLimit] admits exactly the amounts that
    [trackSpending] would accept in the same state, and refuses the others
    with the same two numbers; an unknown id is [AgentNotFound] for both,
    and so is a store that does not hold an array. *)
Theorem checkSpendingLimit_agrees (w : World) (id0 : string) (sol : float)
    (now : string) :
  (checkSpendingLimit D id0 sol w = Returns tt
   ↔ (Orchestrator.trackSpending D id0 sol now w).2 = Returns tt)
  ∧ (∀ spent limit,
       checkSpendingLimit D id0 sol w
       = Throws (WouldExceedSpendingLimit spent limit)
       ↔ Orchestrator.trackSpending D id0 sol now w
         = (w, Throws (SpendingLimitExceeded spent limit)))
  ∧ (checkSpendingLimit D id0 sol w = Throws (AgentNotFound id0)
     ↔ getAgent w id0 = Returns None)
  ∧ (∀ e, getAgent w id0 = Throws e →
       checkSpendingLimit D id0 sol w = Throws e
       ∧ Orchestrator.trackSpending D id0 sol now w = (w, Throws e)).
Proof.
  unfold checkSpendingLimit, Orchestrator.trackSpending.
  destruct (getAgent w id0) as [[r|]|e0] eqn:Hg; simpl.
  - destruct (Number.gt _ _) eqn:Hq; simpl.
    + split; [done|]. split; [|by split]. intros spent limit.
      split; intros [= <- <-]; done.
    + set (r' := set_lastUpdated now _).
      assert (Hid : Agent.id r' = id0)
        by (destruct (getAgent_Some _ _ _ Hg) as (? & ? & _ & _ & ? & _); done).
      rewrite <- Hid in Hg.
      destruct (updateAgent_present w r r' Hg) as (w' & -> & _).
      simpl. split; [done|]. split; [|by split]. intros spent limit. done.
  - split; [done|]. split; [|by split]. intros spent limit. done.
  - assert (e0 = NotAFunction "all.find") as ->.
    { unfold getAgent in Hg. by destruct (readAgents w); simplify_eq/=. }
    split; [done|]. split; [done|]. split; [done|]. by intros e [= <-].
Qed.

(** X10.  [trackSpending] touches one field pair of one record: whatever its
    outcome, the other agents' records, the number of records, the files
    other than the store, the running set and the emitted events are as
    before, and the agent's own id, wallet, address, strategy, creation
    time, snapshot and spending limit are never changed.  On an unknown id
    it throws [AgentNotFound] and changes nothing. *)
Theorem trackSpending_frame (w : World) (id0 : string) (sol : float)
    (now : string) :
  let w' := (Orchestrator.trackSpending D id0 sol now w).1 in
  (∀ id1, id1 ≠ id0 → getAgent w' id1 = getAgent w id1)
  ∧ length (agents w') = length (agents w)
  ∧ other_files w' = other_files w ∧ runningAgents w' = runningAgents w
  ∧ events w' = events w
  ∧ (∀ r, getAgent w id0 = Returns (Some r) →
       ∃ r', getAgent w' id0 = Returns (Some r')
             ∧ Agent.id r' = Agent.id r
             ∧ walletName r' = walletName r
             ∧ walletAddress r' = walletAddress r
             ∧ strategy r' = strategy r
             ∧ createdAt r' = createdAt r
             ∧ splBalances r' = splBalances r
             ∧ spendingLimit r' = spendingLimit r)
  ∧ (getAgent w id0 = Returns None →
       Orchestrator.trackSpending D id0 sol now w
       = (w, Throws (AgentNotFound id0)))
  ∧ (∀ e, getAgent w id0 = Throws e →
       Orchestrator.trackSpending D id0 sol now w = (w, Throws e)).
Proof.
  unfold Orchestrator.trackSpending.
  destruct (getAgent w id0) as [[r|]|e0] eqn:Hg; simpl.
  - destruct (Number.gt _ _) eqn:Hq; simpl.
    + repeat (split; [done|]). split; [|done].
      intros r0 [= <-]. by exists r.
    + set (r' := set_lastUpdated now _).
      destruct (getAgent_Some _ _ _ Hg) as (_ & _ & _ & _ & Hid0 & Hj).
      assert (Hid : Agent.id r' = id0) by done.
      pose proof Hg as Hg0. rewrite <- Hid in Hg.
      destruct (updateAgent_present w r r' Hg)
        as (w' & Hu & Hg' & Hother & Hlen & Hk & _ & Hr & _ & _ & He & _).
      rewrite Hu. simpl. rewrite Hid in *.
      repeat (split; [done|]). split; [|done].
      intros r0 [= <-]. exists (JSON_record r').
      split; [done|]. repeat (split; [done|]). simpl.
      apply (f_equal spendingLimit) in Hj. exact Hj.
  - repeat (split; [done|]). done.
  - repeat (split; [done|]). by intros e [= <-].
Qed.


End Ledger.
End LedgerFacts.

(** ** The life of an agent: registration, stop, runs *)

Module LifecycleFacts.
Import Agent Orchestrator RegistryFacts.

Section Reads.
Context {P : NodePrimitives}.

(** What is read of the registry depends on the files and the store path
    alone. *)
Lemma readAgents_frame (w w' : World) :
  files w' = files w → storePath w' = storePath w →
  readAgents w' = readAgents w.
Proof. unfold readAgents, storeFile. by intros -> ->. Qed.




End Reads.

Section Runs.
Context {P : NodePrimitives} (ws : WalletService.t).

(** X13.  [stopAgent] on an id whose runner in the running set is a trading
    agent ends that agent's run at its next step, whether or not
    [stopAgent] itself returns: when the mint or transfer the loop awaits
    settles, with a signature or an error, the loop returns with at most
    that one more signature, the id is not in the running set and
    [agent_completed] is emitted with the signatures.  The call returns
    them, unless a subscriber of [agent_completed] throws: the call then
    rejects with the subscriber's error. *)
Theorem stopAgent_ends_trading_run (w : World) (id0 now : string)
    (k ref : nat) (b : bool) (fr : TradingAgent.Frame) (c : completion string) :
  runningAgents w !! id0 = Some {| ra_id := id0; runner := ref |} →
  objects w !! ref = Some (TradingRunner b) →
  calls w !! k = Some (Pending id0 ref (TradingLoop fr)) →
  TradingAgent.at_ fr = TradingAgent.AwaitMintSpl
  ∨ TradingAgent.at_ fr = TradingAgent.AwaitTransferSpl →
  ∃ w' sigs,
    resume k (Signature c) (stopAgent id0 now w).1 = Some w'
    ∧ length sigs ≤ S (length (TradingAgent.signatures fr))
    ∧ isRunning w' id0 = false
    ∧ events w' = events w ++ [agent_stopped id0; agent_completed id0 sigs]
    ∧ calls w' !! k
      = Some (Settled
                match delivery w (agent_completed id0 sigs) with
                | Returns _ => Returns sigs
                | Throws e => Throws e
                end).
Proof.
  intros Hra Hobj Hcall Hat.
  destruct (LoopFacts.unregister_world w id0)
    as (Hc & Hf & Hs & Hb & Hh & Hr & Ho & He & _).
  assert (Hwas : isRunning w id0 = true).
  { unfold isRunning. rewrite Hra. by apply bool_decide_eq_true_2. }
  rewrite Hra in Ho. simpl in Ho. rewrite Hobj in Ho. simpl in Ho.
  rewrite Hwas in He.
  (* the world that [stopAgent] leaves agrees with the world after its
     first half on all that the loop reads *)
  assert (Hstop : ∃ w1, (stopAgent id0 now w).1 = w1
            ∧ calls w1 = calls w
            ∧ objects w1 = <[ref := TradingRunner false]> (objects w)
            ∧ runningAgents w1 = delete id0 (runningAgents w)
            ∧ events w1 = events w ++ [agent_stopped id0]
            ∧ eventBus w1 = eventBus w ∧ handler w1 = handler w).
  { unfold stopAgent.
    destruct (unregister id0 w) as [w1 [[]|e]]; simpl in *; [|by eexists].
    destruct (getAgent w1 id0) as [[r|]|e] eqn:Hg; [|by eexists|by eexists].
    destruct (getAgent_Some _ _ _ Hg) as (_ & _ & _ & _ & Hid0 & _).
    set (r' := set_lastUpdated now r).
    assert (Hid : Agent.id r' = id0) by done.
    rewrite <- Hid in Hg.
    destruct (updateAgent_present w1 r r' Hg)
      as (w' & Hu & _ & _ & _ & _ & _ & Hr' & Ho' & Hc' & He' & Hb' & Hh').
    rewrite Hu. simpl. exists w'. split; [done|].
    rewrite Hc', Ho', Hr', He', Hb', Hh'. done. }
  destruct Hstop as (w1 & -> & Hc1 & Ho1 & Hr1 & He1 & Hb1 & Hh1).
  assert (Hobj1 : objects w1 !! ref = Some (TradingRunner false)).
  { rewrite Ho1. apply list_lookup_insert_eq. by eapply lookup_lt_Some. }
  destruct (LoopFacts.TradingAgent_stop_is_observed fr c Hat)
    as (sigs & Hres & Hlen).
  unfold resume. rewrite Hc1, Hcall. simpl. rewrite Hobj1. simpl.
  rewrite Hres. simpl. unfold emit. simpl.
  rewrite (LoopFacts.delivery_frame w) by done.
  exists (setCalls
            (<[k := Settled
                      match delivery w (agent_completed id0 sigs) with
                      | Returns _ => Returns sigs
                      | Throws e => Throws e
                      end]> (calls w))
            (setEvents (events w1 ++ [agent_completed id0 sigs])
               (setRunning (delete id0 (runningAgents w1)) w1))), sigs.
  split.
  { destruct (delivery w (agent_completed id0 sigs)); simpl; by rewrite Hc1. }
  split; [done|]. simpl. split.
  { unfold isRunning. simpl. rewrite lookup_delete_eq.
    apply bool_decide_eq_false_2. by intros [? ?]. }
  split; [by rewrite He1, <- app_assoc|].
  apply list_lookup_insert_eq. by eapply lookup_lt_Some.
Qed.

(** X14.  When [spawnAgent] returns, it has appended one record to the
    store and kept the others: the record carries the wallet name in use,
    the given or default limit, the fresh id and [solSpent = 0]; the key
    file it wrote is not the store, and the wallet that the record names
    loads back with the public key that is the record's address.  The
    running set is untouched, one [agent_spawned] event was emitted and no
    subscriber of it threw. *)
Theorem spawnAgent_registers {L : NodeLaws P} (D : float) (strategy : string)
    (name : option string) (limit : option float) (inp : Inputs)
    (w w' : World) (rec : AgentRecord) :
  length (seed inp) = 32 →
  length (getPublicKey (seed inp)) = 32 →
  spawnAgent ws D strategy name limit inp w = (w', Returns rec) →
  let event := agent_spawned (Agent.id rec) strategy (walletAddress rec) in
  keyfile (WalletService.dir ws) (spawn_name name inp) ≠ storeFile w
  ∧ agents w' = agents w ++ [JSON_record rec]
  ∧ Agent.id rec = uuid inp
  ∧ walletName rec = spawn_name name inp
  ∧ spendingLimit rec = Some (default D limit)
  ∧ solSpent rec = Some zero
  ∧ (∃ kp, WalletService.loadWallet ws (walletName rec) (files w')
           = Returns kp
           ∧ walletAddress rec = toBase58 (publicKey kp))
  ∧ runningAgents w' = runningAgents w
  ∧ events w' = events w ++ [event]
  ∧ delivery w event = Returns tt.
Proof.
  intros Hs Hp. unfold spawnAgent, WalletService.createWallet.
  fold (spawn_name name inp).
  pose proof (WalletServiceFacts.saveKeypair_lookup (WalletService.keyManager ws)
                (WalletService.dir ws) (spawn_name name inp)
                (Keypair_.generate (seed inp)) (fresh inp) (files w)) as Hl.
  destruct (KeyManager.saveKeypair _ _ _ _ _ _) as [st fs1]. simpl in *.
  set (kf := keyfile (WalletService.dir ws) (spawn_name name inp)) in *.
  unfold readAgents at 1. simpl. unfold storeFile at 1. simpl.
  fold (storeFile w). rewrite Hl.
  destruct (decide (kf = storeFile w)) as [Heq|Hne]; [done|].
  assert (Hread : match files w !! storeFile w with
                  | Some (KeypairFile stored) => KeypairFile stored
                  | Some (AgentsFile records) =>
                      AgentsFile (JSON_record <$> records)
                  | None => AgentsFile []
                  end = readAgents w) by done.
  rewrite Hread.
  destruct (readAgents w) as [stored|all] eqn:Hall; [done|]. simpl.
  unfold emit. simpl.
  rewrite (LoopFacts.delivery_frame w) by done.
  destruct (delivery w _) as [[]|e] eqn:Hd; [|done].
  intros [= <- <-]. simpl.
  split; [done|]. split.
  { unfold agents.
    rewrite (readAgents_frame (writeAgents _ (setFiles fs1 w))) by done.
    rewrite readAgents_writeAgents, Hall, fmap_app.
    simpl. f_equal. apply (readAgents_JSON w). exact Hall. }
  repeat (split; [done|]). split; [|done].
  exists (Keypair_.generate (seed inp)). split; [|done].
  unfold WalletService.loadWallet, KeyManager.loadKeypair. simpl.
  fold (keyfile (WalletService.dir ws) (spawn_name name inp)). fold kf.
  unfold storeFile. simpl. fold (storeFile w).
  rewrite lookup_insert_ne by done. rewrite (Hl kf), decide_True by done.
  apply KeyManagerFacts.decryptKeypair_inverts.
  by apply KeyManagerFacts.generate_wellformed.
Qed.

(** X15.  [promoteWallet] writes no file but the store and never changes
    the running set.  It throws without a trace when the store does not
    hold an array, when the name is registered or when the wallet does not
    load; it throws with the record written and the event emitted when a
    subscriber of [agent_spawned] throws.  When it returns, the name was not
    registered, the wallet loaded, and the one record added, at the end,
    carries the name and the loaded wallet's public key. *)
Theorem promoteWallet_outcomes (D : float) (name strategy : string)
    (limit : option float) (inp : Inputs) (w : World) :
  let run := promoteWallet ws D name strategy limit inp w in
  let event rec :=
    agent_spawned (Agent.id rec) (Agent.strategy rec) (walletAddress rec) in
  other_files run.1 = other_files w ∧ runningAgents run.1 = runningAgents w
  ∧ (∀ e, run.2 = Throws e →
       (run.1 = w
        ∧ (asArray "all.find" (readAgents w) = Throws e
           ∨ registered w name
           ∨ WalletService.loadWallet ws name (files w) = Throws e))
       ∨ (∃ kp,
            WalletService.loadWallet ws name (files w) = Returns kp
            ∧ ¬ registered w name
            ∧ agents run.1
              = agents w ++ [JSON_record (newRecord D name kp strategy limit inp)]
            ∧ events run.1
              = events w ++ [event (newRecord D name kp strategy limit inp)]
            ∧ delivery w (event (newRecord D name kp strategy limit inp))
              = Throws e))
  ∧ (∀ rec, run.2 = Returns rec →
       ¬ registered w name
       ∧ agents run.1 = agents w ++ [JSON_record rec]
       ∧ walletName rec = name
       ∧ Agent.solSpent rec = Some zero
       ∧ events run.1 = events w ++ [event rec]
       ∧ delivery w (event rec) = Returns tt
       ∧ ∃ kp, WalletService.loadWallet ws name (files w) = Returns kp
               ∧ walletAddress rec = toBase58 (publicKey kp)).
Proof.
  unfold promoteWallet, registered, agents.
  destruct (readAgents w) as [stored|all] eqn:Hall; simpl.
  { split; [done|]. split; [done|]. split; [|done].
    intros e [= <-]. left. split; [done|]. by left. }
  destruct (list_find _ all) as [[i x]|] eqn:Hfind; simpl.
  - split; [done|]. split; [done|]. split; [|done].
    intros e _. left. split; [done|]. right. left.
    apply list_find_Some in Hfind as (Hi & Hname & _).
    apply list_elem_of_fmap. exists x.
    split; [done|]. by eapply list_elem_of_lookup_2.
  - assert (Hnot : name ∉ walletName <$> all).
    { intros Hreg. apply list_elem_of_fmap in Hreg as (a & Ha & Hin).
      apply list_find_None in Hfind. rewrite Forall_forall in Hfind.
      by apply (Hfind a). }
    destruct (WalletService.loadWallet ws name (files w)) as [kp|e0] eqn:Hl;
      simpl.
    + unfold emit. simpl. rewrite (LoopFacts.delivery_frame w) by done.
      assert (Hag : match readAgents
                            (writeAgents
                               (all ++ [newRecord D name kp strategy limit inp])
                               w) with
                    | KeypairFile _ => []
                    | AgentsFile l => l
                    end
                    = all ++ [JSON_record (newRecord D name kp strategy limit inp)]).
      { rewrite readAgents_writeAgents, fmap_app. simpl. f_equal.
        by apply (readAgents_JSON w). }
      destruct (delivery w _) as [[]|e1] eqn:Hd; simpl.
      * split; [apply other_files_writeAgents|]. split; [done|].
        split; [done|]. intros rec [= <-].
        split; [done|]. split; [exact Hag|]. repeat (split; [done|]).
        by exists kp.
      * split; [apply other_files_writeAgents|]. split; [done|].
        split; [|done]. intros e [= <-]. right. exists kp.
        split; [done|]. split; [done|]. split; [exact Hag|]. done.
    + split; [done|]. split; [done|]. split; [|done].
      intros e [= <-]. left. split; [done|]. right. by right.
Qed.

(** A simple loop that ends before its first [await] has nothing to
    return but what it started with. *)
Lemma SimpleAgentRunner_from_test_finished opts rnd n i sigs c :
  SimpleAgentRunner.from_test opts rnd n i sigs = Finished c →
  c = Returns sigs.
Proof.
  revert i. induction n as [|n IH]; intros i; simpl; [by intros [= <-]|].
  destruct (i <? _); [|by intros [= <-]].
  destruct (Qle_bool _ _); [done|].
  destruct (_ && _); [done|]. apply IH.
Qed.

(** X16.  [runAgentLoop] adds exactly one call and leaves the files alone.
    On a store that does not hold an array, an unknown agent or a wallet
    that does not load, the call is rejected and nothing else changes: no
    runner, no entry in the running set, no event.  Otherwise a new runner
    is made and put in the running set under the id, over any entry that
    was there, and [agent_started] is emitted.  The call is then suspended
    in its loop or, when no iteration awaits anything, already returned
    with no signature and the id taken out again; or it is rejected by a
    subscriber that throws: of [agent_started], with the id left in the set
    and no loop begun, or of [agent_completed], with the id taken out. *)
Theorem runAgentLoop_starts (id0 : string) (options : SimpleOptions.t)
    (rnd : nat → Q) (w : World) :
  let w' := runAgentLoop ws id0 options rnd w in
  let started := agent_started id0 "simple_transfer" in
  let completed := agent_completed id0 [] in
  let entry := {| ra_id := id0; runner := length (objects w) |} in
  files w' = files w
  ∧ ∃ c, calls w' = calls w ++ [c]
    ∧ ((∃ e, c = Settled (Throws e)
             ∧ w' = newCall c w
             ∧ (getAgent w id0 = Throws e
                ∨ (e = AgentNotFound id0 ∧ getAgent w id0 = Returns None)
                ∨ ∃ r, getAgent w id0 = Returns (Some r)
                       ∧ WalletService.loadWallet ws (walletName r) (files w)
                         = Throws e))
       ∨ ((∃ r wallet,
             getAgent w id0 = Returns (Some r)
             ∧ WalletService.loadWallet ws (walletName r) (files w)
               = Returns wallet)
          ∧ objects w' = objects w ++ [SimpleRunner]
          ∧ match c with
            | Pending a ref loop =>
                a = id0 ∧ ref = length (objects w)
                ∧ (∃ fr, loop = SimpleLoop fr)
                ∧ runningAgents w' = <[id0 := entry]> (runningAgents w)
                ∧ events w' = events w ++ [started]
                ∧ delivery w started = Returns tt
            | Settled (Returns sigs) =>
                sigs = []
                ∧ isRunning w' id0 = false
                ∧ events w' = events w ++ [started; completed]
                ∧ delivery w started = Returns tt
                ∧ delivery w completed = Returns tt
            | Settled (Throws e) =>
                (delivery w started = Throws e
                 ∧ runningAgents w' = <[id0 := entry]> (runningAgents w)
                 ∧ events w' = events w ++ [started])
                ∨ (delivery w started = Returns tt
                   ∧ delivery w completed = Throws e
                   ∧ isRunning w' id0 = false
                   ∧ events w' = events w ++ [started; completed])
            end)).
Proof.
  unfold runAgentLoop.
  destruct (getAgent w id0) as [[r|]|e0] eqn:Hg; simpl.
  2:{ split; [done|]. eexists. split; [done|]. left. eexists.
      split; [done|]. split; [done|]. right. by left. }
  2:{ split; [done|]. eexists. split; [done|]. left. eexists.
      split; [done|]. split; [done|]. by left. }
  destruct (WalletService.loadWallet ws (walletName r) (files w))
    as [wallet|e] eqn:Hl; simpl.
  2:{ split; [done|]. eexists. split; [done|]. left. eexists.
      split; [done|]. split; [done|]. right. right. by exists r. }
  unfold emit. simpl. rewrite (LoopFacts.delivery_frame w) by done.
  destruct (delivery w (agent_started id0 "simple_transfer")) as [[]|e1]
    eqn:Hd1; simpl.
  2:{ split; [done|]. eexists. split; [done|]. right.
      split; [by exists r, wallet|]. split; [done|]. by left. }
  match goal with
  | |- context [SimpleAgentRunner.runSolTransferLoop ?o ?r] =>
      pose proof (SimpleAgentRunner_from_test_finished o r
                    (SimpleAgentRunner.iterations o) 0 []) as Hfin;
      fold (SimpleAgentRunner.runSolTransferLoop o r) in Hfin;
      destruct (SimpleAgentRunner.runSolTransferLoop o r) as [fr|c]
  end; simpl.
  - split; [done|]. eexists. split; [done|]. right.
    split; [by exists r, wallet|]. split; [done|]. simpl.
    split; [done|]. split; [done|]. split; [by exists fr|]. done.
  - rewrite (Hfin c eq_refl). simpl. unfold emit. simpl.
    rewrite (LoopFacts.delivery_frame w) by done.
    assert (Hout : ∀ m : gmap string RunningAgent,
              bool_decide (is_Some (delete id0 m !! id0)) = false).
    { intros m. rewrite lookup_delete_eq.
      apply bool_decide_eq_false_2. by intros [? ?]. }
    destruct (delivery w (agent_completed id0 [])) as [[]|e2] eqn:Hd2; simpl.
    + split; [done|]. eexists. split; [done|]. right.
      split; [by exists r, wallet|]. split; [done|]. simpl.
      split; [done|]. split; [apply Hout|].
      split; [by rewrite <- app_assoc|]. done.
    + split; [done|]. eexists. split; [done|]. right.
      split; [by exists r, wallet|]. split; [done|]. simpl. right.
      split; [done|]. split; [done|]. split; [apply Hout|].
      by rewrite <- app_assoc.
Qed.

(** X17.  When an awaited promise settles a call takes one step and nothing
    else moves: the files, the runner objects and the other calls are as
    before.  A call that stays suspended keeps its agent and runner and
    leaves the running set and the events alone.  When the loop returns,
    the agent's id is taken out of the running set, whichever run put the
    entry there, and [agent_completed] is emitted with the signatures: the
    call returns them, or rejects with the error of a subscriber that
    throws.  When the loop itself rejects, the running set and the events
    are as they were, so the id stays in the set. *)
Theorem resume_step (k : nat) (v : Settlement) (w w' : World)
    (id0 : string) (ref : nat) (loop : Loop) :
  calls w !! k = Some (Pending id0 ref loop) →
  resume k v w = Some w' →
  files w' = files w ∧ objects w' = objects w
  ∧ (∀ j, j ≠ k → calls w' !! j = calls w !! j)
  ∧ ∃ c, calls w' !! k = Some c
    ∧ match c with
      | Pending a ref' _ =>
          a = id0 ∧ ref' = ref
          ∧ runningAgents w' = runningAgents w ∧ events w' = events w
      | Settled (Returns sigs) =>
          runningAgents w' = delete id0 (runningAgents w)
          ∧ events w' = events w ++ [agent_completed id0 sigs]
          ∧ delivery w (agent_completed id0 sigs) = Returns tt
      | Settled (Throws e) =>
          (runningAgents w' = runningAgents w ∧ events w' = events w)
          ∨ (∃ sigs,
               runningAgents w' = delete id0 (runningAgents w)
               ∧ events w' = events w ++ [agent_completed id0 sigs]
               ∧ delivery w (agent_completed id0 sigs) = Throws e)
      end.
Proof.
  intros Hcall. unfold resume. rewrite Hcall. simpl.
  destruct (objects w !! ref) as [obj|]; simpl; [|done].
  assert (Hk : k < length (calls w)) by (by eapply lookup_lt_Some).
  set (st := match loop with SimpleLoop _ => _ | _ => _ end).
  destruct st as [[l|[sigs|e]]|]; simpl; [| | |done].
  - intros [= <-]; simpl.
    split; [done|]. split; [done|].
    split; [intros j Hj; by rewrite list_lookup_insert_ne|].
    eexists; (split; [by apply list_lookup_insert_eq|]); done.
  - unfold emit. simpl. rewrite (LoopFacts.delivery_frame w) by done.
    destruct (delivery w (agent_completed id0 sigs)) as [[]|e] eqn:Hd;
      intros [= <-]; simpl;
      (split; [done|]); (split; [done|]);
      (split; [intros j Hj; by rewrite list_lookup_insert_ne|]);
      eexists; (split; [by apply list_lookup_insert_eq|]); simpl;
      [done|right; by exists sigs].
  - intros [= <-]; simpl.
    split; [done|]. split; [done|].
    split; [intros j Hj; by rewrite list_lookup_insert_ne|].
    eexists; (split; [by apply list_lookup_insert_eq|]). by left.
Qed.

End Runs.

End LifecycleFacts.

(** ** What a run can return *)

Module LoopBoundFacts.

Section Simple.
Import SimpleAgentRunner.

Lemma simple_from_test_bounded opts rnd n i sigs :
  length sigs ≤ i → length sigs ≤ iterations opts →
  bounded opts (from_test opts rnd n i sigs).
Proof.
  revert i. induction n as [|n IH]; intros i Hi Hn; simpl; [done|].
  destruct (Nat.ltb_spec i (iterations opts)); [|done].
  destruct (Qle_bool _ _); [done|].
  destruct (_ && _); simpl; [split; [done|]; split; [done|]; lia|].
  apply IH; lia.
Qed.

Lemma simple_resume_bounded opts fr v st :
  bounded opts (Suspended fr) → resume fr v = Some st →
  bounded opts st
  ∧ ∀ e, st = Finished (Throws e) → v = Signature (Throws e).
Proof.
  intros (Ho & Hi & Hlen). unfold resume, after_action. rewrite Ho.
  destruct (at_ fr), v as [[sg|e]|c|]; try done; intros [= <-].
  - split; [|destruct (_ && _); [done|]; intros e He;
             pose proof (LifecycleFacts.SimpleAgentRunner_from_test_finished
                           _ _ _ _ _ _ He); done].
    destruct (_ && _); simpl.
    + split; [done|]. split; [done|]. rewrite length_app. simpl. lia.
    + apply simple_from_test_bounded; rewrite length_app; simpl; lia.
  - split; [done|]. by intros e' [= <-].
  - split; [apply simple_from_test_bounded; lia|].
    intros e He.
    pose proof (LifecycleFacts.SimpleAgentRunner_from_test_finished
                  _ _ _ _ _ _ He). done.
Qed.

(** X18.  However the network answers, [runSolTransferLoop] returns at most
    one signature per iteration, and it rejects only with the error of a
    transfer: the one whose rejection was the last thing it awaited. *)
Theorem runSolTransferLoop_outcome opts rnd (vs : list Settlement)
    (c : completion (list string)) :
  settle (runSolTransferLoop opts rnd) vs = Some (Finished c) →
  match c with
  | Returns sigs => length sigs ≤ iterations opts
  | Throws e => last vs = Some (Signature (Throws e))
  end.
Proof.
  assert (Hgen : ∀ vs st, bounded opts st →
    settle st vs = Some (Finished c) →
    match c with
    | Returns sigs => length sigs ≤ iterations opts
    | Throws e => (vs = [] ∧ st = Finished (Throws e))
                  ∨ last vs = Some (Signature (Throws e))
    end).
  { clear vs. induction vs as [|v vs IH]; intros st Hb; simpl.
    - intros [= ->]. destruct c; [done|]. by left.
    - destruct st as [fr|]; [|done].
      destruct (resume fr v) as [st'|] eqn:Hr; simpl; [|done].
      destruct (simple_resume_bounded opts fr v st' Hb Hr) as [Hb' Hthrow].
      intros Hs. specialize (IH st' Hb' Hs). destruct c as [sigs|e]; [done|].
      right. destruct IH as [[-> ->]|Hlast].
      + by rewrite (Hthrow e eq_refl).
      + destruct vs; [done|]. done. }
  intros Hs.
  assert (Hb : bounded opts (runSolTransferLoop opts rnd))
    by (apply simple_from_test_bounded; simpl; lia).
  specialize (Hgen vs _ Hb Hs). destruct c as [sigs|e]; [done|].
  destruct Hgen as [[-> Hf]|]; [|done].
  pose proof (LifecycleFacts.SimpleAgentRunner_from_test_finished
                _ _ _ _ _ _ Hf). done.
Qed.

End Simple.

Section Trading.
Import TradingAgent.
Context {P : NodePrimitives}.

Lemma trading_from_test_bounded cfg rnd running n i sigs price logged :
  length sigs ≤ i → length sigs ≤ iterations cfg →
  bounded cfg (from_test cfg rnd running n i sigs price logged).
Proof.
  revert i price. induction n as [|n IH]; intros i price Hi Hn; simpl; [done|].
  destruct (Nat.ltb_spec i (iterations cfg)); simpl; [|done].
  destruct running; simpl; [|done].
  destruct (evaluateMarket _ _); simpl; [done|done|].
  destruct (_ && _); simpl; [split; [done|]; split; [done|]; lia|].
  apply IH; lia.
Qed.

Lemma trading_after_action_bounded cfg rnd running i sigs price logged :
  i < iterations cfg → length sigs ≤ i + 1 →
  bounded cfg (after_action cfg rnd running i sigs price logged).
Proof.
  intros Hi Hlen. unfold after_action.
  destruct (_ && _); simpl; [done|].
  apply trading_from_test_bounded; lia.
Qed.

Lemma trading_resume_bounded cfg running fr v st :
  bounded cfg (Suspended fr) → resume running fr v = Some st →
  bounded cfg st.
Proof.
  intros (Ho & Hi & Hlen). unfold resume. rewrite Ho.
  destruct (at_ fr) eqn:Hat, v as [[sg|e]|[bs|e]|]; try done;
    try (intros [= <-]; apply trading_after_action_bounded;
         rewrite ?length_app; simpl; lia).
  - destruct (find _ bs) as [b|];
      [|intros [= <-]; apply trading_after_action_bounded; lia].
    destruct (Qgtb _ _);
      [|intros [= <-]; apply trading_after_action_bounded; lia].
    destruct (newPublicKey _); intros [= <-];
      [done|apply trading_after_action_bounded; lia].
  - intros [= <-]. apply trading_from_test_bounded; lia.
Qed.

(** X19.  However the network answers and whenever [stop()] is called,
    [TradingAgent.run] never rejects: it returns, with at most one signature
    per iteration. *)
Theorem TradingAgent_run_outcome cfg rnd (vs : list (bool * Settlement))
    (c : completion (list string)) :
  settle (run cfg rnd) vs = Some (Finished c) →
  ∃ sigs, c = Returns sigs ∧ length sigs ≤ iterations cfg.
Proof.
  assert (Hgen : ∀ vs st, bounded cfg st →
    settle st vs = Some (Finished c) →
    ∃ sigs, c = Returns sigs ∧ length sigs ≤ iterations cfg).
  { clear vs. induction vs as [|[running v] vs IH]; intros st Hb; simpl.
    - intros [= ->]. destruct c as [sigs|e]; [by exists sigs|done].
    - destruct st as [fr|]; [|done].
      destruct (resume running fr v) as [st'|] eqn:Hr; simpl; [|done].
      apply IH. by eapply trading_resume_bounded. }
  apply Hgen. apply trading_from_test_bounded; simpl; lia.
Qed.

End Trading.

Section Liquidity.
Import LiquidityAgent.
Context {P : NodePrimitives}.

Lemma liquidity_from_test_bounded cfg running i sigs logged :
  length sigs ≤ i → length sigs ≤ iterations cfg →
  bounded cfg (from_test cfg running i sigs logged).
Proof.
  intros Hi Hn. unfold from_test.
  destruct (Nat.ltb_spec i (iterations cfg)); simpl; [|done].
  destruct running; simpl; done.
Qed.

Lemma liquidity_after_action_bounded cfg running i sigs logged :
  i < iterations cfg → length sigs ≤ i + 1 →
  bounded cfg (after_action cfg running i sigs logged).
Proof.
  intros Hi Hlen. unfold after_action.
  destruct (_ && _); simpl; [done|].
  apply liquidity_from_test_bounded; lia.
Qed.

Lemma liquidity_resume_bounded cfg running fr v st :
  bounded cfg (Suspended fr) → resume running fr v = Some st →
  bounded cfg st
  ∧ ∀ e, st = Finished (Throws e) → v = Balances (Throws e).
Proof.
  intros (Ho & Hi & Hlen). unfold resume. rewrite Ho.
  assert (Haa : ∀ sigs logged e,
            after_action cfg running (i fr) sigs logged ≠ Finished (Throws e)).
  { intros sigs logged e. unfold after_action, from_test.
    destruct (_ && _); [done|]. by destruct (_ && _). }
  destruct (at_ fr) eqn:Hat, v as [[sg|e]|[bs|e]|]; try done;
    try (intros [= <-];
         split; [apply liquidity_after_action_bounded;
                 rewrite ?length_app; simpl; lia
                |intros e' He'; by apply Haa in He']).
  - destruct (evaluateBalance _ _).
    + intros [= <-]. split; [done|done].
    + destruct (Qgtb _ _).
      * destruct (newPublicKey _); intros [= <-].
        -- split; [done|done].
        -- split; [apply liquidity_after_action_bounded; lia|].
           intros e' He'. by apply Haa in He'.
      * intros [= <-]. split; [apply liquidity_after_action_bounded; lia|].
        intros e' He'. by apply Haa in He'.
    + intros [= <-]. split; [apply liquidity_after_action_bounded; lia|].
      intros e' He'. by apply Haa in He'.
  - intros [= <-]. split; [done|]. by intros e' [= <-].
  - intros [= <-]. split; [apply liquidity_from_test_bounded; lia|].
    intros e' He'. unfold from_test in He'. by destruct (_ && _).
Qed.

(** X20.  However the network answers, [LiquidityAgent.run] returns at most
    one signature per iteration, and it rejects only when the balance query
    at the top of an iteration rejects, with that error; a rejected mint or
    transfer never ends the run. *)
Theorem LiquidityAgent_run_outcome cfg (vs : list (bool * Settlement))
    (c : completion (list string)) :
  settle (run cfg) vs = Some (Finished c) →
  match c with
  | Returns sigs => length sigs ≤ iterations cfg
  | Throws e => ∃ running, last vs = Some (running, Balances (Throws e))
  end.
Proof.
  assert (Hgen : ∀ vs st, bounded cfg st →
    settle st vs = Some (Finished c) →
    match c with
    | Returns sigs => length sigs ≤ iterations cfg
    | Throws e => (vs = [] ∧ st = Finished (Throws e))
                  ∨ ∃ running, last vs = Some (running, Balances (Throws e))
    end).
  { clear vs. induction vs as [|[running v] vs IH]; intros st Hb; simpl.
    - intros [= ->]. destruct c; [done|]. by left.
    - destruct st as [fr|]; [|done].
      destruct (resume running fr v) as [st'|] eqn:Hr; simpl; [|done].
      destruct (liquidity_resume_bounded cfg running fr v st' Hb Hr)
        as [Hb' Hthrow].
      intros Hs. specialize (IH st' Hb' Hs). destruct c as [sigs|e]; [done|].
      right. destruct IH as [[-> ->]|[r Hlast]].
      + exists running. by rewrite (Hthrow e eq_refl).
      + exists r. destruct vs; [done|]. done. }
  intros Hs.
  assert (Hb : bounded cfg (run cfg))
    by (apply liquidity_from_test_bounded; simpl; lia).
  specialize (Hgen vs _ Hb Hs). destruct c as [sigs|e]; [done|].
  destruct Hgen as [[-> Hf]|]; [|done].
  unfold run, from_test in Hf. by destruct (_ && _).
Qed.

End Liquidity.
End LoopBoundFacts.

(** ** The further properties on instances *)

Module Instances.
Import Agent Orchestrator Sample.

Lemma sendTransaction_returns_witness :
  (WalletService.sendTransaction cluster walletService transferTx None).2
  = Returns "5sig"
  ∧ ProgramAllowlist.validateTransaction
      (WalletService.allowlist walletService) transferTx = Returns tt
  ∧ (WalletService.sendTransaction cluster walletService transferTx None).1
    = WalletService.full_trace walletService None.
Proof.
  assert (H : (WalletService.sendTransaction cluster walletService
                 transferTx None).2 = Returns "5sig")
    by (vm_compute; reflexivity).
  split; [exact H|].
  destruct (SubmissionFacts.sendTransaction_returns cluster walletService
              transferTx None "5sig" H) as (Hv & _ & Ht & _).
  split; [exact Hv|exact Ht].
Defined.

Lemma sendTransaction_sent_unconfirmed_witness :
  ProgramAllowlist.validateTransaction
    (WalletService.allowlist walletService) transferTx = Returns tt
  ∧ confirmTransaction unconfirmed RpcNode "5sig"
    = Throws (NetworkError "block height exceeded")
  ∧ WalletService.sendTransaction unconfirmed walletService transferTx None
    = (WalletService.full_trace walletService None,
       Throws (NetworkError "block height exceeded")).
Proof.
  assert (Hv : ProgramAllowlist.validateTransaction
                 (WalletService.allowlist walletService) transferTx
               = Returns tt) by (vm_compute; reflexivity).
  split; [exact Hv|]. split; [reflexivity|].
  refine (proj1 (SubmissionFacts.sendTransaction_sent_unconfirmed unconfirmed
                   walletService transferTx None [Byte.x01] "5sig"
                   (NetworkError "block height exceeded") Hv _ eq_refl eq_refl
                   eq_refl)).
  right. eexists. split; reflexivity.
Defined.

Lemma stopAgent_ends_trading_run_witness :
  let w := runTradingAgent walletService idA tenBuys rolls oneAgentWatched in
  ∃ fr,
    runningAgents w !! idA = Some {| ra_id := idA; runner := 0 |}
    ∧ objects w !! 0 = Some (TradingRunner true)
    ∧ calls w !! 0 = Some (Pending idA 0 (TradingLoop fr))
    ∧ TradingAgent.at_ fr = TradingAgent.AwaitMintSpl
    ∧ ∃ w' sigs,
        resume 0 (Signature (Returns "sig0"))
          (stopAgent idA "2026-02-19T07:30:00.000Z" w).1 = Some w'
        ∧ length sigs ≤ S (length (TradingAgent.signatures fr))
        ∧ isRunning w' idA = false
        ∧ events w'
          = events w ++ [agent_stopped idA; agent_completed idA sigs]
        ∧ calls w' !! 0
          = Some (Settled
                    match delivery w (agent_completed idA sigs) with
                    | Returns _ => Returns sigs
                    | Throws e => Throws e
                    end).
Proof.
  intros w.
  assert (Hra : runningAgents w !! idA = Some {| ra_id := idA; runner := 0 |})
    by (vm_compute; reflexivity).
  assert (Hobj : objects w !! 0 = Some (TradingRunner true)) by reflexivity.
  assert (Hc : ∃ fr, calls w !! 0 = Some (Pending idA 0 (TradingLoop fr))
                     ∧ TradingAgent.at_ fr = TradingAgent.AwaitMintSpl)
    by (eexists; split; vm_compute; reflexivity).
  destruct Hc as (fr & Hcall & Hat). exists fr.
  split; [exact Hra|]. split; [exact Hobj|].
  split; [exact Hcall|]. split; [exact Hat|].
  exact (LifecycleFacts.stopAgent_ends_trading_run w idA
           "2026-02-19T07:30:00.000Z" 0 0 true fr (Returns "sig0")
           Hra Hobj Hcall (or_introl Hat)).
Defined.

(** The run of the witness above ends with the subscriber's error, not
    with the signature. *)
Example stopped_run_rejected_by_subscriber :
  let w := runTradingAgent walletService idA tenBuys rolls oneAgentWatched in
  ∃ w',
    resume 0 (Signature (Returns "sig0"))
      (stopAgent idA "2026-02-19T07:30:00.000Z" w).1 = Some w'
    ∧ calls w' = [Settled (Throws failing)]
    ∧ events w'
      = [agent_spawned idA "simple" (Agent.walletAddress recordA);
         agent_started idA "trading"; agent_stopped idA;
         agent_completed idA ["sig0"]].
Proof.
  eexists. split; [vm_compute; reflexivity|]. split; reflexivity.
Qed.

(** [stopAgent] rejects when a subscriber of [agent_stopped] throws: the
    id has left the running set, and [lastUpdated] is not written. *)
Example stopAgent_rejected_by_subscriber :
  let w :=
    runTradingAgent walletService idA tenBuys rolls
      (on "agent_stopped" 0 oneAgentWatched) in
  let run := stopAgent idA "2026-02-19T07:30:00.000Z" w in
  isRunning w idA = true
  ∧ run.2 = Throws failing
  ∧ isRunning run.1 idA = false
  ∧ getAgent run.1 idA = Returns (Some recordA).
Proof.
  repeat split; vm_compute; reflexivity.
Qed.

Lemma spawnAgent_registers_witness :
  let event :=
    agent_spawned (Agent.id recordA) "simple" (walletAddress recordA) in
  length (seed inputsA) = 32
  ∧ length (getPublicKey (seed inputsA)) = 32
  ∧ spawnAgent walletService 1 "simple" (Some "agent-1") None inputsA empty
    = (oneAgent, Returns recordA)
  ∧ keyfile (WalletService.dir walletService)
      (spawn_name (Some "agent-1") inputsA) ≠ storeFile empty
  ∧ agents oneAgent = agents empty ++ [JSON_record recordA]
  ∧ Agent.id recordA = uuid inputsA
  ∧ walletName recordA = spawn_name (Some "agent-1") inputsA
  ∧ spendingLimit recordA = Some (default 1%float None)
  ∧ solSpent recordA = Some zero
  ∧ (∃ kp, WalletService.loadWallet walletService (walletName recordA)
             (files oneAgent) = Returns kp
           ∧ walletAddress recordA = toBase58 (publicKey kp))
  ∧ runningAgents oneAgent = runningAgents empty
  ∧ events oneAgent = events empty ++ [event]
  ∧ delivery empty event = Returns tt.
Proof.
  intros event.
  assert (Hrun : spawnAgent walletService 1 "simple" (Some "agent-1") None
                   inputsA empty = (oneAgent, Returns recordA))
    by (vm_compute; reflexivity).
  split; [reflexivity|]. split; [reflexivity|]. split; [exact Hrun|].
  exact (@LifecycleFacts.spawnAgent_registers _ walletService
           KeyManagerFacts.sample_laws 1 "simple" (Some "agent-1") None
           inputsA empty oneAgent recordA eq_refl eq_refl Hrun).
Defined.

(** A wallet name that climbs out of the keystore directory: the key file
    is written over the agent store, and [spawnAgent] rejects at
    [all.push]. *)
Example spawnAgent_over_the_store :
  let run :=
    spawnAgent walletService 1 "simple" (Some "../data/agents") None inputsB
      oneAgent in
  agents oneAgent = [recordA]
  ∧ run.2 = Throws (NotAFunction "all.push")
  ∧ (∃ stored, readAgents run.1 = KeypairFile stored)
  ∧ getAgent run.1 idA = Throws (NotAFunction "all.find").
Proof.
  split; [vm_compute; reflexivity|]. split; [vm_compute; reflexivity|].
  split; [eexists|]; vm_compute; reflexivity.
Qed.

Lemma resume_step_witness :
  let w := runAgentLoop walletService idA threeTransfers rolls oneAgent in
  ∃ loop w',
    calls w !! 0 = Some (Pending idA 0 loop)
    ∧ resume 0 (Signature (Throws timedOut)) w = Some w'
    ∧ files w' = files w ∧ objects w' = objects w
    ∧ (∀ j, j ≠ 0 → calls w' !! j = calls w !! j)
    ∧ ∃ c, calls w' !! 0 = Some c
      ∧ match c with
        | Pending a ref' _ =>
            a = idA ∧ ref' = 0
            ∧ runningAgents w' = runningAgents w ∧ events w' = events w
        | Settled (Returns sigs) =>
            runningAgents w' = delete idA (runningAgents w)
            ∧ events w' = events w ++ [agent_completed idA sigs]
            ∧ delivery w (agent_completed idA sigs) = Returns tt
        | Settled (Throws e) =>
            (runningAgents w' = runningAgents w ∧ events w' = events w)
            ∨ (∃ sigs,
                 runningAgents w' = delete idA (runningAgents w)
                 ∧ events w' = events w ++ [agent_completed idA sigs]
                 ∧ delivery w (agent_completed idA sigs) = Throws e)
        end.
Proof.
  intros w. eexists _, _.
  split; [vm_compute; reflexivity|]. split; [vm_compute; reflexivity|].
  eapply (LifecycleFacts.resume_step 0 (Signature (Throws timedOut)) w);
    vm_compute; reflexivity.
Defined.

Lemma runSolTransferLoop_outcome_witness :
  SimpleAgentRunner.settle
    (SimpleAgentRunner.runSolTransferLoop threeLoop rolls)
    [Signature (Returns "sig0"); Signature (Throws timedOut)]
  = Some (Finished (Throws timedOut))
  ∧ last [Signature (Returns "sig0"); Signature (Throws timedOut)]
    = Some (Signature (Throws timedOut)).
Proof.
  assert (H : SimpleAgentRunner.settle
                (SimpleAgentRunner.runSolTransferLoop threeLoop rolls)
                [Signature (Returns "sig0"); Signature (Throws timedOut)]
              = Some (Finished (Throws timedOut)))
    by (vm_compute; reflexivity).
  split; [exact H|].
  exact (LoopBoundFacts.runSolTransferLoop_outcome threeLoop rolls _ _ H).
Defined.

Lemma TradingAgent_run_outcome_witness :
  TradingAgent.settle (TradingAgent.run threeBuysConfig rolls)
    [(true, Signature (Returns "sig0")); (true, Signature (Throws timedOut));
     (true, Signature (Returns "sig2"))]
  = Some (Finished (Returns ["sig0"; "sig2"]))
  ∧ ∃ sigs, Returns ["sig0"; "sig2"] = Returns sigs
            ∧ length sigs ≤ TradingAgent.iterations threeBuysConfig.
Proof.
  assert (H : TradingAgent.settle (TradingAgent.run threeBuysConfig rolls)
                [(true, Signature (Returns "sig0"));
                 (true, Signature (Throws timedOut));
                 (true, Signature (Returns "sig2"))]
              = Some (Finished (Returns ["sig0"; "sig2"])))
    by (vm_compute; reflexivity).
  split; [exact H|].
  exact (LoopBoundFacts.TradingAgent_run_outcome threeBuysConfig rolls _ _ H).
Defined.

Lemma LiquidityAgent_run_outcome_witness :
  LiquidityAgent.settle (LiquidityAgent.run twoRebalances)
    [(true, Balances (Throws timedOut))]
  = Some (Finished (Throws timedOut))
  ∧ ∃ running,
      last [(true, Balances (Throws timedOut))]
      = Some (running, Balances (Throws timedOut)).
Proof.
  assert (H : LiquidityAgent.settle (LiquidityAgent.run twoRebalances)
                [(true, Balances (Throws timedOut))]
              = Some (Finished (Throws timedOut)))
    by (vm_compute; reflexivity).
  split; [exact H|].
  exact (LoopBoundFacts.LiquidityAgent_run_outcome twoRebalances _ _ H).
Defined.

Lemma SimpleAgentRunner_runs_every_iteration_witness :
  (∀ i, Qle_bool (SimpleAgentRunner.holdProbability threeLoop) (rolls i) = true)
  ∧ SimpleAgentRunner.intervalMs threeLoop = 0
  ∧ length ["sig0"; "sig1"; "sig2"] = SimpleAgentRunner.iterations threeLoop
  ∧ SimpleAgentRunner.settle
      (SimpleAgentRunner.runSolTransferLoop threeLoop rolls)
      ((λ s, Signature (Returns s)) <$> ["sig0"; "sig1"; "sig2"])
    = Some (Finished (Returns ["sig0"; "sig1"; "sig2"])).
Proof.
  assert (Hact : ∀ i, Qle_bool (SimpleAgentRunner.holdProbability threeLoop)
                        (rolls i) = true) by (intros i; reflexivity).
  split; [exact Hact|]. split; [reflexivity|]. split; [reflexivity|].
  exact (LoopFacts.SimpleAgentRunner_runs_every_iteration threeLoop rolls
           ["sig0"; "sig1"; "sig2"] Hact eq_refl eq_refl).
Defined.

End Instances.
